(** * CSV Table Formatter: the formatting and projection pipeline of [src/App.jsx]

    A shallow embedding of the logic of the application: the field
    classification tables, [formatValue], [getRawValue],
    [calculateMedianWeeklyRent], [sortHeaders], [generateTableData], the
    state transitions of [handleFileUpload], [handleColumnToggle],
    [handleColumnRename] and [handleDragEnd], the cells [exportTableExcel]
    computes and the controls the rendered page offers, together with the
    ECMAScript built-ins they call ([parseFloat], [Number.prototype.toFixed],
    [Number.prototype.toLocaleString], [Math.round], [String.prototype.replace],
    [Array.prototype.sort], [Object.keys]).

    JavaScript numbers are IEEE 754 binary64 values: they are modelled by
    [spec_float] of the Standard Library with [prec = 53] and [emax = 1024].
    JavaScript strings are modelled by [string]; a character stands for one
    code unit. Objects are the plain objects the code builds: their own
    properties in creation order, under the prototype [Object.prototype],
    whose members a read falls back to and whose [__proto__] setter an
    assignment reaches. [Papa.parse] is a parameter: what it calls back
    with for a file. *)

From Stdlib Require Import ZArith NArith String Ascii List Bool Lia.
From Stdlib Require Import Floats.SpecFloat.
From stdpp Require Import base list strings sorting.

Local Open Scope string_scope.
Local Open Scope list_scope.
Local Open Scope Z_scope.

(** ** Numbers *)

Module JSNumber.

Definition number : Type := spec_float.

Definition prec : Z := 53.
Definition emax : Z := 1024.

Definition js_NaN : number := S754_nan.
Definition js_zero : number := S754_zero false.

Definition isNaN (x : number) : bool :=
  match x with S754_nan => true | _ => false end.

Definition is_finite (x : number) : bool :=
  match x with S754_zero _ | S754_finite _ _ _ => true | _ => false end.

(** [x * y] and [x / y]. *)
Definition num_mul (x y : number) : number := SFmul prec emax x y.
Definition num_div (x y : number) : number := SFdiv prec emax x y.

(** [x > y] and [x < y]. *)
Definition num_ltb (x y : number) : bool := SFltb x y.
Definition num_gtb (x y : number) : bool := SFltb y x.

(** ToBoolean on a number: [+0], [-0] and [NaN] are falsy. *)
Definition num_truthy (x : number) : bool :=
  match x with S754_zero _ | S754_nan => false | _ => true end.

(** The number nearest to [n / d] (ties to even), with sign [s]. *)
Definition round_ratio (s : bool) (n d : positive) : number :=
  let '(q, e, l) := SFdiv_core_binary prec emax (Zpos n) 0 (Zpos d) 0 in
  binary_round_aux prec emax s q e l.

(** The number nearest to [m * 10 ^ e10] for [m >= 0], with sign [s]. *)
Definition of_decimal (s : bool) (m e10 : Z) : number :=
  match m with
  | Zpos p =>
      if 0 <=? e10 then round_ratio s (p * Z.to_pos (10 ^ e10)) 1
      else round_ratio s p (Z.to_pos (10 ^ (- e10)))
  | _ => S754_zero s
  end.

(** An integer literal of the program text, such as [100] or [52]. *)
Definition num_of_Z (z : Z) : number :=
  of_decimal (z <? 0) (Z.abs z) 0.

(** The exact value of a finite number as a fraction [(n, d)], sign apart. *)
Definition abs_ratio (x : number) : Z * Z :=
  match x with
  | S754_finite _ m e =>
      if 0 <=? e then (Zpos m * 2 ^ e, 1) else (Zpos m, 2 ^ (- e))
  | _ => (0, 1)
  end.

Definition sign_of (x : number) : bool :=
  match x with
  | S754_zero s | S754_infinity s | S754_finite s _ _ => s
  | S754_nan => false
  end.

(** [Math.round x]: the integer nearest to [x], ties towards [+∞]; a result
    of zero keeps the sign of [x]. *)
Definition Math_round (x : number) : number :=
  match x with
  | S754_finite s m e =>
      if 0 <=? e then x
      else
        let v := cond_Zopp s (Zpos m) in
        let n := Z.shiftr (2 * v + 2 ^ (- e)) (- e + 1) in
        binary_normalize prec emax n 0 s
  | _ => x
  end.

(** [|x|] scaled by [10 ^ f] and rounded to an integer, ties away from zero
    (the "let n be an integer for which n / 10^f - x is as close to zero as
    possible; if there are two such n, pick the larger n" of the standard). *)
Definition scaled_round (x : number) (f : Z) : Z :=
  let '(n, d) := abs_ratio x in
  (2 * n * 10 ^ f + d) / (2 * d).

(** [|x| >= 10 ^ k]. *)
Definition abs_ge_pow10 (x : number) (k : Z) : bool :=
  match x with
  | S754_infinity _ => true
  | S754_finite _ _ _ => let '(n, d) := abs_ratio x in d * 10 ^ k <=? n
  | _ => false
  end.

(** A shift record with nothing shifted out yet. *)
Definition rec0 (m : Z) : shr_record :=
  {| shr_m := m; shr_r := false; shr_s := false |}.

(** A shift record that holds [D] shifted right by [j] bits: the bits that
    are left, the round bit, which is the last bit shifted out, and the
    sticky bit, which tells whether a bit shifted out before was set. *)
Definition shifted (D j : Z) (r : shr_record) : Prop :=
  let rem := D - shr_m r * 2 ^ j in
  0 <= shr_m r /\ 0 <= rem < 2 ^ j
  /\ shr_r r = (2 ^ j <=? 2 * rem)
  /\ shr_s r = negb ((rem =? 0) || (2 * rem =? 2 ^ j)).

(** The integer a finite number is exactly equal to, when it is one. *)
Definition exact_Z (x : number) : option Z :=
  if is_finite x then
    let '(n, d) := abs_ratio x in
    if n mod d =? 0 then Some (cond_Zopp (sign_of x) (n / d)) else None
  else None.

End JSNumber.

Export JSNumber.

(** ** Strings and the numeric built-ins that read or write them *)

Module JSString.

Definition chars (s : string) : list ascii := list_ascii_of_string s.
Definition of_chars (l : list ascii) : string := string_of_list_ascii l.

Definition is_digit (c : ascii) : bool :=
  let n := N_of_ascii c in ((48 <=? n) && (n <=? 57))%N.

Definition digit_val (c : ascii) : Z := Z.of_N (N_of_ascii c) - 48.

Definition digit_char (d : Z) : ascii := ascii_of_N (Z.to_N (d + 48)).

(** WhiteSpace and LineTerminator code units below 256. *)
Definition is_space (c : ascii) : bool :=
  let n := N_of_ascii c in
  ((n =? 9) || (n =? 10) || (n =? 11) || (n =? 12) || (n =? 13)
   || (n =? 32) || (n =? 160))%N.

Fixpoint trim_start (l : list ascii) : list ascii :=
  match l with
  | c :: l' => if is_space c then trim_start l' else l
  | [] => []
  end.

(** The longest run of decimal digits at the head of [l], and the rest. *)
Fixpoint span_digits (l : list ascii) : list ascii * list ascii :=
  match l with
  | c :: l' =>
      if is_digit c then let '(ds, r) := span_digits l' in (c :: ds, r)
      else ([], l)
  | [] => ([], [])
  end.

Definition digits_value (ds : list ascii) : Z :=
  fold_left (fun acc c => 10 * acc + digit_val c) ds 0.

Fixpoint starts_with (p l : list ascii) : bool :=
  match p, l with
  | [], _ => true
  | a :: p', b :: l' => Ascii.eqb a b && starts_with p' l'
  | _ :: _, [] => false
  end.

(** The value of the longest prefix that is a StrDecimalLiteral. *)
Inductive StrDecimalLiteral :=
  | LitInfinity (neg : bool)
  | LitDecimal (neg : bool) (mant : Z) (exp10 : Z).

(** ExponentPart, when one is there: [e] or [E], an optional sign, digits. *)
Definition parse_exponent (l : list ascii) : Z :=
  match l with
  | c :: l' =>
      if Ascii.eqb c "e" || Ascii.eqb c "E" then
        let '(neg, l'') :=
          match l' with
          | "+"%char :: r => (false, r)
          | "-"%char :: r => (true, r)
          | _ => (false, l')
          end in
        match fst (span_digits l'') with
        | [] => 0
        | ds => if neg then - digits_value ds else digits_value ds
        end
      else 0
  | [] => 0
  end.

Definition parse_unsigned (neg : bool) (l : list ascii) : option StrDecimalLiteral :=
  if starts_with (chars "Infinity") l then Some (LitInfinity neg)
  else
    let '(ip, r1) := span_digits l in
    match r1 with
    | "."%char :: r2 =>
        let '(fp, r3) := span_digits r2 in
        match ip, fp with
        | [], [] => None
        | _, _ =>
            Some (LitDecimal neg (digits_value (ip ++ fp))
                    (parse_exponent r3 - Z.of_nat (length fp)))
        end
    | _ =>
        match ip with
        | [] => None
        | _ => Some (LitDecimal neg (digits_value ip) (parse_exponent r1))
        end
    end.

Definition parse_literal (l : list ascii) : option StrDecimalLiteral :=
  match l with
  | "+"%char :: r => parse_unsigned false r
  | "-"%char :: r => parse_unsigned true r
  | _ => parse_unsigned false l
  end.

Definition literal_value (d : StrDecimalLiteral) : number :=
  match d with
  | LitInfinity neg => S754_infinity neg
  | LitDecimal neg m e => of_decimal neg m e
  end.

(** [parseFloat] on a string. *)
Definition parseFloat_string (s : string) : number :=
  match parse_literal (trim_start (chars s)) with
  | Some d => literal_value d
  | None => js_NaN
  end.

Definition signChars (neg : bool) : list ascii :=
  if neg then ["-"%char] else [].

(** The decimal digits of [n >= 0], most significant first. *)
Fixpoint to_digits (fuel : nat) (n : Z) (acc : list ascii) : list ascii :=
  match fuel with
  | O => acc
  | S fuel' =>
      let acc' := digit_char (n mod 10) :: acc in
      if n <? 10 then acc' else to_digits fuel' (n / 10) acc'
  end.

Definition decimal_digits (n : Z) : list ascii :=
  to_digits (S (Z.to_nat (Z.log2 n))) n [].

(** The decimal text of an integer, as a cell of the file holds it. *)
Definition integerText (z : Z) : string :=
  of_chars (signChars (z <? 0) ++ decimal_digits (Z.abs z)).

Definition zeros (k : nat) : list ascii := repeat "0"%char k.

(** Pad on the left with zeros up to [k] digits. *)
Definition pad_left (k : nat) (ds : list ascii) : list ascii :=
  zeros (k - length ds) ++ ds.

Fixpoint drop_trailing_zeros_rev (r : list ascii) : list ascii :=
  match r with
  | c :: r' => if Ascii.eqb c "0" then drop_trailing_zeros_rev r' else r
  | [] => []
  end.

Definition drop_trailing_zeros (ds : list ascii) : list ascii :=
  rev (drop_trailing_zeros_rev (rev ds)).

(** Grouping separators, on the digits least significant first. *)
Fixpoint group_rev (r : list ascii) : list ascii :=
  match r with
  | a :: b :: c :: ((_ :: _) as r') => a :: b :: c :: ","%char :: group_rev r'
  | _ => r
  end.

Definition group_thousands (ds : list ascii) : list ascii :=
  rev (group_rev (rev ds)).

(** [s.replace(/[$,]/g, '')], [s.replace(/,/g, '')] and [s.replace('%', '')]. *)
Definition strip_currency (s : string) : string :=
  of_chars (List.filter (fun c => negb (Ascii.eqb c "$" || Ascii.eqb c ",")) (chars s)).

Definition strip_commas (s : string) : string :=
  of_chars (List.filter (fun c => negb (Ascii.eqb c ",")) (chars s)).

Fixpoint remove_first (x : ascii) (l : list ascii) : list ascii :=
  match l with
  | c :: l' => if Ascii.eqb c x then l' else c :: remove_first x l'
  | [] => []
  end.

Definition strip_percent (s : string) : string :=
  of_chars (remove_first "%"%char (chars s)).

(** *** Number::toString

    The digits [s], their count [k] and the position [n] of the decimal point
    are those of the standard: [k] is as small as possible with
    [s * 10 ^ (n - k)] reading back as [x]. *)

(** [num / den >= 10 ^ k]. *)
Definition ge_pow10 (num den k : Z) : bool :=
  if 0 <=? k then den * 10 ^ k <=? num else den <=? num * 10 ^ (- k).

Fixpoint adjust_down (fuel : nat) (num den n : Z) : Z :=
  match fuel with
  | O => n
  | S fuel' =>
      if ge_pow10 num den (n - 1) then n else adjust_down fuel' num den (n - 1)
  end.

Fixpoint adjust_up (fuel : nat) (num den n : Z) : Z :=
  match fuel with
  | O => n
  | S fuel' =>
      if ge_pow10 num den n then adjust_up fuel' num den (n + 1) else n
  end.

(** The [n] with [10 ^ (n - 1) <= num / den < 10 ^ n]. *)
Definition decimal_position (num den : Z) : Z :=
  let guess := (Z.log2 num - Z.log2 den) * 30103 / 100000 in
  adjust_up 4 num den (adjust_down 4 num den (guess + 1)).

Definition round_half_even (num den : Z) : Z :=
  let q := num / den in
  let r := num mod den in
  match 2 * r ?= den with
  | Lt => q
  | Gt => q + 1
  | Eq => if Z.even q then q else q + 1
  end.

(** The [k]-digit decimal nearest to [num / den], as [(s, n)]. *)
Definition nearest_digits (num den n k : Z) : Z * Z :=
  let t := n - k in
  let s :=
    if 0 <=? t then round_half_even num (den * 10 ^ t)
    else round_half_even (num * 10 ^ (- t)) den in
  if s =? 10 ^ k then (10 ^ (k - 1), n + 1) else (s, n).

Fixpoint shortest_digits (fuel : nat) (x : number) (num den n k : Z) : Z * Z * Z :=
  let '(s, n') := nearest_digits num den n k in
  match fuel with
  | O => (s, n', k)
  | S fuel' =>
      if SFeqb (of_decimal false s (n' - k)) (SFabs x) then (s, n', k)
      else shortest_digits fuel' x num den n (k + 1)
  end.

Definition Number_toString (x : number) : string :=
  match x with
  | S754_nan => "NaN"
  | S754_zero _ => "0"
  | S754_infinity s => if s then "-Infinity" else "Infinity"
  | S754_finite sg _ _ =>
      let '(num, den) := abs_ratio x in
      let '(s, n, k) := shortest_digits 16 x num den (decimal_position num den) 1 in
      let ds := decimal_digits s in
      let body :=
        if (k <=? n) && (n <=? 21) then ds ++ zeros (Z.to_nat (n - k))
        else if (0 <? n) && (n <=? 21) then
          take (Z.to_nat n) ds ++ "."%char :: drop (Z.to_nat n) ds
        else if (-6 <? n) && (n <=? 0) then
          "0"%char :: "."%char :: zeros (Z.to_nat (- n)) ++ ds
        else
          let e := n - 1 in
          let exponent :=
            "e"%char :: (if e <? 0 then "-"%char else "+"%char)
              :: decimal_digits (Z.abs e) in
          match ds with
          | d :: ((_ :: _) as rest) => d :: "."%char :: rest ++ exponent
          | _ => ds ++ exponent
          end in
      of_chars (if sg then "-"%char :: body else body)
  end.

(** *** Number.prototype.toFixed *)

Definition toFixed (x : number) (f : nat) : string :=
  match x with
  | S754_nan => "NaN"
  | _ =>
      if abs_ge_pow10 x 21 then Number_toString x
      else
        let neg := match x with S754_finite true _ _ => true | _ => false end in
        let ds := pad_left (S f) (decimal_digits (scaled_round x (Z.of_nat f))) in
        let a := take (length ds - f) ds in
        let b := drop (length ds - f) ds in
        let body := match f with O => a | _ => a ++ "."%char :: b end in
        of_chars (if neg then "-"%char :: body else body)
  end.

(** *** Number.prototype.toLocaleString

    Called without arguments, in the en-US convention the application is
    written for: grouping separators [","], at most three fraction digits,
    no trailing zeros. The engines format the shortest decimal that reads
    back as [x] (the digits of [Number::toString]), not the exact binary
    value, and round it half away from zero: [1.0005] gives ["1.001"] although
    the binary value is below the tie. *)

(** [|x|] as its shortest decimal [(s, e)], standing for [s * 10 ^ e]. *)
Definition shortest_decimal (x : number) : Z * Z :=
  let '(num, den) := abs_ratio x in
  let '(s, n, k) := shortest_digits 16 x num den (decimal_position num den) 1 in
  (s, n - k).

(** The shortest decimal of [|x|] in thousandths, ties away from zero. *)
Definition thousandths (x : number) : Z :=
  match x with
  | S754_finite _ _ _ =>
      let '(s, e) := shortest_decimal x in
      if 0 <=? e + 3 then s * 10 ^ (e + 3)
      else (2 * s + 10 ^ (- (e + 3))) / (2 * 10 ^ (- (e + 3)))
  | _ => 0
  end.

Definition toLocaleString (x : number) : string :=
  match x with
  | S754_nan => "NaN"
  | S754_infinity s => if s then "-∞" else "∞"
  | _ =>
      let n := thousandths x in
      let int_part := group_thousands (decimal_digits (n / 1000)) in
      let frac := drop_trailing_zeros (pad_left 3 (decimal_digits (n mod 1000))) in
      let body := match frac with [] => int_part | _ => int_part ++ "."%char :: frac end in
      of_chars (if sign_of x then "-"%char :: body else body)
  end.

End JSString.

Export JSString.

(** ** Values, exceptions and objects *)

(** The objects among the values: what a plain object inherits from
    [Object.prototype], which is [Object.prototype] itself (read through
    [__proto__]) and built-in functions, given by their names. *)
Inductive builtin :=
  | ObjectPrototype
  | BuiltinFunction (name : string).

(** The values of cells: the strings the parser yields, the numbers of the
    derived column, [undefined] for a property an object does not have, and
    the objects above for a property it inherits. *)
Inductive jsval :=
  | VUndefined
  | VString (s : string)
  | VNumber (x : number)
  | VObject (o : builtin).

(** ToBoolean. *)
Definition truthy (v : jsval) : bool :=
  match v with
  | VUndefined => false
  | VString s => negb (String.eqb s "")
  | VNumber x => num_truthy x
  | VObject _ => true
  end.

(** [v === ''] and [v !== undefined]. *)
Definition is_empty_string (v : jsval) : bool :=
  match v with VString s => String.eqb s "" | _ => false end.

Definition is_defined (v : jsval) : bool :=
  match v with VUndefined => false | _ => true end.

Definition is_number (v : jsval) : bool :=
  match v with VNumber _ => true | _ => false end.

(** The text of an object: ["[object Object]"] for [Object.prototype], and
    for a built-in function its source text, which the standard leaves to
    the engine within the form [function name() { [native code] }]; V8 and
    JavaScriptCore print it as here. *)
Definition builtin_text (o : builtin) : string :=
  match o with
  | ObjectPrototype => "[object Object]"
  | BuiltinFunction name => "function " +:+ name +:+ "() { [native code] }"
  end.

(** ToString. *)
Definition ToString (v : jsval) : string :=
  match v with
  | VUndefined => "undefined"
  | VString s => s
  | VNumber x => Number_toString x
  | VObject o => builtin_text o
  end.

Definition parseFloat (v : jsval) : number := parseFloat_string (ToString v).

(** [a || b] on numbers. *)
Definition num_or (a b : number) : number := if num_truthy a then a else b.

(** A computation that returns or throws. *)
Inductive result (A : Type) :=
  | Ok (a : A)
  | Throw (error : string).
Arguments Ok {A} a.
Arguments Throw {A} error.

Definition bind {A B} (r : result A) (k : A -> result B) : result B :=
  match r with
  | Ok a => k a
  | Throw e => Throw e
  end.

Notation "x <- r ;; k" := (bind r (fun x => k))
  (at level 100, r at next level, right associativity).

Fixpoint mapM {A B} (f : A -> result B) (l : list A) : result (list B) :=
  match l with
  | [] => Ok []
  | a :: l' => b <- f a ;; bs <- mapM f l' ;; Ok (b :: bs)
  end.

(** [v.toString()]: a method call, which throws on [undefined]. *)
Definition call_toString (v : jsval) : result string :=
  match v with
  | VUndefined => Throw "TypeError"
  | _ => Ok (ToString v)
  end.

(** A plain object is its list of own properties in the order they were
    created; its prototype is [Object.prototype], whose members it inherits.
    [Object.keys] lists the own keys: array indices first, in ascending
    order, then the other keys in creation order. *)
Module JSObject.

Definition obj (A : Type) : Type := list (string * A).

Definition array_index (k : string) : option Z :=
  match chars k with
  | [] => None
  | c :: rest =>
      if forallb is_digit (c :: rest)
         && (negb (Ascii.eqb c "0") || (length rest =? 0)%nat)
         && (digits_value (c :: rest) <=? 4294967294)
      then Some (digits_value (c :: rest))
      else None
  end.

Definition is_array_index (k : string) : bool :=
  match array_index k with Some _ => true | None => false end.

Fixpoint obj_get {A} (o : obj A) (k : string) : option A :=
  match o with
  | [] => None
  | (k', v) :: o' => if String.eqb k' k then Some v else obj_get o' k
  end.

(** Defining the own property [k], as an object literal [{ [k]: v }] and a
    spread [{...o}] do for each entry: an existing property keeps its place. *)
Fixpoint obj_set {A} (o : obj A) (k : string) (v : A) : obj A :=
  match o with
  | [] => [(k, v)]
  | (k', v') :: o' =>
      if String.eqb k' k then (k, v) :: o' else (k', v') :: obj_set o' k v
  end.

(** The function members of [Object.prototype], and what a plain object
    reads for a key it does not own: [__proto__] is an accessor that gives
    the prototype, [constructor] is the function [Object]. *)
Definition Object_prototype_methods : list string :=
  [ "hasOwnProperty"; "isPrototypeOf"; "propertyIsEnumerable";
    "toLocaleString"; "toString"; "valueOf";
    "__defineGetter__"; "__defineSetter__";
    "__lookupGetter__"; "__lookupSetter__" ].

Definition Object_prototype (k : string) : option builtin :=
  if String.eqb k "__proto__" then Some ObjectPrototype
  else if String.eqb k "constructor" then Some (BuiltinFunction "Object")
  else if existsb (String.eqb k) Object_prototype_methods
  then Some (BuiltinFunction k)
  else None.

(** The assignment [o[k] = v] on a plain object. An own property is
    overwritten in its place. Otherwise the key [__proto__] reaches the
    setter of [Object.prototype], which creates no property: it ignores a
    value that is no object, and makes an object the prototype of [o];
    every other key becomes a new own property. The result is the own
    properties of [o] after the assignment. *)
Definition obj_assign {A} (o : obj A) (k : string) (v : A) : obj A :=
  match obj_get o k with
  | Some _ => obj_set o k v
  | None => if String.eqb k "__proto__" then o else obj_set o k v
  end.

Definition index_le (a b : Z * string) : Prop := a.1 <= b.1.

Global Instance index_le_dec : RelDecision index_le.
Proof. intros a b. unfold index_le. apply _. Defined.

Definition index_keys (ks : list string) : list (Z * string) :=
  omap (fun k => match array_index k with Some i => Some (i, k) | None => None end) ks.

Definition Object_keys {A} (o : obj A) : list string :=
  let ks := map fst o in
  map snd (merge_sort index_le (index_keys ks))
  ++ List.filter (fun k => negb (is_array_index k)) ks.

(** [{...o}]. *)
Definition obj_spread {A} (o : obj A) : obj A :=
  fold_left
    (fun acc k => match obj_get o k with Some v => obj_set acc k v | None => acc end)
    (Object_keys o) [].

(** Own keys are distinct. *)
Definition obj_wf {A} (o : obj A) : Prop := NoDup (map fst o).

End JSObject.

Export JSObject.

(** [row[col]] on a plain object: the own property, or else the member of
    [Object.prototype] of that name, or else [undefined]. *)
Definition prop (row : obj jsval) (k : string) : jsval :=
  match obj_get row k with
  | Some v => v
  | None =>
      match Object_prototype k with
      | Some o => VObject o
      | None => VUndefined
      end
  end.

(** [names.includes(x)] and [new Set(names).has(x)]. *)
Definition includes (names : list string) (x : string) : bool :=
  existsb (String.eqb x) names.

Definition string_le (a b : string) : Prop := String.leb a b = true.

Global Instance string_le_dec : RelDecision string_le.
Proof. intros a b. unfold string_le. apply _. Defined.

(** [names.sort()]: ascending by code units. *)
Definition Array_sort (names : list string) : list string :=
  merge_sort string_le names.

(** ** The application *)

Module App.

Definition priorityColumns : list string :=
  [ "Suburb"; "State"; "Owner Occupier"; "Vacancy Rate"; "Growth (12MTHS)";
    "5-Year Sale Price Growth"; "10-Year Sale Price Growth"; "DOM";
    "Median Weekly Rent"; "Suburb $ Median"; "Rental Yield" ].

Definition percentageFields : list string :=
  [ "Growth (12MTHS)"; "Growth (10Y Ave)"; "Rental Yield"; "Vacancy Rate";
    "Owner Occupier"; "Social Housing"; "Market Absorption"; "IQR % Median";
    "Build. Approvals"; "Pop. Growth (5Y)";
    "SA2 1-Year Population Growth"; "SA2 3-Year Population Growth";
    "SA2 5-Year Population Growth"; "SA2 10-Year Population Growth";
    "SA3 1-Year Population Growth"; "SA3 3-Year Population Growth";
    "SA3 5-Year Population Growth"; "SA3 10-Year Population Growth";
    "3-Year Median Sale Price CAGR"; "5-Year Median Sale Price CAGR";
    "10-Year Median Sale Price CAGR"; "3-Year Sale Price Growth";
    "5-Year Sale Price Growth"; "10-Year Sale Price Growth";
    "12-Month Sale Price Growth" ].

Definition currencyFields : list string :=
  [ "Suburb $ Median"; "Median Income"; "Median Weekly Rent" ].

Definition numberFields : list string :=
  [ "Population"; "Property Count"; "Total Property Count";
    "SA2 Estimated Resident Population"; "Sales Volume"; "Build. Approvals" ].

(** The kind a column name is treated as, in the order [formatValue] and
    [getRawValue] test the tables. *)
Inductive FieldKind := Percentage | Currency | Count | Plain.

Definition classify (fieldName : string) : FieldKind :=
  if includes percentageFields fieldName then Percentage
  else if includes currencyFields fieldName then Currency
  else if includes numberFields fieldName then Count
  else Plain.

Definition calculateMedianWeeklyRent (row : obj jsval) : number :=
  let propertyPrice := num_or (parseFloat (prop row "Suburb $ Median")) (num_of_Z 0) in
  let rentalYield := num_or (parseFloat (prop row "Rental Yield")) (num_of_Z 0) in
  if num_gtb propertyPrice (num_of_Z 0) && num_gtb rentalYield (num_of_Z 0) then
    let annualRent := num_mul propertyPrice rentalYield in
    let weeklyRent := num_div annualRent (num_of_Z 52) in
    Math_round weeklyRent
  else num_of_Z 0.

Definition formatValue (value : jsval) (fieldName : string) : jsval :=
  if negb (truthy value) || is_empty_string value then VString ""
  else
    let numValue := parseFloat value in
    if isNaN numValue then value
    else if includes percentageFields fieldName then
      VString (toFixed (num_mul numValue (num_of_Z 100)) 2 +:+ "%")
    else if includes currencyFields fieldName then
      if String.eqb fieldName "Median Weekly Rent" then
        VString ("$" +:+ toLocaleString numValue)
      else VString ("$" +:+ toLocaleString numValue)
    else if includes numberFields fieldName then
      VString (toLocaleString numValue)
    else value.

(** [isNaN(n) ? 0 : n]. *)
Definition or_zero (n : number) : number :=
  if isNaN n then num_of_Z 0 else n.

Definition getRawValue (value : jsval) (fieldName originalColumn : string)
  : result jsval :=
  if negb (truthy value) || is_empty_string value then Ok (VString "")
  else if String.eqb originalColumn "Median Weekly Rent" then
    str <- call_toString value ;;
    let currencyStr := strip_currency str in
    let currencyNum := parseFloat_string currencyStr in
    Ok (VNumber (or_zero currencyNum))
  else if includes percentageFields originalColumn then
    str <- call_toString value ;;
    let percentStr := strip_percent str in
    let percentNum := parseFloat_string percentStr in
    Ok (VNumber (if isNaN percentNum then num_of_Z 0
                 else num_div percentNum (num_of_Z 100)))
  else if includes currencyFields originalColumn then
    str <- call_toString value ;;
    let currencyStr := strip_currency str in
    let currencyNum := parseFloat_string currencyStr in
    Ok (VNumber (or_zero currencyNum))
  else if includes numberFields originalColumn then
    str <- call_toString value ;;
    let numberStr := strip_commas str in
    let numberNum := parseFloat_string numberStr in
    Ok (VNumber (or_zero numberNum))
  else
    let numValue := parseFloat value in
    Ok (if isNaN numValue then value else VNumber numValue).

Definition sortHeaders (headers : list string) : list string :=
  let prioritySet := priorityColumns in
  let priority := List.filter (fun h => includes prioritySet h) headers in
  let others := List.filter (fun h => negb (includes prioritySet h)) headers in
  let sortedPriority := List.filter (fun col => includes priority col) priorityColumns in
  sortedPriority ++ Array_sort others.

(** [renames[col] || col], as the property key it is used for: the own
    entry unless it is empty; without an own entry, the member of
    [Object.prototype] called [col], an object, whose text becomes the key;
    or else [col]. *)
Definition renamed (renames : obj string) (col : string) : string :=
  match obj_get renames col with
  | Some name => if String.eqb name "" then col else name
  | None =>
      match Object_prototype col with
      | Some o => builtin_text o
      | None => col
      end
  end.

(** Whether the [__proto__] setter, handed [v], gives the object another
    prototype than [Object.prototype]. *)
Definition replaces_prototype (v : jsval) : bool :=
  match v with
  | VObject (BuiltinFunction _) => true
  | _ => false
  end.

Definition filterRow (columns : list string) (renames : obj string)
    (row : obj jsval) : obj jsval :=
  fold_left
    (fun filteredRow col =>
       if is_defined (prop row col) then
         let renamedCol := renamed renames col in
         let rawValue :=
           if String.eqb col "Median Weekly Rent" then prop row col
           else prop row col in
         obj_assign filteredRow renamedCol (formatValue rawValue col)
       else filteredRow)
    columns [].

(** The loop once more, with what [filterRow] leaves out: the prototype of
    the row it builds, and the assignment that fails. The module is strict
    code, in which an assignment throws when the prototype chain holds the
    key read-only; a built-in function does so for its own [name] and
    [length] (and [prototype], for [Object]) and for [arguments] and
    [caller], whose setter on [Function.prototype] throws. *)
Definition read_only (proto : builtin) (k : string) : bool :=
  match proto with
  | ObjectPrototype => false
  | BuiltinFunction name =>
      existsb (String.eqb k) ["length"; "name"; "arguments"; "caller"]
      || (String.eqb name "Object" && String.eqb k "prototype")
  end.

Definition assign_strict (o : obj jsval * builtin) (k : string) (v : jsval)
  : result (obj jsval * builtin) :=
  let '(own, proto) := o in
  match obj_get own k with
  | Some _ => Ok (obj_set own k v, proto)
  | None =>
      if String.eqb k "__proto__" then
        Ok (own, match v with VObject p => p | _ => proto end)
      else if read_only proto k then Throw "TypeError"
      else Ok (obj_set own k v, proto)
  end.

Definition filterRow_strict (columns : list string) (renames : obj string)
    (row : obj jsval) : result (obj jsval * builtin) :=
  fold_left
    (fun acc col =>
       filteredRow <- acc ;;
       if is_defined (prop row col) then
         assign_strict filteredRow (renamed renames col)
           (formatValue (prop row col) col)
       else Ok filteredRow)
    columns (Ok ([], ObjectPrototype)).

(** [filterRow] gives the own properties of the row the loop builds. They
    are all there is to the row as long as no step hands a function to the
    [__proto__] setter: then the row would get that function as its
    prototype, later reads and assignments on it would go through the
    function's properties, and the row is outside what [filterRow]
    describes. *)
Definition keeps_prototype (columns : list string) (renames : obj string)
    (row : obj jsval) : bool :=
  forallb
    (fun col =>
       negb (is_defined (prop row col)
             && String.eqb (renamed renames col) "__proto__"
             && replaces_prototype (formatValue (prop row col) col)))
    columns.

(** The table [generateTableData] hands to [setTableData]. *)
Definition generateTableData (data : list (obj jsval)) (columns : list string)
    (renames : obj string) : list (obj jsval) :=
  map (filterRow columns renames) data.

(** The data for which this is the whole story: every row keeps its
    prototype. Where a row does not, the call can also throw, the module
    being strict code: an assignment fails on a key that the function
    holds read-only, such as [name] and [length]. *)
Definition prototypes_kept (data : list (obj jsval)) (columns : list string)
    (renames : obj string) : Prop :=
  Forall (fun row => keeps_prototype columns renames row = true) data.

(** The state of the component, and the world around it. *)
Record AppState := {
  csvData : option (list (obj jsval));
  headers : list string;
  selectedColumns : list string;
  columnRenames : obj string;
  tableData : list (obj jsval);
  fileName : string
}.

Record World := {
  app : AppState;
  console_error : list (string * string)
}.

Record File := { file_name : string; file_text : string }.

(** What [Papa.parse] calls back with. It calls [complete(results)] with
    the rows it could read, [results.data], also for a malformed file, whose
    defects it lists in [results.errors]; it calls [error(error)] only when
    the file cannot be read. *)
Inductive PapaResult :=
  | PapaComplete (data : list (obj jsval)) (errors : list string)
  | PapaError (error : string).

Definition withCalculatedFields (row : obj jsval) : obj jsval :=
  obj_set (obj_spread row) "Median Weekly Rent"
    (VNumber (calculateMedianWeeklyRent row)).

(** [Object.keys(results.data[0] || {})]. *)
Definition csvHeaders_of (data : list (obj jsval)) : list string :=
  match data with
  | row :: _ => Object_keys row
  | [] => Object_keys ([] : obj jsval)
  end.

Definition uploadedHeaders (data : list (obj jsval)) : list string :=
  let csvHeaders := csvHeaders_of data in
  let allHeaders := csvHeaders ++ ["Median Weekly Rent"] in
  sortHeaders allHeaders.

Definition handleFileUpload (Papa_parse : File -> PapaResult) (w : World)
    (file : option File) : World :=
  match file with
  | None =>
      {| app := {| csvData := None; headers := []; selectedColumns := [];
                   columnRenames := []; tableData := []; fileName := "" |};
         console_error := console_error w |}
  | Some file =>
      let st := app w in
      let st1 := {| csvData := csvData st; headers := headers st;
                    selectedColumns := selectedColumns st;
                    columnRenames := columnRenames st;
                    tableData := tableData st;
                    fileName := file_name file |} in
      match Papa_parse file with
      | PapaComplete data _ =>
          let dataWithCalculatedFields := map withCalculatedFields data in
          let sortedHeaders := uploadedHeaders data in
          let defaultSelectedColumns :=
            List.filter (fun col => includes sortedHeaders col) priorityColumns in
          let initialRenames :=
            fold_left (fun acc header => obj_assign acc header header)
              sortedHeaders [] in
          {| app := {| csvData := Some dataWithCalculatedFields;
                       headers := sortedHeaders;
                       selectedColumns := defaultSelectedColumns;
                       columnRenames := initialRenames;
                       tableData :=
                         generateTableData dataWithCalculatedFields
                           defaultSelectedColumns initialRenames;
                       fileName := fileName st1 |};
             console_error := console_error w |}
      | PapaError error =>
          {| app := st1;
             console_error := console_error w ++ [("Error parsing CSV:", error)] |}
      end
  end.

(** The cell values [exportTableExcel] writes below the header row. *)
Definition originalColumn_of (columnRenames : obj string) (header : string) : string :=
  match List.find
          (fun key => match obj_get columnRenames key with
                      | Some name => String.eqb name header
                      | None => false
                      end)
          (Object_keys columnRenames) with
  | Some key => if String.eqb key "" then header else key
  | None => header
  end.

Definition excelRows (tableData : list (obj jsval)) (columnRenames : obj string)
  : result (list (list jsval)) :=
  match tableData with
  | [] => Ok []
  | first :: _ =>
      let tableHeaders := Object_keys first in
      mapM (fun row =>
              mapM (fun header =>
                      let originalColumn := originalColumn_of columnRenames header in
                      getRawValue (prop row header) header originalColumn)
                   tableHeaders)
           tableData
  end.

(** The selected columns that have a value in [row], in selected order, and
    the entry [filterRow] writes for one of them. *)
Definition presentColumns (row : obj jsval) (columns : list string) : list string :=
  List.filter (fun col => is_defined (prop row col)) columns.

Definition displayEntry (renames : obj string) (row : obj jsval) (col : string)
  : string * jsval :=
  (renamed renames col, formatValue (prop row col) col).

(** The selected columns whose entry the loop writes: a column displayed as
    [__proto__] has a value but no entry. *)
Definition writtenColumns (renames : obj string) (row : obj jsval)
    (columns : list string) : list string :=
  List.filter
    (fun col => is_defined (prop row col)
                && negb (String.eqb (renamed renames col) "__proto__"))
    columns.

(** The selected columns that write under the key [name] in [row]. *)
Definition writers (renames : obj string) (row : obj jsval) (name : string)
    (columns : list string) : list string :=
  List.filter
    (fun col => is_defined (prop row col) && String.eqb (renamed renames col) name)
    columns.

(** The text [getRawValue] parses for a column of each kind. *)
Definition strippedText (kind : FieldKind) (s : string) : string :=
  match kind with
  | Percentage => strip_percent s
  | Currency => strip_currency s
  | Count => strip_commas s
  | Plain => s
  end.

End App.

Export App.

Module SpecWords.

(** ** The derived field as the specification words it

    "Reads the two columns as numbers (missing or unparseable gives 0); if
    both are strictly positive, the weekly rent is price times yield over 52,
    rounded to the nearest integer; otherwise 0." A second definition, which
    follows these words and not the source; [calculateMedianWeeklyRent] is
    compared with it. *)
Definition readNumber (row : obj jsval) (key : string) : number :=
  match obj_get row key with
  | None => num_of_Z 0
  | Some v => if isNaN (parseFloat v) then num_of_Z 0 else parseFloat v
  end.

Definition computeWeeklyRent (row : obj jsval) : number :=
  let price := readNumber row "Suburb $ Median" in
  let yield := readNumber row "Rental Yield" in
  if num_gtb price (num_of_Z 0) && num_gtb yield (num_of_Z 0)
  then Math_round (num_div (num_mul price yield) (num_of_Z 52))
  else num_of_Z 0.

End SpecWords.

Export SpecWords.

(** ** Sample inputs *)

(** A row without a value for the column "valueOf", a selection that reads
    it nevertheless, from the prototype, and a rename map that shows it as
    [__proto__]. *)
Definition namedRow : obj jsval := [("name", VString "Kew")].

Definition namedColumns : list string := ["valueOf"; "name"].

Definition namedRenames : obj string :=
  [("name", "name"); ("valueOf", "__proto__")].

Definition rent_row (price yield : string) : obj jsval :=
  [("Suburb $ Median", VString price); ("Rental Yield", VString yield)].

Definition zero_rent_row : obj jsval := rent_row "0" "0.04".

Definition emptyState : AppState :=
  {| csvData := None; headers := []; selectedColumns := [];
     columnRenames := []; tableData := []; fileName := "" |}.

(** A file that already has a "Median Weekly Rent" column of its own. *)
Definition rentCsv : list (obj jsval) :=
  [[("Suburb", VString "Kew"); ("Median Weekly Rent", VString "450");
    ("Agent", VString "Ray")]].

Definition rentFile : File :=
  {| file_name := "rent.csv"; file_text := "Suburb,Median Weekly Rent,Agent" |}.

(** Two selected columns renamed to the same display name; the second row is
    ragged and has no value for the later column. *)
Definition abRows : list (obj jsval) :=
  [[("A", VString "1"); ("B", VString "2")]; [("A", VString "3")]].

Definition abRow : obj jsval := [("A", VString "1"); ("B", VString "2")].


Definition abColumns : list string := ["A"; "B"].

Definition abRenames : obj string := [("A", "X"); ("B", "X")].

(** The first column renamed to [__proto__]. *)
Definition protoRenames : obj string := [("A", "__proto__"); ("B", "B")].

(** A file with a column called like a method every object inherits; the
    second row is ragged and has no value of its own for it. *)
Definition methodRows : list (obj jsval) :=
  [[("Suburb", VString "Kew"); ("valueOf", VString "1")];
   [("Suburb", VString "Box Hill")]].

Definition methodRenames : obj string :=
  [("Suburb", "Suburb"); ("valueOf", "valueOf")].





Definition brokenFile : File :=
  {| file_name := "new.csv"; file_text := "" |}.

Definition failingParser (_ : File) : PapaResult := PapaError "NotReadableError".

(** A malformed file: its second line has too few fields. The parser
    delivers both rows and lists the defect. *)
Definition newline : string := String (ascii_of_nat 10) EmptyString.

Definition raggedFile : File :=
  {| file_name := "ragged.csv";
     file_text := "A,B" +:+ newline +:+ "1,2" +:+ newline +:+ "3" |}.

Definition raggedParser (_ : File) : PapaResult :=
  PapaComplete abRows ["TooFewFields"].

(** ** The handlers of the column controls, and the session *)

Module Session.

Definition with_selectedColumns (st : AppState) (columns : list string) : AppState :=
  {| csvData := csvData st; headers := headers st; selectedColumns := columns;
     columnRenames := columnRenames st; tableData := tableData st;
     fileName := fileName st |}.

Definition with_columnRenames (st : AppState) (renames : obj string) : AppState :=
  {| csvData := csvData st; headers := headers st;
     selectedColumns := selectedColumns st; columnRenames := renames;
     tableData := tableData st; fileName := fileName st |}.

Definition with_tableData (st : AppState) (table : list (obj jsval)) : AppState :=
  {| csvData := csvData st; headers := headers st;
     selectedColumns := selectedColumns st; columnRenames := columnRenames st;
     tableData := table; fileName := fileName st |}.

(** [generateTableData(csvData, columns, renames)] as the handlers call it:
    while no file is loaded [csvData] is [null] and [data.map] throws, after
    the state updates the handler has already made. A handler returns the
    state it leaves and the exception, if any. With a file loaded this
    describes the call for data whose rows keep their prototype under
    [columns] and [renames] ([prototypes_kept]); beyond that the loop can
    throw as well, as [filterRow_strict] has it. *)
Definition regenerate (st : AppState) (columns : list string) (renames : obj string)
  : AppState * option string :=
  match csvData st with
  | Some data => (with_tableData st (generateTableData data columns renames), None)
  | None => (st, Some "TypeError")
  end.

Definition handleColumnToggle (st : AppState) (column : string)
  : AppState * option string :=
  let newSelectedColumns :=
    if includes (selectedColumns st) column
    then List.filter (fun col => negb (String.eqb col column)) (selectedColumns st)
    else selectedColumns st ++ [column] in
  regenerate (with_selectedColumns st newSelectedColumns)
    newSelectedColumns (columnRenames st).

Definition handleColumnRename (st : AppState) (originalName newName : string)
  : AppState * option string :=
  let newRenames := obj_set (obj_spread (columnRenames st)) originalName newName in
  regenerate (with_columnRenames st newRenames) (selectedColumns st) newRenames.

(** [items.splice(i, 1)]: what is left, and the removed elements. *)
Definition splice_remove {A} (items : list A) (i : nat) : list A * list A :=
  (take i items ++ drop (S i) items, take 1 (drop i items)).

(** [items.splice(i, 0, x)]; an index past the end appends. *)
Definition splice_insert {A} (items : list A) (i : nat) (x : A) : list A :=
  take i items ++ x :: drop i items.

(** [handleDragEnd(result)], with [result.source.index] and the index of
    [result.destination], if there is one. For a source index outside the
    selection the code inserts [undefined], which is no column name: the
    result is [None] then. The drag library reports indices of rendered
    items only. *)
Definition handleDragEnd (st : AppState) (source : nat) (destination : option nat)
  : option (AppState * option string) :=
  match destination with
  | None => Some (st, None)
  | Some index =>
      let '(items, removed) := splice_remove (selectedColumns st) source in
      match removed with
      | reorderedItem :: _ =>
          let items' := splice_insert items index reorderedItem in
          Some (regenerate (with_selectedColumns st items') items' (columnRenames st))
      | [] => None
      end
  end.

(** What the user can do to the state: upload a file or reset, tick a check
    box, edit a rename field, drag a selected column. The two export
    buttons write a file and leave the state as it is; they are no events
    here. *)
Inductive Event :=
  | EvUpload (file : option File)
  | EvToggle (column : string)
  | EvRename (originalName newName : string)
  | EvDragEnd (source : nat) (destination : option nat).

(** The controls the rendered page offers in a state: the upload card while
    [csvData] is [null] (a cancelled file dialog calls the handler without a
    file), the reset button with the preview while the table has rows, a
    check box per header and a rename field and drag handle per selected
    column while [csvData] is set. *)
Definition offered (st : AppState) (ev : Event) : Prop :=
  match ev with
  | EvUpload (Some _) => csvData st = None
  | EvUpload None => csvData st = None \/ tableData st <> []
  | EvToggle column => csvData st <> None /\ column ∈ headers st
  | EvRename originalName _ =>
      csvData st <> None /\ originalName ∈ selectedColumns st
  | EvDragEnd source destination =>
      csvData st <> None
      /\ (source < length (selectedColumns st))%nat
      /\ match destination with
         | Some index => (index < length (selectedColumns st))%nat
         | None => True
         end
  end.

Definition in_world (w : World) (r : AppState * option string)
  : World * option string :=
  ({| app := r.1; console_error := console_error w |}, r.2).

(** One event, the parser calling back before the next one. *)
Definition handle (Papa_parse : File -> PapaResult) (w : World) (ev : Event)
  : option (World * option string) :=
  match ev with
  | EvUpload file => Some (handleFileUpload Papa_parse w file, None)
  | EvToggle column => Some (in_world w (handleColumnToggle (app w) column))
  | EvRename originalName newName =>
      Some (in_world w (handleColumnRename (app w) originalName newName))
  | EvDragEnd source destination =>
      match handleDragEnd (app w) source destination with
      | Some r => Some (in_world w r)
      | None => None
      end
  end.

Definition initialWorld : World :=
  {| app := {| csvData := None; headers := []; selectedColumns := [];
               columnRenames := []; tableData := []; fileName := "" |};
     console_error := [] |}.

(** The worlds a session can be in, and the runs from one world to another. *)
Inductive run (Papa_parse : File -> PapaResult) : World -> World -> Prop :=
  | run_refl w : run Papa_parse w w
  | run_step w1 w2 w3 ev exn :
      run Papa_parse w1 w2 ->
      offered (app w2) ev ->
      handle Papa_parse w2 ev = Some (w3, exn) ->
      run Papa_parse w1 w3.

Definition reachable (Papa_parse : File -> PapaResult) (w : World) : Prop :=
  run Papa_parse initialWorld w.

(** A parser whose rows hold text, as the rows of [Papa.parse] do, under
    headers none of which is called like a member of [Object.prototype]. *)
Definition parses_text (Papa_parse : File -> PapaResult) : Prop :=
  forall file data errors,
    Papa_parse file = PapaComplete data errors ->
    Forall (fun h => Object_prototype h = None) (csvHeaders_of data)
    /\ Forall (fun row => Forall (fun kv => exists s, kv.2 = VString s) row) data.

(** A state whose headers are no members of [Object.prototype] and whose
    stored cells are no functions. *)
Definition text_data (st : AppState) : Prop :=
  Forall (fun h => Object_prototype h = None) (headers st)
  /\ forall data row k v,
       csvData st = Some data -> row ∈ data -> obj_get row k = Some v ->
       replaces_prototype v = false.

(** What holds of the state between events. *)
Definition consistent (st : AppState) : Prop :=
  NoDup (selectedColumns st)
  /\ (forall col, col ∈ selectedColumns st -> col ∈ headers st)
  /\ match csvData st with
     | Some data =>
         tableData st
         = generateTableData data (selectedColumns st) (columnRenames st)
         /\ "Median Weekly Rent" ∈ headers st
     | None => headers st = [] /\ tableData st = []
     end.

End Session.

Export Session.

(** ** Notions the further properties are stated with *)

(** The selection after a check box is clicked. *)
Definition toggled (selected : list string) (column : string) : list string :=
  if includes selected column
  then List.filter (fun col => negb (String.eqb col column)) selected
  else selected ++ [column].

(** A rename map in which every entry is the key itself. *)
Definition identityRenames (renames : obj string) : Prop :=
  forall k name, obj_get renames k = Some name -> name = k.

(** Zero, a positive finite number or [+∞]. *)
Definition nonnegative (x : number) : Prop :=
  isNaN x = false /\ sign_of x = false.

(** [Object.keys(tableData[0])], the header row of both exports. *)
Definition tableHeaders (table : list (obj jsval)) : list string :=
  match table with
  | first :: _ => Object_keys first
  | [] => []
  end.

(** The columns of an export right after an upload: the selected columns the
    first stored row has a value for. *)
Definition exportColumns (data : list (obj jsval)) (selected : list string)
  : list string :=
  match data with
  | first :: _ => presentColumns (withCalculatedFields first) selected
  | [] => []
  end.

(** The state an upload leaves. *)
Definition uploaded (Papa_parse : File -> PapaResult) (w : World) (file : File)
  : AppState :=
  app (handleFileUpload Papa_parse w (Some file)).

(** ** More sample inputs *)

Definition rentParser (_ : File) : PapaResult := PapaComplete rentCsv [].

Definition rentWorld : World :=
  handleFileUpload rentParser initialWorld (Some rentFile).

Definition rentRows : list (obj jsval) := map withCalculatedFields rentCsv.

Definition emptyParser (_ : File) : PapaResult := PapaComplete [] [].

Definition uniqueRenames : obj string :=
  [("Suburb", "Place"); ("State", "State"); ("Population", "People")].

(** * Properties *)

(** ** Membership in the classification tables *)

Lemma includes_true_iff (names : list string) (x : string) :
  includes names x = true <-> x ∈ names.
Proof.
  unfold includes. rewrite existsb_exists. split.
  - intros (y & Hin & Heq). apply String.eqb_eq in Heq. subst y.
    by apply list_elem_of_In.
  - intros Hin. exists x. split; [by apply list_elem_of_In | apply String.eqb_refl].
Qed.

Lemma includes_false_iff (names : list string) (x : string) :
  includes names x = false <-> x ∉ names.
Proof.
  rewrite <- includes_true_iff. destruct (includes names x); intuition congruence.
Qed.

Lemma classify_Percentage (f : string) :
  classify f = Percentage <-> includes percentageFields f = true.
Proof.
  unfold classify. destruct (includes percentageFields f); [done |].
  destruct (includes currencyFields f); [done |].
  destruct (includes numberFields f); done.
Qed.

Lemma classify_Currency (f : string) :
  classify f = Currency <->
  includes percentageFields f = false /\ includes currencyFields f = true.
Proof.
  unfold classify. destruct (includes percentageFields f); [intuition congruence |].
  destruct (includes currencyFields f); [intuition congruence |].
  destruct (includes numberFields f); intuition congruence.
Qed.

Lemma classify_Count (f : string) :
  classify f = Count <->
  includes percentageFields f = false /\ includes currencyFields f = false
  /\ includes numberFields f = true.
Proof.
  unfold classify. destruct (includes percentageFields f); [intuition congruence |].
  destruct (includes currencyFields f); [intuition congruence |].
  destruct (includes numberFields f); intuition congruence.
Qed.

Lemma parseFloat_empty : parseFloat_string "" = js_NaN.
Proof. reflexivity. Qed.

Lemma truthy_string (s : string) : truthy (VString s) = negb (is_empty_string (VString s)).
Proof. reflexivity. Qed.

(** A string that parses as a number is not empty, so it passes the guard at
    the head of [formatValue] and [getRawValue]. *)
Lemma numeric_string_passes_guard (v : string) :
  isNaN (parseFloat_string v) = false ->
  negb (truthy (VString v)) || is_empty_string (VString v) = false.
Proof.
  intros Hnum. simpl. destruct (String.eqb_spec v "") as [-> | _]; [| done].
  rewrite parseFloat_empty in Hnum. discriminate.
Qed.

(** ** Formatting *)

(** C1. For every raw string [v] that parses as a decimal number, formatting
    it for a Percentage column yields the parsed number times 100, fixed to
    two decimal places, followed by the percent sign. *)
Theorem formatValue_percentage (v fieldName : string) :
  classify fieldName = Percentage ->
  isNaN (parseFloat_string v) = false ->
  formatValue (VString v) fieldName
  = VString (toFixed (num_mul (parseFloat_string v) (num_of_Z 100)) 2 +:+ "%").
Proof.
  intros Hkind Hnum. apply classify_Percentage in Hkind.
  unfold formatValue. rewrite (numeric_string_passes_guard v Hnum).
  unfold parseFloat, ToString. by rewrite Hnum, Hkind.
Qed.

Lemma formatValue_percentage_witness :
  classify "Rental Yield" = Percentage
  /\ isNaN (parseFloat_string "0.25") = false
  /\ formatValue (VString "0.25") "Rental Yield" = VString "25.00%".
Proof.
  split; [reflexivity |]. split; [reflexivity |].
  refine (eq_trans (formatValue_percentage "0.25" "Rental Yield" _ _) _);
    vm_compute; reflexivity.
Defined.

(** ** The derived weekly rent *)

Lemma num_gtb_zero_left (s : bool) (y : number) :
  num_gtb (S754_zero s) y = num_gtb (num_of_Z 0) y.
Proof. by destruct y. Qed.

(** An inherited object does not read as a number. *)
Lemma parseFloat_object (o : builtin) : parseFloat (VObject o) = js_NaN.
Proof. by destruct o. Qed.

Lemma prop_own (row : obj jsval) (k : string) (v : jsval) :
  obj_get row k = Some v -> prop row k = v.
Proof. unfold prop. by intros ->. Qed.

Lemma prop_not_inherited (row : obj jsval) (k : string) :
  Object_prototype k = None ->
  prop row k = match obj_get row k with Some v => v | None => VUndefined end.
Proof. unfold prop. by intros ->. Qed.

Lemma readNumber_or (row : obj jsval) (key : string) :
  num_gtb (num_or (parseFloat (prop row key)) (num_of_Z 0)) (num_of_Z 0)
  = num_gtb (readNumber row key) (num_of_Z 0)
  /\ (num_gtb (readNumber row key) (num_of_Z 0) = true ->
      num_or (parseFloat (prop row key)) (num_of_Z 0) = readNumber row key).
Proof.
  unfold readNumber, prop, num_or.
  destruct (obj_get row key) as [v |].
  - destruct (parseFloat v) as [s | s | | s m e]; simpl; split; try done.
  - destruct (Object_prototype key) as [o |]; [| by split].
    by rewrite parseFloat_object.
Qed.

(** C4. [calculateMedianWeeklyRent] reads the two columns as numbers, a
    missing or unparseable value counting as 0; when both are strictly
    positive it returns the product over 52 rounded to the nearest integer,
    otherwise 0. Price 650000 at yield 0.04 gives 500; price 0 gives 0. *)
Theorem calculateMedianWeeklyRent_spec :
  (forall row, calculateMedianWeeklyRent row = computeWeeklyRent row)
  /\ calculateMedianWeeklyRent (rent_row "650000" "0.04") = num_of_Z 500
  /\ calculateMedianWeeklyRent (rent_row "0" "0.04") = num_of_Z 0
  /\ calculateMedianWeeklyRent [] = num_of_Z 0
  /\ calculateMedianWeeklyRent (rent_row "n/a" "0.04") = num_of_Z 0.
Proof.
  split; [| by vm_compute].
  intros row. unfold calculateMedianWeeklyRent, computeWeeklyRent.
  destruct (readNumber_or row "Suburb $ Median") as [Hp Hp'].
  destruct (readNumber_or row "Rental Yield") as [Hy Hy'].
  rewrite Hp, Hy.
  destruct (num_gtb (readNumber row "Suburb $ Median") (num_of_Z 0)); [| done].
  destruct (num_gtb (readNumber row "Rental Yield") (num_of_Z 0)); [| done].
  simpl. by rewrite Hp', Hy'.
Qed.

(** ** Falsy values *)

Lemma falsy_guard (value : jsval) :
  truthy value = false -> negb (truthy value) || is_empty_string value = true.
Proof. by intros ->. Qed.

(** C10. A falsy raw value (the empty string, the number 0, also [-0], [NaN]
    and [undefined]) formats to the empty string for every column, and the
    export cell computed from it is the empty string, not a number. A computed
    weekly rent of 0 is shown and exported as an empty cell. *)
Theorem falsy_value_is_empty_cell (value : jsval) (fieldName header originalColumn : string) :
  truthy value = false ->
  formatValue value fieldName = VString ""
  /\ getRawValue value header originalColumn = Ok (VString "")
  /\ getRawValue (formatValue value fieldName) header originalColumn = Ok (VString "")
  /\ truthy (VString "") = false
  /\ truthy (VNumber (num_of_Z 0)) = false
  /\ calculateMedianWeeklyRent zero_rent_row = num_of_Z 0
  /\ generateTableData [withCalculatedFields zero_rent_row] ["Median Weekly Rent"] []
     = [[("Median Weekly Rent", VString "")]]
  /\ excelRows [[("Median Weekly Rent", VString "")]] []
     = Ok [[VString ""]].
Proof.
  intros Hfalsy.
  assert (Hfmt : formatValue value fieldName = VString "").
  { unfold formatValue. by rewrite (falsy_guard value Hfalsy). }
  split; [exact Hfmt |]. rewrite Hfmt.
  split; [unfold getRawValue; by rewrite (falsy_guard value Hfalsy) |].
  repeat split; by vm_compute.
Qed.

Lemma falsy_value_is_empty_cell_witness :
  truthy (VNumber (num_of_Z 0)) = false
  /\ formatValue (VNumber (num_of_Z 0)) "Median Weekly Rent" = VString ""
  /\ getRawValue (formatValue (VNumber (num_of_Z 0)) "Median Weekly Rent")
       "Median Weekly Rent" "Median Weekly Rent" = Ok (VString "").
Proof.
  pose proof (falsy_value_is_empty_cell (VNumber (num_of_Z 0))
                "Median Weekly Rent" "Median Weekly Rent" "Median Weekly Rent"
                eq_refl) as (H1 & _ & H3 & _).
  split; [reflexivity |]. split; [exact H1 | exact H3].
Defined.

(** ** Export values *)

Lemma call_toString_truthy (value : jsval) :
  truthy value = true -> call_toString value = Ok (ToString value).
Proof. by destruct value. Qed.

Lemma truthy_not_empty (value : jsval) :
  truthy value = true -> negb (truthy value) || is_empty_string value = false.
Proof.
  intros Ht. rewrite Ht. destruct value as [| s | x | o]; try done.
  simpl in *. by destruct (String.eqb s "").
Qed.

Lemma or_zero_NaN (n : number) : isNaN n = true -> or_zero n = num_of_Z 0.
Proof. unfold or_zero. by intros ->. Qed.

(** C6, as the code has it. [getRawValue] never throws. For a falsy display
    value (the empty string) it returns the empty string whatever the column.
    For a truthy display value and a Percentage, Currency or Count column it
    returns a number: the stripped text of the value parsed, over 100 for a
    Percentage column, and 0 when the stripped text does not parse. For a
    truthy value of a Plain column it returns the parsed number when the
    value parses, and the value itself when it does not. *)
Theorem getRawValue_total (value : jsval) (header originalColumn : string) :
  exists r,
    getRawValue value header originalColumn = Ok r
    /\ (truthy value = false -> r = VString "")
    /\ (truthy value = true -> classify originalColumn <> Plain ->
        let parsed :=
          parseFloat_string
            (strippedText (classify originalColumn) (ToString value)) in
        r = VNumber (if isNaN parsed then num_of_Z 0
                     else match classify originalColumn with
                          | Percentage => num_div parsed (num_of_Z 100)
                          | _ => parsed
                          end))
    /\ (truthy value = true -> classify originalColumn = Plain ->
        r = if isNaN (parseFloat value) then value
            else VNumber (parseFloat value)).
Proof.
  unfold getRawValue.
  assert (Hcases : truthy value = false \/ truthy value = true)
    by (destruct (truthy value); auto).
  destruct Hcases as [Ht | Ht].
  { exists (VString ""). rewrite (falsy_guard value Ht).
    repeat split; try done; intros Ht'; congruence. }
  rewrite (truthy_not_empty value Ht), (call_toString_truthy value Ht).
  cbn [bind].
  destruct (String.eqb_spec originalColumn "Median Weekly Rent") as [-> | Hne].
  { change (classify "Median Weekly Rent") with Currency.
    eexists. split; [reflexivity |]. split; [congruence |].
    split; [| intros _ Hplain; discriminate Hplain].
    intros _ _. cbn [strippedText]. done. }
  unfold classify.
  destruct (includes percentageFields originalColumn).
  { eexists. split; [reflexivity |]. split; [congruence |].
    split; [| intros _ Hplain; discriminate Hplain].
    intros _ _. cbn [strippedText]. done. }
  destruct (includes currencyFields originalColumn).
  { eexists. split; [reflexivity |]. split; [congruence |].
    split; [| intros _ Hplain; discriminate Hplain].
    intros _ _. cbn [strippedText]. done. }
  destruct (includes numberFields originalColumn).
  { eexists. split; [reflexivity |]. split; [congruence |].
    split; [| intros _ Hplain; discriminate Hplain].
    intros _ _. cbn [strippedText]. done. }
  eexists. split; [reflexivity |]. split; [congruence |].
  split; [intros _ Hplain; by destruct Hplain |]. done.
Qed.

Lemma getRawValue_total_witness :
  truthy (VString "n/a") = true
  /\ classify "Rental Yield" <> Plain
  /\ getRawValue (VString "n/a") "Yield" "Rental Yield" = Ok (VNumber (num_of_Z 0))
  /\ classify "Agent" = Plain
  /\ getRawValue (VString "n/a") "Agent" "Agent" = Ok (VString "n/a").
Proof.
  destruct (getRawValue_total (VString "n/a") "Yield" "Rental Yield")
    as (r & Hr & _ & Hnum & _).
  destruct (getRawValue_total (VString "n/a") "Agent" "Agent")
    as (r' & Hr' & _ & _ & Hplain).
  split; [reflexivity |]. split; [discriminate |].
  split; [| split; [reflexivity |]].
  - rewrite Hr. f_equal. apply (Hnum eq_refl). discriminate.
  - rewrite Hr'. f_equal. apply (Hplain eq_refl eq_refl).
Defined.

(** C6 as stated fails on the empty display value: for the Percentage column
    "Rental Yield" the result is the empty string, not a number. *)
Lemma getRawValue_empty_not_number :
  classify "Rental Yield" = Percentage
  /\ getRawValue (VString "") "Rental Yield" "Rental Yield" = Ok (VString "")
  /\ ~ (exists x, getRawValue (VString "") "Rental Yield" "Rental Yield"
                  = Ok (VNumber x)).
Proof.
  split; [reflexivity |]. split; [reflexivity |].
  intros [x Hx]. vm_compute in Hx. discriminate.
Qed.

(** ** Upload *)

(** C7, as the code has it. The parser reports an error only for a file
    that cannot be read: the error is then appended to the error console, and
    the parsed rows, headers, selected columns, rename map and display table
    keep their values, while the file name has already been set to the name
    of the uploaded file. A malformed file is no such failure: the parser
    completes with the rows it could read and lists the defects, which the
    application never looks at; nothing is reported, and the whole state is
    replaced from these rows, exactly as a clean parse of the same rows would
    replace it, whatever the state was before. *)
Theorem handleFileUpload_parse_error
    (Papa_parse : File -> PapaResult) (w : World) (file : File) :
  let w' := handleFileUpload Papa_parse w (Some file) in
  (forall error,
     Papa_parse file = PapaError error ->
     console_error w' = console_error w ++ [("Error parsing CSV:", error)]
     /\ csvData (app w') = csvData (app w)
     /\ headers (app w') = headers (app w)
     /\ selectedColumns (app w') = selectedColumns (app w)
     /\ columnRenames (app w') = columnRenames (app w)
     /\ tableData (app w') = tableData (app w)
     /\ fileName (app w') = file_name file)
  /\ (forall data errors,
        Papa_parse file = PapaComplete data errors ->
        console_error w' = console_error w
        /\ csvData (app w') = Some (map withCalculatedFields data)
        /\ headers (app w') = uploadedHeaders data
        /\ length (tableData (app w')) = length data
        /\ fileName (app w') = file_name file
        /\ forall (clean : File -> PapaResult) (w2 : World),
             clean file = PapaComplete data [] ->
             app (handleFileUpload clean w2 (Some file)) = app w').
Proof.
  cbv zeta. split.
  - intros error Herr. unfold handleFileUpload. rewrite Herr. simpl.
    by repeat split.
  - intros data errors Hparse. unfold handleFileUpload. rewrite Hparse.
    cbn [app console_error csvData headers tableData fileName].
    split; [done |]. split; [done |]. split; [done |].
    split; [unfold generateTableData; by rewrite !length_map |].
    split; [done |]. intros clean w2 Hclean. by rewrite Hclean.
Qed.

Lemma handleFileUpload_parse_error_witness :
  failingParser brokenFile = PapaError "NotReadableError"
  /\ console_error (handleFileUpload failingParser initialWorld (Some brokenFile))
     = [("Error parsing CSV:", "NotReadableError")]
  /\ csvData (app (handleFileUpload failingParser initialWorld (Some brokenFile)))
     = None
  /\ raggedParser raggedFile = PapaComplete abRows ["TooFewFields"]
  /\ console_error (handleFileUpload raggedParser initialWorld (Some raggedFile)) = []
  /\ length (tableData (app (handleFileUpload raggedParser initialWorld
                              (Some raggedFile)))) = 2%nat.
Proof.
  pose proof (proj1 (handleFileUpload_parse_error failingParser initialWorld brokenFile)
                "NotReadableError" eq_refl) as (H1 & H6 & _).
  pose proof (proj2 (handleFileUpload_parse_error raggedParser initialWorld raggedFile)
                abRows ["TooFewFields"] eq_refl) as (H7 & _ & _ & H8 & _).
  split; [reflexivity |]. split; [exact H1 |]. split; [exact H6 |].
  split; [reflexivity |]. split; [exact H7 | exact H8].
Defined.

(** C7 as stated fails twice over, in a fresh session, where the page offers
    the upload. A malformed file is ingested: the parser completes with the
    rows it could read, nothing is reported, and the state is replaced. And
    after a file that cannot be read, the state differs from the one before
    in the file name. *)
Lemma malformed_upload_is_ingested :
  offered (app initialWorld) (EvUpload (Some raggedFile))
  /\ offered (app initialWorld) (EvUpload (Some brokenFile))
  /\ raggedParser raggedFile = PapaComplete abRows ["TooFewFields"]
  /\ console_error (handleFileUpload raggedParser initialWorld (Some raggedFile)) = []
  /\ csvData (app (handleFileUpload raggedParser initialWorld (Some raggedFile)))
     = Some (map withCalculatedFields abRows)
  /\ csvData (app initialWorld) = None
  /\ failingParser brokenFile = PapaError "NotReadableError"
  /\ fileName (app initialWorld) = ""
  /\ fileName (app (handleFileUpload failingParser initialWorld (Some brokenFile)))
     = "new.csv"
  /\ app (handleFileUpload failingParser initialWorld (Some brokenFile))
     <> app initialWorld.
Proof.
  repeat (split; [reflexivity |]).
  intros Heq. apply (f_equal fileName) in Heq. vm_compute in Heq. discriminate.
Qed.

(** ** Header order *)

Lemma ascii_compare_spec (a b : ascii) :
  CompareSpec (a = b) (N_of_ascii a < N_of_ascii b)%N (N_of_ascii b < N_of_ascii a)%N
    (Ascii.compare a b).
Proof.
  unfold Ascii.compare. destruct (N.compare_spec (N_of_ascii a) (N_of_ascii b)) as [Heq | |];
    constructor; try done.
  rewrite <- (ascii_N_embedding a), <- (ascii_N_embedding b). by rewrite Heq.
Qed.

Lemma string_leb_trans (s1 s2 s3 : string) :
  String.leb s1 s2 = true -> String.leb s2 s3 = true -> String.leb s1 s3 = true.
Proof.
  unfold String.leb. revert s2 s3.
  induction s1 as [| a s1 IH]; intros [| b s2] [| c s3]; simpl; try done.
  destruct (ascii_compare_spec a b) as [-> | Hab | Hab]; try done.
  - destruct (ascii_compare_spec b c) as [-> | Hbc | Hbc]; try done. apply IH.
  - intros _.
    destruct (ascii_compare_spec b c) as [-> | Hbc | Hbc]; try done.
    + destruct (ascii_compare_spec a c) as [-> | Hac | Hac]; try done; lia.
    + destruct (ascii_compare_spec a c) as [-> | Hac | Hac]; try done; lia.
Qed.

Global Instance string_le_trans : Transitive string_le.
Proof. intros s1 s2 s3. apply string_leb_trans. Qed.

Global Instance string_le_total : Total string_le.
Proof. intros s1 s2. apply String.leb_total. Qed.

Lemma includes_filter (f : string -> bool) (names : list string) (x : string) :
  includes (List.filter f names) x = includes names x && f x.
Proof.
  unfold includes. induction names as [| a names IH]; [done |]. simpl.
  destruct (f a) eqn:Hfa; simpl; rewrite IH.
  - destruct (String.eqb_spec x a) as [-> | _]; [by rewrite Hfa | done].
  - destruct (String.eqb_spec x a) as [-> | _]; [| done].
    rewrite Hfa. by rewrite andb_false_r.
Qed.

(** The priority columns a header list holds are selected by the list
    itself: going through the intermediate [priority] array changes nothing. *)
Lemma sortedPriority_eq (headers : list string) :
  List.filter
    (fun col => includes (List.filter (fun h => includes priorityColumns h) headers) col)
    priorityColumns
  = List.filter (fun col => includes headers col) priorityColumns.
Proof.
  apply List.filter_ext_in. intros col Hcol. rewrite includes_filter.
  apply list_elem_of_In, includes_true_iff in Hcol. rewrite Hcol. apply andb_true_r.
Qed.

(** C5. [sortHeaders H] is the priority columns that occur in [H], in the
    order of the 11-element priority list, followed by the other elements of
    [H] in ascending lexicographic order; a priority column that is not in
    [H] is left out. *)
Theorem sortHeaders_priority_then_sorted (H : list string) :
  exists rest,
    sortHeaders H
    = List.filter (fun col => includes H col) priorityColumns ++ rest
    /\ rest ≡ₚ List.filter (fun h => negb (includes priorityColumns h)) H
    /\ StronglySorted string_le rest
    /\ length priorityColumns = 11%nat
    /\ sortHeaders ["Zeta"; "Suburb"; "State"; "Alpha"]
       = ["Suburb"; "State"; "Alpha"; "Zeta"].
Proof.
  exists (Array_sort (List.filter (fun h => negb (includes priorityColumns h)) H)).
  split; [| split; [| split; [| split]]].
  - unfold sortHeaders. by rewrite sortedPriority_eq.
  - apply merge_sort_Permutation.
  - apply StronglySorted_merge_sort; apply _.
  - reflexivity.
  - by vm_compute.
Qed.

(** ** Keys of an object *)

Lemma index_keys_snd (ks : list string) :
  map snd (index_keys ks) = List.filter is_array_index ks.
Proof.
  induction ks as [| k ks IH]; [done |].
  unfold index_keys, is_array_index in *. simpl.
  destruct (array_index k); simpl; [f_equal |]; exact IH.
Qed.

Lemma filter_split_Permutation {A} (f : A -> bool) (l : list A) :
  List.filter f l ++ List.filter (fun x => negb (f x)) l ≡ₚ l.
Proof.
  induction l as [| a l IH]; [done |]. simpl.
  destruct (f a); simpl.
  - by rewrite IH.
  - by rewrite <- Permutation_middle, IH.
Qed.

Lemma Object_keys_Permutation {A} (o : obj A) : Object_keys o ≡ₚ map fst o.
Proof.
  unfold Object_keys.
  rewrite (merge_sort_Permutation index_le), index_keys_snd.
  apply filter_split_Permutation.
Qed.

Lemma Object_keys_NoDup {A} (o : obj A) : obj_wf o -> NoDup (Object_keys o).
Proof. unfold obj_wf. by rewrite Object_keys_Permutation. Qed.

Lemma elem_of_List_filter {A} (f : A -> bool) (l : list A) (x : A) :
  x ∈ List.filter f l <-> x ∈ l /\ f x = true.
Proof. rewrite !list_elem_of_In. apply filter_In. Qed.

Lemma NoDup_List_filter {A} (f : A -> bool) (l : list A) :
  NoDup l -> NoDup (List.filter f l).
Proof.
  induction 1 as [| a l Ha Hl IH]; simpl; [constructor |].
  destruct (f a); [| done]. constructor; [| done].
  rewrite elem_of_List_filter. tauto.
Qed.

Lemma priorityColumns_NoDup : NoDup priorityColumns.
Proof. apply (bool_decide_unpack _). by vm_compute. Qed.

Lemma sortHeaders_NoDup (csvHeaders : list string) :
  NoDup csvHeaders ->
  NoDup (sortHeaders (csvHeaders ++ ["Median Weekly Rent"])).
Proof.
  intros Hnd. unfold sortHeaders. apply NoDup_app. split; [| split].
  - apply NoDup_List_filter, priorityColumns_NoDup.
  - intros x Hx. apply elem_of_List_filter in Hx as [Hx _].
    unfold Array_sort. rewrite (merge_sort_Permutation string_le).
    intros Hx'. apply elem_of_List_filter in Hx' as [_ Hx'].
    apply includes_true_iff in Hx. by rewrite Hx in Hx'.
  - unfold Array_sort. rewrite (merge_sort_Permutation string_le).
    rewrite List.filter_app. change (List.filter _ ["Median Weekly Rent"]) with (@nil string).
    rewrite app_nil_r. by apply NoDup_List_filter.
Qed.

Lemma sortHeaders_has_derived (csvHeaders : list string) :
  "Median Weekly Rent" ∈ sortHeaders (csvHeaders ++ ["Median Weekly Rent"]).
Proof.
  unfold sortHeaders. apply elem_of_app. left.
  apply elem_of_List_filter. split; [by apply includes_true_iff |].
  rewrite includes_filter. apply andb_true_intro. split; [| reflexivity].
  apply includes_true_iff, elem_of_app. right. constructor.
Qed.

(** C8. After a file is parsed, the header sequence holds the derived column
    "Median Weekly Rent" and no name twice, also when the file has a column of
    that name itself. *)
Theorem uploaded_headers_unique
    (Papa_parse : File -> PapaResult) (w : World) (file : File)
    (data : list (obj jsval)) (errors : list string) :
  Papa_parse file = PapaComplete data errors ->
  (forall row, head data = Some row -> obj_wf row) ->
  let hs := headers (app (handleFileUpload Papa_parse w (Some file))) in
  "Median Weekly Rent" ∈ hs /\ NoDup hs.
Proof.
  intros Hparse Hwf. unfold handleFileUpload. rewrite Hparse. simpl.
  unfold uploadedHeaders. split; [apply sortHeaders_has_derived |].
  apply sortHeaders_NoDup. unfold csvHeaders_of.
  destruct data as [| row data]; [by vm_compute; constructor |].
  apply Object_keys_NoDup, Hwf. reflexivity.
Qed.

Lemma uploaded_headers_unique_witness :
  let hs := headers (app (handleFileUpload (fun _ => PapaComplete rentCsv [])
                            {| app := emptyState; console_error := [] |}
                            (Some rentFile))) in
  hs = ["Suburb"; "Median Weekly Rent"; "Agent"]
  /\ "Median Weekly Rent" ∈ hs /\ NoDup hs.
Proof.
  split; [by vm_compute |].
  apply (uploaded_headers_unique (fun _ => PapaComplete rentCsv []) _ rentFile rentCsv []).
  - reflexivity.
  - intros row Hrow. injection Hrow as <-.
    apply (bool_decide_unpack _). by vm_compute.
Defined.

(** ** Objects *)

Lemma elem_of_map {A B} (f : A -> B) (l : list A) (y : B) :
  y ∈ map f l <-> exists x, f x = y /\ x ∈ l.
Proof.
  rewrite list_elem_of_In, in_map_iff.
  split; intros (x & Hx & Hin); exists x; by rewrite list_elem_of_In in *.
Qed.

Lemma obj_get_set {A} (o : obj A) (k k' : string) (v : A) :
  obj_get (obj_set o k v) k' = if String.eqb k k' then Some v else obj_get o k'.
Proof.
  induction o as [| [k0 v0] o IH]; simpl.
  - done.
  - destruct (String.eqb_spec k0 k) as [-> | Hne]; simpl.
    + by destruct (String.eqb k k').
    + rewrite IH. destruct (String.eqb_spec k0 k') as [-> | Hne'].
      * by destruct (String.eqb_spec k k').
      * done.
Qed.

Lemma obj_get_None {A} (o : obj A) (k : string) :
  obj_get o k = None <-> k ∉ map fst o.
Proof.
  induction o as [| [k0 v0] o IH]; simpl.
  - split; [intros _; apply not_elem_of_nil | done].
  - rewrite not_elem_of_cons. destruct (String.eqb_spec k0 k) as [-> | Hne].
    + split; [done | tauto].
    + rewrite IH. split; [intros; split; congruence | tauto].
Qed.

Lemma obj_get_Some {A} (o : obj A) (k : string) (v : A) :
  obj_get o k = Some v -> (k, v) ∈ o.
Proof.
  induction o as [| [k0 v0] o IH]; simpl; [done |].
  destruct (String.eqb_spec k0 k) as [-> | Hne].
  - intros [= ->]. constructor.
  - intros Hget. constructor. by apply IH.
Qed.

Lemma obj_set_fresh {A} (o : obj A) (k : string) (v : A) :
  k ∉ map fst o -> obj_set o k v = o ++ [(k, v)].
Proof.
  induction o as [| [k0 v0] o IH]; simpl; [done |].
  rewrite not_elem_of_cons. intros [Hne Hk].
  destruct (String.eqb_spec k0 k) as [-> | _]; [done |]. by rewrite IH.
Qed.

(** Writing entries with distinct fresh keys appends them in order. *)
Lemma fold_obj_set_distinct {A B} (name : B -> string) (val : B -> A)
    (cols : list B) (acc : obj A) :
  NoDup (map name cols) ->
  (forall c, c ∈ cols -> name c ∉ map fst acc) ->
  fold_left (fun acc c => obj_set acc (name c) (val c)) cols acc
  = acc ++ map (fun c => (name c, val c)) cols.
Proof.
  revert acc. induction cols as [| c cols IH]; intros acc Hnd Hfresh; simpl.
  - by rewrite app_nil_r.
  - apply NoDup_cons in Hnd as [Hc Hnd].
    rewrite obj_set_fresh by (apply Hfresh; constructor).
    rewrite IH; [by rewrite <- app_assoc | done |].
    intros c' Hc'. rewrite map_app. simpl. rewrite elem_of_app, list_elem_of_singleton.
    intros [Hin | Heq].
    + apply (Hfresh c'); [by constructor | done].
    + apply Hc. rewrite <- Heq. apply elem_of_map. by exists c'.
Qed.

Lemma index_keys_none (ks : list string) :
  Forall (fun k => is_array_index k = false) ks -> index_keys ks = [].
Proof.
  induction 1 as [| k ks Hk _ IH]; [done |].
  unfold index_keys, is_array_index in *. simpl.
  destruct (array_index k); [done | exact IH].
Qed.

Lemma Object_keys_no_index {A} (o : obj A) :
  Forall (fun k => is_array_index k = false) (map fst o) ->
  Object_keys o = map fst o.
Proof.
  intros Hno. unfold Object_keys. rewrite (index_keys_none _ Hno). simpl.
  induction Hno as [| k ks Hk _ IH]; [done |]. simpl. rewrite Hk. simpl.
  by rewrite IH.
Qed.

(** ** Projection *)

Lemma obj_assign_spec {A} (o : obj A) (k : string) (v : A) :
  obj_get o "__proto__" = None ->
  obj_assign o k v = if String.eqb k "__proto__" then o else obj_set o k v.
Proof.
  intros Ho. unfold obj_assign.
  destruct (String.eqb_spec k "__proto__") as [-> | Hne].
  - by rewrite Ho.
  - by destruct (obj_get o k).
Qed.

Lemma obj_assign_no_proto {A} (o : obj A) (k : string) (v : A) :
  obj_get o "__proto__" = None -> obj_get (obj_assign o k v) "__proto__" = None.
Proof.
  intros Ho. rewrite obj_assign_spec by done.
  destruct (String.eqb_spec k "__proto__") as [-> | Hne]; [done |].
  rewrite obj_get_set. apply String.eqb_neq in Hne. by rewrite Hne.
Qed.

(** The loop of [filterRow], started from any row without an own
    [__proto__] property. *)
Lemma filterRow_loop (columns : list string) (renames : obj string)
    (row acc : obj jsval) :
  obj_get acc "__proto__" = None ->
  let out :=
    fold_left
      (fun filteredRow col =>
         if is_defined (prop row col) then
           let renamedCol := renamed renames col in
           let rawValue :=
             if String.eqb col "Median Weekly Rent" then prop row col
             else prop row col in
           obj_assign filteredRow renamedCol (formatValue rawValue col)
         else filteredRow)
      columns acc in
  obj_get out "__proto__" = None
  /\ out = fold_left (fun acc col => obj_set acc (renamed renames col)
                                        (formatValue (prop row col) col))
             (writtenColumns renames row columns) acc.
Proof.
  revert acc. induction columns as [| col columns IH]; intros acc Hacc; [done |].
  cbn [fold_left writtenColumns List.filter]. cbv zeta.
  assert (Hraw : (if String.eqb col "Median Weekly Rent" then prop row col
                  else prop row col) = prop row col)
    by (by destruct (String.eqb col "Median Weekly Rent")).
  rewrite Hraw.
  destruct (is_defined (prop row col)); cbn [andb]; [| by apply IH].
  rewrite obj_assign_spec by done.
  destruct (String.eqb_spec (renamed renames col) "__proto__") as [Heq | Hne];
    cbn [negb]; [by apply IH |].
  apply IH. rewrite obj_get_set. apply String.eqb_neq in Hne. by rewrite Hne.
Qed.

(** A display row has no own [__proto__] property. *)
Lemma filterRow_no_proto (columns : list string) (renames : obj string)
    (row : obj jsval) :
  obj_get (filterRow columns renames row) "__proto__" = None.
Proof. by apply (filterRow_loop columns renames row []). Qed.

Lemma filterRow_fold (columns : list string) (renames : obj string) (row : obj jsval) :
  filterRow columns renames row
  = fold_left (fun acc col => obj_set acc (renamed renames col)
                                (formatValue (prop row col) col))
      (writtenColumns renames row columns) [].
Proof. by apply (filterRow_loop columns renames row []). Qed.

Lemma writtenColumns_present (renames : obj string) (row : obj jsval)
    (columns : list string) :
  Forall (fun col => renamed renames col <> "__proto__")
    (presentColumns row columns) ->
  writtenColumns renames row columns = presentColumns row columns.
Proof.
  unfold writtenColumns, presentColumns.
  induction columns as [| col columns IH]; [done |]. cbn [List.filter].
  destruct (is_defined (prop row col)); cbn [andb]; [| exact IH].
  intros [Hcol Hrest]%Forall_cons. apply String.eqb_neq in Hcol.
  rewrite Hcol. cbn [negb]. by rewrite IH.
Qed.

(** Where the display names of the present columns are distinct and none is
    [__proto__], the output row is their entries in selected order. *)
Lemma filterRow_distinct (columns : list string) (renames : obj string) (row : obj jsval) :
  NoDup (map (renamed renames) (presentColumns row columns)) ->
  Forall (fun col => renamed renames col <> "__proto__")
    (presentColumns row columns) ->
  filterRow columns renames row
  = map (displayEntry renames row) (presentColumns row columns).
Proof.
  intros Hnd Hproto. rewrite filterRow_fold, writtenColumns_present by done.
  rewrite (fold_obj_set_distinct (renamed renames)
             (fun col => formatValue (prop row col) col)); [done | done |].
  intros c _. apply not_elem_of_nil.
Qed.



(** A column called like a member of [Object.prototype] has a value in every
    row, its own or the inherited one, unless the row stores [undefined]
    for it. *)
Lemma is_defined_inherited (row : obj jsval) (col : string) :
  Forall (fun kv => kv.2 <> VUndefined) row ->
  Object_prototype col <> None ->
  is_defined (prop row col) = true.
Proof.
  intros Hdef Hcol. unfold prop.
  destruct (obj_get row col) as [v |] eqn:Hget.
  - apply obj_get_Some in Hget. rewrite Forall_forall in Hdef.
    specialize (Hdef _ Hget). simpl in Hdef. by destruct v.
  - by destruct (Object_prototype col).
Qed.




(** It fails as well for a column renamed to [__proto__], whose value is
    handed to the setter of [Object.prototype] and appears nowhere in the
    output row; and a column called like an inherited method has a value in
    a row without that key, where the output shows the method; without an
    entry of its own in the rename map, its display name is the text of the
    method. *)
Lemma projection_prototype_names :
  generateTableData [abRow] abColumns protoRenames = [[("B", VString "2")]]
  /\ generateTableData methodRows ["Suburb"; "valueOf"] methodRenames
     = [[("Suburb", VString "Kew"); ("valueOf", VString "1")];
        [("Suburb", VString "Box Hill");
         ("valueOf", VObject (BuiltinFunction "valueOf"))]]
  /\ renamed [] "valueOf" = "function valueOf() { [native code] }".
Proof. repeat split; by vm_compute. Qed.

(** ** The prototype of a display row *)

(** While every row keeps its prototype, the loop with its prototype and
    its failing assignments returns what [filterRow] gives, under
    [Object.prototype]. *)
Lemma filterRow_strict_kept (columns : list string) (renames : obj string)
    (row : obj jsval) :
  keeps_prototype columns renames row = true ->
  filterRow_strict columns renames row
  = Ok (filterRow columns renames row, ObjectPrototype).
Proof.
  unfold filterRow_strict, filterRow, keeps_prototype. generalize ([] : obj jsval).
  induction columns as [| col columns IH]; intros acc Hkept; [done |].
  cbn [forallb] in Hkept. apply andb_true_iff in Hkept as [Hcol Hkept].
  cbn [fold_left bind]. cbv zeta.
  assert (Hraw : (if String.eqb col "Median Weekly Rent" then prop row col
                  else prop row col) = prop row col)
    by (by destruct (String.eqb col "Median Weekly Rent")).
  rewrite Hraw. destruct (is_defined (prop row col)); [| by apply IH].
  cbn [andb] in Hcol. unfold assign_strict, obj_assign.
  destruct (obj_get acc (renamed renames col)); [by apply IH |].
  destruct (String.eqb (renamed renames col) "__proto__"); [| by apply IH].
  cbn [andb negb] in Hcol. apply negb_true_iff in Hcol.
  destruct (formatValue (prop row col) col) as [| text | x | [| name]];
    try done; by apply IH.
Qed.

(** So for data whose rows keep their prototype no assignment fails, and
    the table is as [generateTableData] gives it. *)
Lemma generateTableData_strict (data : list (obj jsval)) (columns : list string)
    (renames : obj string) :
  prototypes_kept data columns renames ->
  mapM (filterRow_strict columns renames) data
  = Ok (map (fun out => (out, ObjectPrototype))
          (generateTableData data columns renames)).
Proof.
  induction 1 as [| row data Hrow _ IH]; [done |].
  cbn [mapM map generateTableData]. rewrite (filterRow_strict_kept _ _ _ Hrow).
  cbn [bind]. unfold generateTableData in IH. by rewrite IH.
Qed.

(** Where a row does not keep it, the loop can throw: the row takes the
    function [valueOf] as its prototype, whose [name] is read-only. *)
Lemma prototype_replaced_throws :
  keeps_prototype namedColumns namedRenames namedRow = false
  /\ prop namedRow "valueOf" = VObject (BuiltinFunction "valueOf")
  /\ filterRow_strict ["valueOf"] namedRenames namedRow
     = Ok ([], BuiltinFunction "valueOf")
  /\ filterRow_strict namedColumns namedRenames namedRow = Throw "TypeError"
  /\ filterRow_strict ["name"; "valueOf"] namedRenames namedRow
     = Ok ([("name", VString "Kew")], BuiltinFunction "valueOf").
Proof. repeat split; by vm_compute. Qed.

(** ** Rename collisions *)

Lemma filterRow_snoc (columns : list string) (renames : obj string)
    (row : obj jsval) (col : string) :
  filterRow (columns ++ [col]) renames row
  = if is_defined (prop row col)
    then obj_assign (filterRow columns renames row) (renamed renames col)
           (formatValue (prop row col) col)
    else filterRow columns renames row.
Proof.
  unfold filterRow. rewrite fold_left_app. simpl.
  by destruct (String.eqb col "Median Weekly Rent").
Qed.

(** The entry under a key is written by the last selected column that has a
    value in the row and that display name; nothing is written under
    [__proto__]. *)
Lemma filterRow_last_writer (columns : list string) (renames : obj string)
    (row : obj jsval) (name : string) :
  obj_get (filterRow columns renames row) name
  = if String.eqb name "__proto__" then None
    else option_map (fun col => formatValue (prop row col) col)
           (last (writers renames row name columns)).
Proof.
  destruct (String.eqb_spec name "__proto__") as [-> | Hname];
    [apply filterRow_no_proto |].
  induction columns as [| col columns IH] using rev_ind; [done |].
  rewrite filterRow_snoc. unfold writers in *. rewrite List.filter_app. simpl.
  destruct (is_defined (prop row col)); simpl.
  - rewrite obj_assign_spec by apply filterRow_no_proto.
    destruct (String.eqb_spec (renamed renames col) "__proto__") as [Hp | Hp].
    + destruct (String.eqb_spec (renamed renames col) name) as [He | _];
        [congruence |].
      by rewrite app_nil_r.
    + rewrite obj_get_set.
      destruct (String.eqb (renamed renames col) name); simpl.
      * by rewrite last_snoc.
      * by rewrite app_nil_r.
  - by rewrite app_nil_r.
Qed.





(** ** Integers in binary64 *)

Lemma digits2_pos_size (p : positive) : digits2_pos p = Pos.size p.
Proof. induction p; simpl; by rewrite ?IHp. Qed.

Lemma digits2_bounds (p : positive) :
  2 ^ (Zpos (digits2_pos p) - 1) <= Zpos p < 2 ^ Zpos (digits2_pos p).
Proof.
  rewrite digits2_pos_size. split.
  - pose proof (Pos.size_le p) as H.
    assert (Hs : Zpos (2 ^ Pos.size p) <= Zpos p~0) by exact H.
    rewrite Pos2Z.inj_pow in Hs.
    replace (Zpos (Pos.size p)) with (Zpos (Pos.size p) - 1 + 1) in Hs by lia.
    rewrite Z.pow_add_r in Hs by lia. lia.
  - pose proof (Pos.size_gt p) as H.
    assert (Hs : Zpos p < Zpos (2 ^ Pos.size p)) by exact H.
    by rewrite Pos2Z.inj_pow in Hs.
Qed.

Lemma digits2_unique (p : positive) (d : Z) :
  2 ^ (d - 1) <= Zpos p < 2 ^ d -> Zpos (digits2_pos p) = d.
Proof.
  intros [Hlo Hhi]. pose proof (digits2_bounds p) as [Hlo' Hhi'].
  assert (0 < d).
  { destruct (Z.ltb_spec 0 d); [done |].
    assert (2 ^ d <= 2 ^ 0) by (apply Z.pow_le_mono_r; lia). simpl in *. lia. }
  destruct (Z.lt_trichotomy (Zpos (digits2_pos p)) d) as [Hlt | [Heq | Hgt]]; [| done |].
  - assert (2 ^ Zpos (digits2_pos p) <= 2 ^ (d - 1)) by (apply Z.pow_le_mono_r; lia). lia.
  - assert (2 ^ d <= 2 ^ (Zpos (digits2_pos p) - 1)) by (apply Z.pow_le_mono_r; lia). lia.
Qed.

Lemma shr_1_even' (M m : Z) :
  0 <= m -> M = 2 * m ->
  shr_1 {| shr_m := M; shr_r := false; shr_s := false |}
  = {| shr_m := m; shr_r := false; shr_s := false |}.
Proof. intros Hm ->. by destruct m. Qed.

Lemma shr_1_m (r : shr_record) : 0 <= shr_m r -> shr_m (shr_1 r) = shr_m r / 2.
Proof.
  destruct r as [m r s]. simpl. intros Hm.
  destruct m as [| [p | p |] |]; simpl; try done.
  - rewrite Pos2Z.inj_xI. apply Z.div_unique with 1; lia.
  - rewrite Pos2Z.inj_xO. apply Z.div_unique with 0; lia.
Qed.

Lemma shr_1_nonneg (r : shr_record) : 0 <= shr_m r -> 0 <= shr_m (shr_1 r).
Proof. intros Hr. rewrite shr_1_m by done. apply Z.div_pos; lia. Qed.

Lemma pow2_xI (n : positive) : 2 ^ Zpos n~1 = 2 * 2 ^ Zpos n * 2 ^ Zpos n.
Proof.
  assert (Zpos n~1 = 1 + Zpos n + Zpos n) as -> by lia.
  rewrite !Z.pow_add_r by lia. reflexivity.
Qed.

Lemma pow2_xO (n : positive) : 2 ^ Zpos n~0 = 2 ^ Zpos n * 2 ^ Zpos n.
Proof.
  assert (Zpos n~0 = Zpos n + Zpos n) as -> by lia.
  by rewrite Z.pow_add_r by lia.
Qed.

Lemma iter_shr_1_m (n : positive) (r : shr_record) :
  0 <= shr_m r ->
  0 <= shr_m (SpecFloat.iter_pos shr_1 n r)
  /\ shr_m (SpecFloat.iter_pos shr_1 n r) = shr_m r / 2 ^ Zpos n.
Proof.
  revert r. induction n as [n IH | n IH |]; intros r Hr; cbn [SpecFloat.iter_pos].
  - pose proof (shr_1_nonneg r Hr) as H1.
    destruct (IH _ H1) as [H2 E2]. destruct (IH _ H2) as [H3 E3].
    split; [done |]. rewrite E3, E2, shr_1_m, pow2_xI by done.
    assert (0 < 2 ^ Zpos n) by (apply Z.pow_pos_nonneg; lia).
    rewrite !Z.div_div by lia. f_equal; lia.
  - destruct (IH _ Hr) as [H2 E2]. destruct (IH _ H2) as [H3 E3].
    split; [done |]. rewrite E3, E2, pow2_xO.
    assert (0 < 2 ^ Zpos n) by (apply Z.pow_pos_nonneg; lia).
    rewrite !Z.div_div by lia. f_equal; lia.
  - split; [by apply shr_1_nonneg |]. by rewrite shr_1_m.
Qed.

Lemma iter_shr_1_exact (n : positive) (M m : Z) :
  0 <= m -> M = m * 2 ^ Zpos n ->
  SpecFloat.iter_pos shr_1 n {| shr_m := M; shr_r := false; shr_s := false |}
  = {| shr_m := m; shr_r := false; shr_s := false |}.
Proof.
  revert M m. induction n as [n IH | n IH |]; intros M m Hm ->; cbn [SpecFloat.iter_pos].
  - assert (0 < 2 ^ Zpos n) by (apply Z.pow_pos_nonneg; lia).
    rewrite (shr_1_even' _ (m * 2 ^ Zpos n * 2 ^ Zpos n)); [| nia | rewrite pow2_xI; lia].
    rewrite (IH _ (m * 2 ^ Zpos n)); [| nia | done]. by apply IH.
  - assert (0 < 2 ^ Zpos n) by (apply Z.pow_pos_nonneg; lia).
    rewrite (IH _ (m * 2 ^ Zpos n)); [| nia | rewrite pow2_xO; lia]. by apply IH.
  - apply shr_1_even'; [done |]. change (2 ^ 1) with 2. lia.
Qed.

Lemma fexp64 (e : Z) : fexp prec emax e = Z.max (e - 53) (-1074).
Proof. reflexivity. Qed.

Lemma div_eucl_1 (a : Z) : Z.div_eucl a 1 = (a, 0).
Proof.
  pose proof (Z.div_1_r a) as Hq. pose proof (Z.mod_1_r a) as Hr.
  unfold Z.div, Z.modulo in *. destruct (Z.div_eucl a 1) as [q r]. simpl in *. congruence.
Qed.

Lemma round_ratio_unfold (s : bool) (p : positive) :
  round_ratio s p 1
  = binary_round_aux prec emax s
      (Zpos p * 2 ^ (- Z.min (Zpos (digits2_pos p) - 54) 0))
      (Z.min (Zpos (digits2_pos p) - 54) 0) loc_Exact.
Proof.
  unfold round_ratio, SFdiv_core_binary.
  change (Zdigits2 (Zpos p)) with (Zpos (digits2_pos p)).
  change (Zdigits2 1) with 1. rewrite fexp64.
  replace (Z.pos (digits2_pos p) + 0 - (1 + 0) - 53) with (Zpos (digits2_pos p) - 54) by lia.
  change (0 - 0) with 0.
  assert (Hd : 1 <= Zpos (digits2_pos p)) by lia.
  rewrite (Z.max_l _ (-1074)) by lia.
  set (e' := Z.min (Zpos (digits2_pos p) - 54) 0).
  assert (He' : e' <= 0) by lia.
  replace (0 - e') with (- e') by lia.
  assert (Hm : match - e' with
               | 0 => Zpos p
               | Zpos _ => Z.shiftl (Zpos p) (- e')
               | Zneg _ => 0
               end = Zpos p * 2 ^ (- e')).
  { destruct (- e') as [| q | q] eqn:Hq; [simpl; lia | | lia].
    rewrite Z.shiftl_mul_pow2 by lia. done. }
  rewrite Hm, div_eucl_1. reflexivity.
Qed.

Lemma Zdigits2_unique (m d : Z) :
  2 ^ (d - 1) <= m < 2 ^ d -> Zdigits2 m = d.
Proof.
  intros Hm. pose proof (Z.pow_nonneg 2 (d - 1)).
  destruct m as [| p | p]; [| simpl; by apply digits2_unique | lia].
  simpl. destruct (Z.ltb_spec d 0) as [Hneg | Hpos].
  - rewrite (Z.pow_neg_r 2 d) in Hm by done. lia.
  - destruct (Z.eq_dec d 0) as [-> | Hd]; [done |].
    assert (0 < 2 ^ (d - 1)) by (apply Z.pow_pos_nonneg; lia). lia.
Qed.

Lemma shr_zero (r : shr_record) (e : Z) : shr r e 0 = (r, e).
Proof. reflexivity. Qed.

(** Rounding a 53-bit mantissa that was shifted left by [k] gives it back. *)
Lemma binary_round_aux_exact (s : bool) (m e k : Z) :
  2 ^ 52 <= m < 2 ^ 53 -> 0 <= k -> -1074 <= e + k <= 971 ->
  binary_round_aux prec emax s (m * 2 ^ k) e loc_Exact
  = S754_finite s (Z.to_pos m) (e + k).
Proof.
  intros Hm Hk He. unfold binary_round_aux, shr_fexp.
  assert (Hd : Zdigits2 (m * 2 ^ k) = 53 + k).
  { apply Zdigits2_unique. replace (53 + k - 1) with (52 + k) by lia.
    rewrite !Z.pow_add_r by lia.
    assert (0 < 2 ^ k) by (apply Z.pow_pos_nonneg; lia). nia. }
  rewrite Hd, fexp64. rewrite Z.max_l by lia.
  replace (53 + k + e - 53 - e) with k by lia.
  assert (Hshift : shr (shr_record_of_loc (m * 2 ^ k) loc_Exact) e k = (rec0 m, e + k)).
  { destruct k as [| q | q]; [| | lia].
    - simpl. by rewrite Z.mul_1_r, Z.add_0_r.
    - unfold shr. f_equal. apply iter_shr_1_exact; [lia | done]. }
  rewrite Hshift. cbn [rec0 shr_m loc_of_shr_record round_nearest_even].
  assert (Hd' : Zdigits2 m = 53) by (by apply Zdigits2_unique).
  rewrite Hd', fexp64, Z.max_l by lia.
  replace (53 + (e + k) - 53 - (e + k)) with 0 by lia.
  rewrite shr_zero. cbn [shr_record_of_loc shr_m].
  destruct m as [| p | p]; try lia. simpl Z.to_pos.
  change (emax - prec) with 971.
  destruct (Z.leb_spec (e + k) 971); [done | lia].
Qed.

Lemma round_nearest_even_bounds (m : Z) (l : location) :
  m <= round_nearest_even m l <= m + 1.
Proof. destruct l as [| []]; simpl; try lia. destruct (Z.even m); lia. Qed.

(** Rounding an integer of 54 bits or more: when the result is finite, it has
    a 53-bit mantissa and a positive exponent. *)
Lemma binary_round_aux_large (s : bool) (p : positive) :
  54 <= Zpos (digits2_pos p) ->
  is_finite (binary_round_aux prec emax s (Zpos p) 0 loc_Exact) = true ->
  exists m e,
    binary_round_aux prec emax s (Zpos p) 0 loc_Exact = S754_finite s m e
    /\ 2 ^ 52 <= Zpos m < 2 ^ 53 /\ 1 <= e <= 971.
Proof.
  intros Hd. unfold binary_round_aux, shr_fexp.
  change (Zdigits2 (Zpos p)) with (Zpos (digits2_pos p)).
  set (d := Zpos (digits2_pos p)) in *.
  rewrite fexp64, Z.max_l by lia.
  replace (d + 0 - 53 - 0) with (d - 53) by lia.
  destruct (d - 53) as [| n |] eqn:Hn; try lia.
  unfold shr. cbn [shr_record_of_loc]. fold (rec0 (Zpos p)).
  destruct (iter_shr_1_m n (rec0 (Zpos p))) as [Hnonneg Hm1]; [simpl; lia |].
  set (r1 := SpecFloat.iter_pos shr_1 n (rec0 (Zpos p))) in *.
  simpl shr_m in Hm1.
  pose proof (digits2_bounds p) as Hp. fold d in Hp.
  assert (Hm1b : 2 ^ 52 <= shr_m r1 < 2 ^ 53).
  { rewrite Hm1, <- Hn.
    assert (0 < 2 ^ (d - 53)) by (apply Z.pow_pos_nonneg; lia).
    assert (E1 : 2 ^ (d - 1) = 2 ^ 52 * 2 ^ (d - 53))
      by (rewrite <- Z.pow_add_r by lia; f_equal; lia).
    assert (E2 : 2 ^ d = 2 ^ 53 * 2 ^ (d - 53))
      by (rewrite <- Z.pow_add_r by lia; f_equal; lia).
    split.
    - apply Z.div_le_lower_bound; lia.
    - apply Z.div_lt_upper_bound; lia. }
  pose proof (round_nearest_even_bounds (shr_m r1) (loc_of_shr_record r1)) as Hm2.
  set (m2 := round_nearest_even (shr_m r1) (loc_of_shr_record r1)) in *.
  destruct (Z.ltb_spec m2 (2 ^ 53)) as [Hlt | Hge].
  - assert (Hd2 : Zdigits2 m2 = 53) by (apply Zdigits2_unique; lia).
    rewrite Hd2, fexp64, Z.max_l by lia.
    replace (53 + (0 + Zpos n) - 53 - (0 + Zpos n)) with 0 by lia.
    cbn [shr_m].
    destruct m2 as [| q | q] eqn:Hq; try lia.
    change (emax - prec) with 971.
    destruct (Z.leb_spec (0 + Zpos n) 971); [| done].
    intros _. exists q, (0 + Zpos n). split; [done |]. split; lia.
  - assert (Hm2e : m2 = 2 ^ 53) by lia. rewrite Hm2e.
    change (Zdigits2 (2 ^ 53)) with 54.
    rewrite fexp64, Z.max_l by lia.
    replace (54 + (0 + Zpos n) - 53 - (0 + Zpos n)) with 1 by lia.
    cbn [shr_m shr_record_of_loc SpecFloat.iter_pos].
    change (shr_1 {| shr_m := 2 ^ 53; shr_r := false; shr_s := false |})
      with (rec0 (2 ^ 52)).
    cbn [rec0 shr_m]. change (2 ^ 52) with (Zpos (2 ^ 52)).
    change (emax - prec) with 971.
    destruct (Z.leb_spec (0 + Zpos n + 1) 971); [| done].
    intros _. exists (2 ^ 52)%positive, (0 + Zpos n + 1). split; [done |].
    split; [done | lia].
Qed.

(** ** Decimal digits *)

Lemma digit_char_cases (d : Z) :
  0 <= d < 10 ->
  In (digit_char d) (chars "0123456789") /\ digit_val (digit_char d) = d.
Proof.
  intros Hd.
  assert (d = 0 \/ d = 1 \/ d = 2 \/ d = 3 \/ d = 4 \/ d = 5 \/ d = 6 \/ d = 7
          \/ d = 8 \/ d = 9) as Hcases by lia.
  repeat (destruct Hcases as [-> | Hcases]; [vm_compute; tauto |]).
  subst d. vm_compute. tauto.
Qed.

Lemma is_digit_cases (c : ascii) :
  is_digit c = true <-> In c (chars "0123456789").
Proof.
  split.
  - destruct c as [[] [] [] [] [] [] [] []]; intros H; try discriminate H;
      vm_compute; tauto.
  - intros H. vm_compute in H. repeat (destruct H as [<- | H]; [reflexivity |]). done.
Qed.

Lemma to_digits_acc (fuel : nat) (n : Z) (acc : list ascii) :
  to_digits fuel n acc = to_digits fuel n [] ++ acc.
Proof.
  revert n acc. induction fuel as [| fuel IH]; intros n acc; simpl; [done |].
  destruct (n <? 10); [done |].
  rewrite (IH _ (_ :: acc)), (IH _ [_]). by rewrite <- app_assoc.
Qed.

Lemma digits_value_snoc (ds : list ascii) (c : ascii) :
  digits_value (ds ++ [c]) = 10 * digits_value ds + digit_val c.
Proof. unfold digits_value. by rewrite fold_left_app. Qed.

Lemma to_digits_value (fuel : nat) (n : Z) :
  0 <= n < 2 ^ Z.of_nat fuel -> (0 < fuel)%nat ->
  digits_value (to_digits fuel n []) = n.
Proof.
  revert n. induction fuel as [| fuel IH]; intros n Hn Hfuel; [lia |].
  simpl. destruct (Z.ltb_spec n 10) as [Hlt | Hge].
  - rewrite Z.mod_small by lia.
    destruct (digit_char_cases n) as [_ Hv]; [lia |].
    unfold digits_value. simpl. lia.
  - rewrite to_digits_acc, digits_value_snoc.
    destruct (digit_char_cases (n mod 10)) as [_ Hv];
      [apply Z.mod_pos_bound; lia |].
    rewrite Hv. rewrite Nat2Z.inj_succ, Z.pow_succ_r in Hn by lia.
    assert (Hdiv : 0 <= n / 10 < 2 ^ Z.of_nat fuel).
    { split; [apply Z.div_pos; lia |].
      apply Z.div_lt_upper_bound; lia. }
    rewrite IH; [| done |].
    + pose proof (Z.div_mod n 10). lia.
    + destruct fuel; [simpl in Hdiv; lia | lia].
Qed.

Lemma decimal_digits_value (n : Z) : 0 <= n -> digits_value (decimal_digits n) = n.
Proof.
  intros Hn. unfold decimal_digits. apply to_digits_value; [| lia].
  split; [done |]. rewrite Nat2Z.inj_succ, Z2Nat.id by apply Z.log2_nonneg.
  destruct (Z.eq_dec n 0) as [-> | Hne]; [done |].
  apply Z.log2_spec. lia.
Qed.

Lemma to_digits_all_digits (fuel : nat) (n : Z) (acc : list ascii) :
  0 <= n -> forallb is_digit acc = true ->
  forallb is_digit (to_digits fuel n acc) = true.
Proof.
  revert n acc. induction fuel as [| fuel IH]; intros n acc Hn Hacc; simpl; [done |].
  assert (Hc : forallb is_digit (digit_char (n mod 10) :: acc) = true).
  { simpl. rewrite Hacc, andb_true_r. apply is_digit_cases.
    apply digit_char_cases, Z.mod_pos_bound. lia. }
  destruct (n <? 10); [done |]. apply IH; [apply Z.div_pos; lia | done].
Qed.

Lemma decimal_digits_all_digits (n : Z) :
  0 <= n -> forallb is_digit (decimal_digits n) = true.
Proof. intros Hn. by apply to_digits_all_digits. Qed.

Lemma decimal_digits_nonempty (n : Z) : decimal_digits n <> [].
Proof.
  unfold decimal_digits. simpl. destruct (n <? 10); [done |].
  rewrite to_digits_acc. by destruct (to_digits _ _ []).
Qed.

Lemma span_digits_all (l : list ascii) :
  forallb is_digit l = true -> span_digits l = (l, []).
Proof.
  induction l as [| c l IH]; simpl; [done |].
  intros [Hc Hl]%andb_true_iff. by rewrite Hc, IH.
Qed.

(** Reading back the decimal text of an integer. *)
Lemma parseFloat_integer_chars (neg : bool) (n : Z) :
  0 <= n ->
  parseFloat_string (of_chars (signChars neg ++ decimal_digits n))
  = of_decimal neg n 0.
Proof.
  intros Hn. unfold parseFloat_string, chars, of_chars.
  rewrite list_ascii_of_string_of_list_ascii.
  pose proof (decimal_digits_all_digits n Hn) as Hall.
  pose proof (decimal_digits_value n Hn) as Hval.
  pose proof (decimal_digits_nonempty n) as Hne.
  destruct (decimal_digits n) as [| c ds] eqn:Hds; [done |].
  assert (Hc : In c (chars "0123456789")).
  { apply is_digit_cases. simpl in Hall. by apply andb_true_iff in Hall as [? _]. }
  assert (Hparse : parse_unsigned neg (c :: ds) = Some (LitDecimal neg n 0)).
  { unfold parse_unsigned.
    assert (Hinf : starts_with (chars "Infinity") (c :: ds) = false).
    { vm_compute in Hc. repeat (destruct Hc as [<- | Hc]; [reflexivity |]). done. }
    rewrite Hinf, (span_digits_all _ Hall). by rewrite Hval. }
  destruct neg; unfold signChars; simpl app.
  - simpl. by rewrite Hparse.
  - vm_compute in Hc.
    repeat (destruct Hc as [<- | Hc]; [simpl; rewrite Hparse; reflexivity |]). done.
Qed.

Lemma filter_group_rev (keep : ascii -> bool) (r : list ascii) :
  keep ","%char = false ->
  forallb keep r = true ->
  List.filter keep (group_rev r) = r.
Proof.
  intros Hcomma.
  assert (Hlen : forall (n : nat) (r : list ascii),
             (length r <= n)%nat -> forallb keep r = true ->
             List.filter keep (group_rev r) = r).
  { clear r. induction n as [| n IH]; intros r Hn Hr.
    - destruct r; [done | simpl in Hn; lia].
    - destruct r as [| a [| b [| c [| d r]]]]; simpl in *;
        repeat match goal with
               | H : _ && _ = true |- _ => apply andb_true_iff in H as [? ?]
               end;
        repeat match goal with
               | H : keep ?x = true |- _ => rewrite H
               end; try done.
      rewrite Hcomma. do 3 f_equal.
      change (List.filter keep (group_rev (d :: r)) = d :: r).
      apply IH; [simpl; lia |]. simpl. by apply andb_true_iff. }
  apply (Hlen (length r)). done.
Qed.

Lemma forallb_rev {A} (f : A -> bool) (l : list A) :
  forallb f (rev l) = forallb f l.
Proof.
  induction l as [| a l IH]; [done |]. simpl.
  rewrite forallb_app, IH. simpl. rewrite andb_true_r. apply andb_comm.
Qed.

Lemma filter_group_thousands (keep : ascii -> bool) (ds : list ascii) :
  keep ","%char = false ->
  forallb keep ds = true ->
  List.filter keep (group_thousands ds) = ds.
Proof.
  intros Hcomma Hds. unfold group_thousands.
  rewrite List.filter_rev, filter_group_rev; [apply rev_involutive | done |].
  by rewrite forallb_rev.
Qed.

Lemma forallb_digit_keep (keep : ascii -> bool) (ds : list ascii) :
  forallb keep (chars "0123456789") = true ->
  forallb is_digit ds = true -> forallb keep ds = true.
Proof.
  intros Hkeep Hds. apply forallb_forall. intros c Hc.
  rewrite forallb_forall in Hds, Hkeep. apply Hkeep, is_digit_cases, Hds, Hc.
Qed.

(** What [toLocaleString] prints for a number whose shortest decimal is the
    integer [X] (up to sign). *)
Lemma toLocaleString_integer (x : number) (X : Z) :
  is_finite x = true -> 0 <= X ->
  thousandths x = X * 1000 ->
  toLocaleString x
  = of_chars (signChars (sign_of x) ++ group_thousands (decimal_digits X)).
Proof.
  intros Hfin HX Hround.
  assert (Hbody : toLocaleString x
                  = let n := thousandths x in
                    let int_part := group_thousands (decimal_digits (n / 1000)) in
                    let frac := drop_trailing_zeros
                                  (pad_left 3 (decimal_digits (n mod 1000))) in
                    let body := match frac with
                                | [] => int_part
                                | _ => int_part ++ "."%char :: frac
                                end in
                    of_chars (if sign_of x then "-"%char :: body else body))
    by (by destruct x).
  rewrite Hbody. cbv zeta. rewrite Hround.
  rewrite Z.div_mul, Z.mod_mul by lia.
  change (drop_trailing_zeros (pad_left 3 (decimal_digits 0))) with (@nil ascii).
  by destruct (sign_of x).
Qed.

Lemma scaled_round_exact (n d X f : Z) :
  0 < d -> n = X * d -> (2 * n * 10 ^ f + d) / (2 * d) = X * 10 ^ f.
Proof.
  intros Hd ->. symmetry. apply Z.div_unique with d; lia.
Qed.

(** A finite number whose exact value is the fraction [X * d / d]. *)
Lemma integer_valued (x : number) (n d X : Z) :
  is_finite x = true -> abs_ratio x = (n, d) -> 0 < d -> n = X * d ->
  scaled_round x 3 = X * 10 ^ 3
  /\ exact_Z x = Some (cond_Zopp (sign_of x) X).
Proof.
  intros Hfin Hratio Hd ->. unfold scaled_round, exact_Z. rewrite Hfin, Hratio.
  split; [by apply scaled_round_exact |].
  rewrite Z.mod_mul, Z.div_mul by lia. done.
Qed.

(** Rounding a positive integer [p] to a number, when it does not overflow:
    the number is equal to an integer [X], which rounds to the same number,
    and [X] is [p] itself below [2 ^ 53]. *)
Lemma round_ratio_integer (s : bool) (p : positive) :
  is_finite (round_ratio s p 1) = true ->
  exists X : positive,
    scaled_round (round_ratio s p 1) 3 = Zpos X * 10 ^ 3
    /\ exact_Z (round_ratio s p 1) = Some (cond_Zopp s (Zpos X))
    /\ round_ratio s X 1 = round_ratio s p 1
    /\ sign_of (round_ratio s p 1) = s
    /\ (Zpos (digits2_pos p) <= 53 -> X = p).
Proof.
  pose proof (digits2_bounds p) as Hp.
  set (d := Zpos (digits2_pos p)) in *.
  assert (Hd1 : 1 <= d) by lia.
  destruct (Z.le_gt_cases d 53) as [Hsmall | Hlarge].
  - intros _. exists p.
    assert (Hpow : 0 < 2 ^ (53 - d)) by (apply Z.pow_pos_nonneg; lia).
    assert (Hx : round_ratio s p 1
                 = S754_finite s (Z.to_pos (Zpos p * 2 ^ (53 - d))) (d - 53)).
    { rewrite round_ratio_unfold. fold d. rewrite Z.min_l by lia.
      replace (Zpos p * 2 ^ (- (d - 54))) with (Zpos p * 2 ^ (53 - d) * 2 ^ 1)
        by (rewrite <- Z.mul_assoc, <- Z.pow_add_r by lia; do 2 f_equal; lia).
      rewrite binary_round_aux_exact; [f_equal; lia | | lia | lia].
      assert (E1 : 2 ^ 52 = 2 ^ (d - 1) * 2 ^ (53 - d))
        by (rewrite <- Z.pow_add_r by lia; f_equal; lia).
      assert (E2 : 2 ^ 53 = 2 ^ d * 2 ^ (53 - d))
        by (rewrite <- Z.pow_add_r by lia; f_equal; lia).
      rewrite E1, E2. nia. }
    rewrite Hx.
    assert (Hratio : exists n D, abs_ratio (S754_finite s (Z.to_pos (Zpos p * 2 ^ (53 - d))) (d - 53))
                                 = (n, D) /\ 0 < D /\ n = Zpos p * D).
    { unfold abs_ratio. rewrite Z2Pos.id by lia.
      destruct (Z.leb_spec 0 (d - 53)) as [Hz | Hneg].
      - exists (Zpos p * 2 ^ (53 - d) * 2 ^ (d - 53)), 1.
        replace (d - 53) with 0 by lia. replace (53 - d) with 0 by lia.
        split; [done |]. simpl. lia.
      - exists (Zpos p * 2 ^ (53 - d)), (2 ^ (53 - d)).
        replace (- (d - 53)) with (53 - d) by lia. done. }
    destruct Hratio as (n & D & Hratio & HD & Hn).
    pose proof (fun Hfin => integer_valued _ n D (Zpos p) Hfin Hratio HD Hn) as Hiv.
    destruct (Hiv eq_refl) as [Hround Hexact].
    by repeat split.
  - rewrite round_ratio_unfold. fold d. rewrite Z.min_r by lia.
    change (- 0) with 0. rewrite Z.pow_0_r, Z.mul_1_r.
    intros Hfin.
    destruct (binary_round_aux_large s p) as (m & e & Hx & Hm & He); [fold d; lia | done |].
    rewrite Hx.
    assert (Hpow : 0 < 2 ^ e) by (apply Z.pow_pos_nonneg; lia).
    exists (Z.to_pos (Zpos m * 2 ^ e)).
    rewrite Z2Pos.id by lia.
    assert (Hratio : abs_ratio (S754_finite s m e) = (Zpos m * 2 ^ e, 1)).
    { unfold abs_ratio. destruct (Z.leb_spec 0 e); [done | lia]. }
    pose proof (fun Hf H1 H2 => integer_valued _ _ 1 (Zpos m * 2 ^ e) Hf Hratio H1 H2) as Hiv.
    destruct (Hiv eq_refl) as [Hround Hexact]; [lia | lia |].
    split; [done |]. split; [done |]. split; [| split].
    + rewrite round_ratio_unfold.
      assert (Hd' : Zpos (digits2_pos (Z.to_pos (Zpos m * 2 ^ e))) = 53 + e).
      { apply digits2_unique. rewrite Z2Pos.id by lia.
        replace (53 + e - 1) with (52 + e) by lia.
        rewrite !Z.pow_add_r by lia. nia. }
      rewrite Hd', Z.min_r by lia. change (- 0) with 0.
      rewrite Z.pow_0_r, Z.mul_1_r, Z2Pos.id by lia.
      rewrite binary_round_aux_exact by lia. done.
    + done.
    + fold d. lia.
Qed.

Lemma parseFloat_integerText (z : Z) :
  parseFloat_string (integerText z) = num_of_Z z.
Proof. apply parseFloat_integer_chars. lia. Qed.

Lemma of_decimal_integer (s : bool) (p : positive) :
  of_decimal s (Zpos p) 0 = round_ratio s p 1.
Proof. unfold of_decimal. simpl. by rewrite Pos.mul_1_r. Qed.

Lemma filter_locale_integer (keep : ascii -> bool) (s : bool) (X : Z) :
  keep ","%char = false -> keep "-"%char = true ->
  forallb keep (chars "0123456789") = true ->
  0 <= X ->
  List.filter keep (signChars s ++ group_thousands (decimal_digits X))
  = signChars s ++ decimal_digits X.
Proof.
  intros Hcomma Hminus Hdigits HX. rewrite List.filter_app. f_equal.
  - destruct s; simpl; [by rewrite Hminus | done].
  - apply filter_group_thousands; [done |].
    apply forallb_digit_keep; [done |]. by apply decimal_digits_all_digits.
Qed.

Lemma chars_of_chars (l : list ascii) : chars (of_chars l) = l.
Proof. apply list_ascii_of_string_of_list_ascii. Qed.

(** Stripping the display text of an integer and parsing it gives the number
    back. *)
Lemma finite_not_NaN (x : number) : is_finite x = true -> isNaN x = false.
Proof. by destruct x. Qed.

(** Below [2 ^ 53] the number of an integer is that integer exactly. *)

Lemma exact_Z_num_of_Z (z : Z) :
  Z.abs z < 2 ^ 53 ->
  is_finite (num_of_Z z) = true /\ exact_Z (num_of_Z z) = Some z.
Proof.
  intros Hsafe. unfold num_of_Z.
  destruct (Z.abs z) as [| p | p] eqn:Habs; [| | lia].
  { assert (z = 0) as -> by lia. by vm_compute. }
  rewrite of_decimal_integer.
  pose proof (digits2_bounds p) as Hp.
  assert (Hd : Zpos (digits2_pos p) <= 53).
  { destruct (Z.le_gt_cases (Zpos (digits2_pos p)) 53) as [| Hgt]; [done |].
    assert (2 ^ 53 <= 2 ^ (Zpos (digits2_pos p) - 1)) by (apply Z.pow_le_mono_r; lia).
    lia. }
  assert (Hfin : is_finite (round_ratio (z <? 0) p 1) = true).
  { rewrite round_ratio_unfold.
    set (d := Zpos (digits2_pos p)) in *.
    assert (Hpow : 0 < 2 ^ (53 - d)) by (apply Z.pow_pos_nonneg; lia).
    rewrite Z.min_l by lia.
    replace (Zpos p * 2 ^ (- (d - 54))) with (Zpos p * 2 ^ (53 - d) * 2 ^ 1)
      by (rewrite <- Z.mul_assoc, <- Z.pow_add_r by lia; do 2 f_equal; lia).
    rewrite binary_round_aux_exact; [done | | lia | lia].
    assert (E1 : 2 ^ 52 = 2 ^ (d - 1) * 2 ^ (53 - d))
      by (rewrite <- Z.pow_add_r by lia; f_equal; lia).
    assert (E2 : 2 ^ 53 = 2 ^ d * 2 ^ (53 - d))
      by (rewrite <- Z.pow_add_r by lia; f_equal; lia).
    rewrite E1, E2. nia. }
  split; [done |].
  destruct (round_ratio_integer (z <? 0) p Hfin) as (X & _ & Hexact & _ & _ & HX).
  rewrite Hexact, (HX Hd). f_equal.
  destruct (Z.ltb_spec z 0); simpl; lia.
Qed.

Lemma exact_Z_large (p : positive) (n : Z) :
  2 ^ 53 <= Zpos p -> exact_Z (num_of_Z (Zpos p)) = Some n -> 2 ^ 53 <= n.
Proof.
  intros Hp. unfold num_of_Z.
  change (Zpos p <? 0) with false. change (Z.abs (Zpos p)) with (Zpos p).
  rewrite of_decimal_integer, round_ratio_unfold.
  pose proof (digits2_bounds p) as Hb.
  set (d := Zpos (digits2_pos p)) in *.
  assert (Hd : 54 <= d).
  { destruct (Z.le_gt_cases 54 d) as [| Hlt]; [done |].
    assert (2 ^ d <= 2 ^ 53) by (apply Z.pow_le_mono_r; lia). lia. }
  rewrite Z.min_r by lia. change (- 0) with 0. rewrite Z.pow_0_r, Z.mul_1_r.
  intros Hexact.
  assert (Hfin : is_finite (binary_round_aux prec emax false (Zpos p) 0 loc_Exact) = true).
  { unfold exact_Z in Hexact. by destruct (is_finite _). }
  destruct (binary_round_aux_large false p) as (m & e & Hx & Hm & He);
    [fold d; lia | done |].
  rewrite Hx in Hexact. unfold exact_Z in Hexact. cbn [is_finite abs_ratio sign_of] in Hexact.
  destruct (Z.leb_spec 0 e); [| lia].
  rewrite Z.mod_1_r, Z.div_1_r in Hexact. simpl in Hexact.
  injection Hexact as <-.
  assert (2 ^ 1 <= 2 ^ e) by (apply Z.pow_le_mono_r; lia).
  change (2 ^ 53) with (2 ^ 52 * 2 ^ 1). nia.
Qed.

(** Below [2 ^ 53] distinct integers are distinct numbers. *)
Lemma num_of_Z_inj_small (a b : Z) :
  0 < a -> 0 < b < 2 ^ 53 -> num_of_Z a = num_of_Z b -> a = b.
Proof.
  intros Ha Hb Heq.
  destruct (exact_Z_num_of_Z b) as [_ Hexb]; [lia |].
  destruct (Z.lt_ge_cases a (2 ^ 53)) as [Hsmall | Hlarge].
  - destruct (exact_Z_num_of_Z a) as [_ Hexa]; [lia |]. congruence.
  - destruct a as [| p | p]; try lia.
    rewrite <- Heq in Hexb. pose proof (exact_Z_large p b Hlarge Hexb). lia.
Qed.

(** ** The shortest decimal of an integer *)

Lemma parseFloat_digit_chars (neg : bool) (l : list ascii) :
  l <> [] -> forallb is_digit l = true ->
  parseFloat_string (of_chars (signChars neg ++ l))
  = of_decimal neg (digits_value l) 0.
Proof.
  intros Hne Hall. unfold parseFloat_string, chars, of_chars.
  rewrite list_ascii_of_string_of_list_ascii.
  destruct l as [| c ds]; [done |].
  assert (Hc : In c (chars "0123456789")).
  { apply is_digit_cases. simpl in Hall. by apply andb_true_iff in Hall as [? _]. }
  assert (Hparse : parse_unsigned neg (c :: ds)
                   = Some (LitDecimal neg (digits_value (c :: ds)) 0)).
  { unfold parse_unsigned.
    assert (Hinf : starts_with (chars "Infinity") (c :: ds) = false).
    { vm_compute in Hc. repeat (destruct Hc as [<- | Hc]; [reflexivity |]). done. }
    by rewrite Hinf, (span_digits_all _ Hall). }
  destruct neg; unfold signChars; simpl app.
  - simpl. by rewrite Hparse.
  - vm_compute in Hc.
    repeat (destruct Hc as [<- | Hc]; [simpl; rewrite Hparse; reflexivity |]). done.
Qed.

Lemma digits_value_zeros (ds : list ascii) (j : nat) :
  digits_value (ds ++ zeros j) = digits_value ds * 10 ^ Z.of_nat j.
Proof.
  induction j as [| j IH].
  - simpl. rewrite app_nil_r. lia.
  - unfold zeros in *. cbn [repeat]. rewrite repeat_cons, app_assoc.
    rewrite digits_value_snoc, IH.
    change (digit_val "0") with 0.
    rewrite Nat2Z.inj_succ, Z.pow_succ_r by lia. lia.
Qed.

Lemma forallb_is_digit_zeros (j : nat) : forallb is_digit (zeros j) = true.
Proof. induction j as [| j IH]; [done |]. simpl. exact IH. Qed.

Lemma of_decimal_scale (s j : Z) :
  0 < s -> 0 <= j -> of_decimal false s j = of_decimal false (s * 10 ^ j) 0.
Proof.
  intros Hs Hj.
  assert (Hpow : 0 < 10 ^ j) by (apply Z.pow_pos_nonneg; lia).
  destruct s as [| p | p]; try lia.
  unfold of_decimal at 1. destruct (Z.leb_spec 0 j); [| lia].
  assert (Zpos p * 10 ^ j = Zpos (p * Z.to_pos (10 ^ j))) as ->
    by (rewrite Pos2Z.inj_mul, Z2Pos.id by lia; done).
  by rewrite of_decimal_integer.
Qed.

Lemma SFeqb_finite_eq (a : number) (m : positive) (e : Z) :
  SFeqb a (S754_finite false m e) = true -> a = S754_finite false m e.
Proof.
  unfold SFeqb, SFcompare.
  destruct a as [sa | sa | | sa ma ea]; try (by destruct sa); try done.
  destruct sa; [done |].
  destruct (Z.compare_spec ea e) as [-> | |]; try done.
  change (Pos.compare_cont Eq ma m) with (Pos.compare ma m).
  destruct (Pos.compare_spec ma m) as [-> | |]; done.
Qed.

Lemma SFeqb_finite_refl (m : positive) (e : Z) :
  SFeqb (S754_finite false m e) (S754_finite false m e) = true.
Proof.
  unfold SFeqb, SFcompare. rewrite Z.compare_refl.
  change (Pos.compare_cont Eq m m) with (Pos.compare m m).
  by rewrite Pos.compare_refl.
Qed.

(** A non-zero integer below [2 ^ 53] in absolute value as a number: the
    mantissa and the exponent are those of its absolute value. *)
Lemma num_of_Z_form (z : Z) :
  0 < Z.abs z < 2 ^ 53 ->
  exists m e,
    num_of_Z z = S754_finite (z <? 0) m e
    /\ num_of_Z (Z.abs z) = S754_finite false m e
    /\ -52 <= e <= 0
    /\ Zpos m = Z.abs z * 2 ^ (- e)
    /\ 2 ^ 52 <= Zpos m < 2 ^ 53.
Proof.
  intros Hn. unfold num_of_Z.
  destruct (Z.ltb_spec (Z.abs z) 0); [lia |].
  rewrite (Z.abs_eq (Z.abs z)) by lia.
  destruct (Z.abs z) as [| p | p]; try lia.
  rewrite !of_decimal_integer, !round_ratio_unfold.
  pose proof (digits2_bounds p) as Hp.
  set (d := Zpos (digits2_pos p)) in *.
  assert (Hd : 1 <= d <= 53).
  { split; [lia |]. destruct (Z.le_gt_cases d 53) as [| Hgt]; [done |].
    assert (2 ^ 53 <= 2 ^ (d - 1)) by (apply Z.pow_le_mono_r; lia). lia. }
  assert (Hpow : 0 < 2 ^ (53 - d)) by (apply Z.pow_pos_nonneg; lia).
  assert (E1 : 2 ^ 52 = 2 ^ (d - 1) * 2 ^ (53 - d))
    by (rewrite <- Z.pow_add_r by lia; f_equal; lia).
  assert (E2 : 2 ^ 53 = 2 ^ d * 2 ^ (53 - d))
    by (rewrite <- Z.pow_add_r by lia; f_equal; lia).
  assert (Hm : 2 ^ 52 <= Zpos p * 2 ^ (53 - d) < 2 ^ 53) by (rewrite E1, E2; nia).
  rewrite Z.min_l by lia.
  replace (Zpos p * 2 ^ (- (d - 54))) with (Zpos p * 2 ^ (53 - d) * 2 ^ 1)
    by (rewrite <- Z.mul_assoc, <- Z.pow_add_r by lia; do 2 f_equal; lia).
  rewrite !binary_round_aux_exact by (done || lia).
  exists (Z.to_pos (Zpos p * 2 ^ (53 - d))), (d - 54 + 1).
  split; [done |]. split; [done |]. split; [lia |].
  rewrite Z2Pos.id by lia.
  replace (- (d - 54 + 1)) with (53 - d) by lia. done.
Qed.

(** A positive integer below [2 ^ 53] as a number. *)
Lemma num_of_Z_finite_form (n : Z) :
  0 < n < 2 ^ 53 ->
  exists m e,
    num_of_Z n = S754_finite false m e
    /\ -52 <= e <= 0
    /\ Zpos m = n * 2 ^ (- e)
    /\ 2 ^ 52 <= Zpos m < 2 ^ 53.
Proof.
  intros Hn.
  destruct (num_of_Z_form n) as (m & e & _ & Hx & He & Hm & Hrange);
    [rewrite Z.abs_eq by lia; lia |].
  rewrite Z.abs_eq in Hx, Hm by lia. by exists m, e.
Qed.

Lemma adjust_down_bounds (fuel : nat) (num den n : Z) :
  ge_pow10 num den 0 = true -> 1 <= n ->
  1 <= adjust_down fuel num den n <= n.
Proof.
  intros H0. revert n. induction fuel as [| fuel IH]; intros n Hn; simpl; [lia |].
  destruct (ge_pow10 num den (n - 1)) eqn:Hge; [lia |].
  assert (n <> 1) by (intros ->; change (1 - 1) with 0 in Hge; congruence).
  specialize (IH (n - 1)). lia.
Qed.

Lemma adjust_up_bounds (fuel : nat) (num den n top : Z) :
  ge_pow10 num den top = false -> n <= top ->
  n <= adjust_up fuel num den n <= top.
Proof.
  intros Htop. revert n. induction fuel as [| fuel IH]; intros n Hn; simpl; [lia |].
  destruct (ge_pow10 num den n) eqn:Hge; [| lia].
  assert (n <> top) by (intros ->; congruence).
  specialize (IH (n + 1)). lia.
Qed.

Lemma decimal_position_bounds (m : positive) (e n : Z) :
  -52 <= e <= 0 -> 0 < n < 2 ^ 53 -> Zpos m = n * 2 ^ (- e) ->
  2 ^ 52 <= Zpos m < 2 ^ 53 ->
  1 <= decimal_position (Zpos m) (2 ^ (- e)) <= 16.
Proof.
  intros He Hn Hm Hrange. unfold decimal_position.
  assert (Hpow : 0 < 2 ^ (- e)) by (apply Z.pow_pos_nonneg; lia).
  assert (Hlm : Z.log2 (Zpos m) = 52) by (apply Z.log2_unique; lia).
  assert (Hld : Z.log2 (2 ^ (- e)) = - e) by (apply Z.log2_pow2; lia).
  rewrite Hlm, Hld.
  set (guess := (52 - - e) * 30103 / 100000).
  assert (Hguess : 0 <= guess <= 15).
  { unfold guess. split.
    - apply Z.div_pos; lia.
    - assert ((52 - - e) * 30103 / 100000 < 16)
        by (apply Z.div_lt_upper_bound; lia).
      lia. }
  assert (H0 : ge_pow10 (Zpos m) (2 ^ (- e)) 0 = true).
  { unfold ge_pow10. simpl Z.leb. cbv iota. apply Z.leb_le. nia. }
  assert (H16 : ge_pow10 (Zpos m) (2 ^ (- e)) 16 = false).
  { unfold ge_pow10. simpl Z.leb. cbv iota. apply Z.leb_gt.
    assert (2 ^ 53 < 10 ^ 16) by done. nia. }
  pose proof (adjust_down_bounds 4 _ _ (guess + 1) H0 ltac:(lia)) as Hdown.
  assert (Hle : adjust_down 4 (Zpos m) (2 ^ (- e)) (guess + 1) <= 16) by lia.
  pose proof (adjust_up_bounds 4 _ _ _ 16 H16 Hle) as Hup.
  lia.
Qed.

Lemma nearest_digits_position (num den n k : Z) :
  (nearest_digits num den n k).2 = n \/ (nearest_digits num den n k).2 = n + 1.
Proof.
  unfold nearest_digits. cbv zeta.
  match goal with |- context [if ?b then _ else _] =>
    destruct b; cbn [snd]; tauto end.
Qed.

Lemma nearest_digits_exact (num den X pos : Z) :
  0 < den -> num = X * den -> 0 < X -> 1 <= pos ->
  0 < (nearest_digits num den pos pos).1
  /\ 0 <= (nearest_digits num den pos pos).2 - pos
  /\ (nearest_digits num den pos pos).1
     * 10 ^ ((nearest_digits num den pos pos).2 - pos) = X.
Proof.
  intros Hden Hnum HX Hpos. unfold nearest_digits. cbv zeta.
  rewrite Z.sub_diag. change (0 <=? 0) with true. cbv iota.
  assert (Hround : round_half_even num (den * 10 ^ 0) = X).
  { unfold round_half_even. rewrite Z.pow_0_r, Z.mul_1_r, Hnum.
    rewrite Z.div_mul, Z.mod_mul by lia. cbv zeta.
    destruct (Z.compare_spec (2 * 0) den); lia. }
  rewrite Hround.
  destruct (Z.eqb_spec X (10 ^ pos)) as [-> | _]; cbn [fst snd].
  - replace (pos + 1 - pos) with 1 by lia.
    assert (0 < 10 ^ (pos - 1)) by (apply Z.pow_pos_nonneg; lia).
    split; [done |]. split; [lia |].
    rewrite <- Z.pow_add_r by lia. f_equal. lia.
  - rewrite Z.sub_diag. split; [done |]. split; [lia |]. simpl. lia.
Qed.

Lemma shortest_digits_found (fuel : nat) (x : number) (num den pos k : Z) :
  SFeqb (of_decimal false (nearest_digits num den pos pos).1
           ((nearest_digits num den pos pos).2 - pos)) (SFabs x) = true ->
  1 <= k <= pos -> pos - k < Z.of_nat fuel ->
  exists s n' k',
    shortest_digits fuel x num den pos k = (s, n', k')
    /\ 1 <= k' <= n' /\ n' <= pos + 1
    /\ SFeqb (of_decimal false s (n' - k')) (SFabs x) = true.
Proof.
  intros Hcheck. revert k. induction fuel as [| fuel IH]; intros k Hk Hfuel; [lia |].
  cbn [shortest_digits].
  pose proof (nearest_digits_position num den pos k) as Hpos.
  destruct (nearest_digits num den pos k) as [s n'] eqn:Hnear. cbn [snd] in Hpos.
  destruct (SFeqb (of_decimal false s (n' - k)) (SFabs x)) eqn:Hthis.
  - exists s, n', k. split; [done |]. split; [lia |]. split; [lia | done].
  - assert (k <> pos).
    { intros ->. rewrite Hnear in Hcheck. cbn [fst snd] in Hcheck. congruence. }
    apply IH; lia.
Qed.

(** The digits [Number::toString] and [toLocaleString] start from, for an
    integer [n] below [2 ^ 53] of either sign: [k] digits [s] followed by
    [pos - k] zeros, which is [n] exactly. *)
Lemma shortest_digits_integer (n : Z) (sg : bool) (m : positive) (e : Z) :
  0 < n < 2 ^ 53 ->
  num_of_Z n = S754_finite false m e ->
  -52 <= e <= 0 -> Zpos m = n * 2 ^ (- e) -> 2 ^ 52 <= Zpos m < 2 ^ 53 ->
  abs_ratio (S754_finite sg m e) = (Zpos m, 2 ^ (- e))
  /\ exists s pos k,
      shortest_digits 16 (S754_finite sg m e) (Zpos m) (2 ^ (- e))
        (decimal_position (Zpos m) (2 ^ (- e))) 1 = (s, pos, k)
      /\ 1 <= k <= pos /\ pos <= 17 /\ 0 < s /\ s * 10 ^ (pos - k) = n.
Proof.
  intros Hn Hx He Hm Hrange.
  assert (Hpow : 0 < 2 ^ (- e)) by (apply Z.pow_pos_nonneg; lia).
  split.
  { unfold abs_ratio. destruct (Z.leb_spec 0 e); [| done].
    assert (e = 0) as -> by lia. simpl. f_equal. lia. }
  pose proof (decimal_position_bounds m e n He Hn Hm Hrange) as Hpos.
  set (pos := decimal_position (Zpos m) (2 ^ (- e))) in *.
  destruct (nearest_digits_exact (Zpos m) (2 ^ (- e)) n pos) as (Hs & Hj & Hvalue);
    [lia | done | lia | lia |].
  assert (Hnum : forall a, 0 < a -> of_decimal false a 0 = num_of_Z a).
  { intros a Ha. unfold num_of_Z. destruct (Z.ltb_spec a 0); [lia |].
    by rewrite Z.abs_eq by lia. }
  destruct (shortest_digits_found 16 (S754_finite sg m e) (Zpos m) (2 ^ (- e)) pos 1)
    as (s & n' & k & Hloop & Hk & Hn' & Hcheck); [| lia | lia |].
  { cbn [SFabs]. rewrite of_decimal_scale, Hvalue, Hnum, Hx by lia.
    apply SFeqb_finite_refl. }
  cbn [SFabs] in Hcheck. apply SFeqb_finite_eq in Hcheck.
  assert (Hspos : 0 < s).
  { destruct s as [| p | p]; [done | lia | done]. }
  exists s, n', k. split; [done |]. split; [lia |]. split; [lia |].
  split; [done |].
  assert (0 < 10 ^ (n' - k)) by (apply Z.pow_pos_nonneg; lia).
  apply num_of_Z_inj_small; [nia | done |].
  rewrite <- Hnum, <- of_decimal_scale by (lia || nia). by rewrite Hcheck, Hx.
Qed.

(** A non-zero integer below [2 ^ 53] in absolute value, as a number, is
    printed by [Number::toString] as a text that reads back as the number. *)
Lemma Number_toString_reads_back (z : Z) :
  0 < Z.abs z < 2 ^ 53 ->
  parseFloat_string (Number_toString (num_of_Z z)) = num_of_Z z.
Proof.
  intros Hz.
  destruct (num_of_Z_form z Hz) as (m & e & Hx & Habs & He & Hm & Hrange).
  destruct (shortest_digits_integer (Z.abs z) (z <? 0) m e Hz Habs He Hm Hrange)
    as (Hratio & s & pos & k & Hloop & Hk & Hpos & Hs & Hvalue).
  rewrite Hx at 1. unfold Number_toString. rewrite Hratio, Hloop.
  destruct (Z.leb_spec k pos); [| lia]. destruct (Z.leb_spec pos 21); [| lia].
  cbn [andb]. cbv zeta.
  assert (Hsign : forall body,
             (if z <? 0 then "-"%char :: body else body)
             = signChars (z <? 0) ++ body) by (by destruct (z <? 0)).
  rewrite Hsign, parseFloat_digit_chars.
  - rewrite digits_value_zeros, decimal_digits_value by lia.
    rewrite Z2Nat.id by lia. rewrite Hvalue. done.
  - pose proof (decimal_digits_nonempty s). by destruct (decimal_digits s).
  - rewrite forallb_app, decimal_digits_all_digits by lia.
    apply forallb_is_digit_zeros.
Qed.

(** ** Rounding an integer near a number *)

Lemma shr_1_loc (r : shr_record) :
  0 <= shr_m r ->
  shr_r (shr_1 r) = Z.odd (shr_m r) /\ shr_s (shr_1 r) = shr_r r || shr_s r.
Proof. destruct r as [[| [p | p |] | p] r s]; simpl; try lia; by split. Qed.

Lemma shifted_rec0 (D : Z) : 0 <= D -> shifted D 0 (rec0 D).
Proof.
  intros HD. unfold shifted, rec0. cbn [shr_m shr_r shr_s]. cbv zeta.
  rewrite Z.pow_0_r, Z.mul_1_r, Z.sub_diag. by repeat split; try lia.
Qed.

Lemma shifted_shr_1 (D j : Z) (r : shr_record) :
  0 <= j -> shifted D j r -> shifted D (j + 1) (shr_1 r).
Proof.
  intros Hj (Hm & Hrem & Hr & Hs). unfold shifted. cbv zeta.
  destruct (shr_1_loc r Hm) as [Hr' Hs']. rewrite (shr_1_m r Hm), Hr', Hs', Hr, Hs.
  rewrite Z.pow_add_r, Z.pow_1_r by lia.
  assert (HP : 0 < 2 ^ j) by (apply Z.pow_pos_nonneg; lia).
  set (P := 2 ^ j) in *. set (m := shr_m r) in *.
  pose proof (Z.div_mod m 2 ltac:(lia)) as Hdiv.
  pose proof (Zmod_odd m) as Hodd.
  pose proof (Z.div_pos m 2 Hm ltac:(lia)) as Hq.
  set (q := m / 2) in *.
  assert (Hrem' : D - q * (P * 2)
                  = D - m * P + (if Z.odd m then P else 0)).
  { destruct (Z.odd m); nia. }
  rewrite Hrem'. set (rem := D - m * P) in *.
  split; [done |]. destruct (Z.odd m).
  - split; [lia |]. split.
    + symmetry. apply Z.leb_le. lia.
    + destruct (Z.leb_spec P (2 * rem)), (Z.eqb_spec rem 0),
        (Z.eqb_spec (2 * rem) P), (Z.eqb_spec (rem + P) 0),
        (Z.eqb_spec (2 * (rem + P)) (P * 2)); simpl; try lia; done.
  - rewrite Z.add_0_r. split; [lia |]. split.
    + symmetry. apply Z.leb_gt. lia.
    + destruct (Z.leb_spec P (2 * rem)), (Z.eqb_spec rem 0),
        (Z.eqb_spec (2 * rem) P), (Z.eqb_spec (2 * rem) (P * 2));
        simpl; try lia; done.
Qed.

Lemma shifted_iter (n : positive) (D j : Z) (r : shr_record) :
  0 <= j -> shifted D j r ->
  shifted D (j + Zpos n) (SpecFloat.iter_pos shr_1 n r).
Proof.
  revert j r. induction n as [n IH | n IH |]; intros j r Hj Hr; cbn [SpecFloat.iter_pos].
  - replace (j + Zpos n~1) with (j + 1 + Zpos n + Zpos n) by lia.
    apply IH; [lia |]. apply IH; [lia |]. by apply shifted_shr_1.
  - replace (j + Zpos n~0) with (j + Zpos n + Zpos n) by lia.
    apply IH; [lia |]. by apply IH.
  - by apply shifted_shr_1.
Qed.

(** An integer [D] closer to the number [m * 2 ^ e] than to its neighbours
    rounds to it. *)
Lemma round_near (s : bool) (D m e : Z) :
  2 ^ 52 <= m < 2 ^ 53 -> 1 <= e <= 971 ->
  2 * Z.abs (D - m * 2 ^ e) < 2 ^ e ->
  (m = 2 ^ 52 -> D < m * 2 ^ e -> 4 * (m * 2 ^ e - D) < 2 ^ e) ->
  binary_round_aux prec emax s D 0 loc_Exact = S754_finite s (Z.to_pos m) e.
Proof.
  intros Hm He Hnear Hedge.
  assert (HP : 2 <= 2 ^ e).
  { change 2 with (2 ^ 1) at 1. apply Z.pow_le_mono_r; lia. }
  destruct (Z.le_gt_cases (2 ^ 52 * 2 ^ e) D) as [Hsame | Hbelow].
  - assert (Hd : Zdigits2 D = 53 + e).
    { apply Zdigits2_unique. replace (53 + e - 1) with (52 + e) by lia.
      rewrite !Z.pow_add_r by lia. split; [done | nia]. }
    unfold binary_round_aux, shr_fexp. rewrite Hd, fexp64, Z.max_l by lia.
    replace (53 + e + 0 - 53 - 0) with e by lia.
    destruct e as [| n |]; try lia. unfold shr. cbn [shr_record_of_loc].
    fold (rec0 D).
    pose proof (shifted_iter n D 0 (rec0 D) ltac:(lia)
                  (shifted_rec0 D ltac:(lia))) as Hshift.
    rewrite Z.add_0_l in Hshift.
    destruct (SpecFloat.iter_pos shr_1 n (rec0 D)) as [m1 r1 s1].
    destruct Hshift as (Hm1 & Hrem & Hr1 & Hs1). cbn [shr_m shr_r shr_s] in *.
    set (P := 2 ^ Zpos n) in *.
    assert (Hround : round_nearest_even m1
                       (loc_of_shr_record {| shr_m := m1; shr_r := r1; shr_s := s1 |})
                     = m).
    { destruct (Z.le_gt_cases (m * P) D) as [Hup | Hdown].
      - assert (m1 = m) as -> by nia.
        assert (r1 = false) as -> by (rewrite Hr1; apply Z.leb_gt; lia).
        by destruct s1.
      - assert (m1 = m - 1) as -> by nia.
        assert (r1 = true) as -> by (rewrite Hr1; apply Z.leb_le; lia).
        assert (s1 = true) as ->.
        { rewrite Hs1. destruct (Z.eqb_spec (D - (m - 1) * P) 0); [lia |].
          destruct (Z.eqb_spec (2 * (D - (m - 1) * P)) P); [lia | done]. }
        simpl. lia. }
    rewrite Hround.
    assert (Hd' : Zdigits2 m = 53) by (by apply Zdigits2_unique).
    rewrite Hd', fexp64, Z.max_l by lia.
    replace (53 + (0 + Zpos n) - 53 - (0 + Zpos n)) with 0 by lia.
    cbv iota. cbn [shr_record_of_loc shr_m].
    destruct m as [| p | p]; try lia. simpl Z.to_pos.
    change (emax - prec) with 971.
    destruct (Z.leb_spec (0 + Zpos n) 971); [done | lia].
  - assert (m = 2 ^ 52) as -> by nia.
    specialize (Hedge eq_refl Hbelow).
    assert (He2 : 2 <= e).
    { destruct (Z.eq_dec e 1) as [-> | ]; [| lia]. change (2 ^ 1) with 2 in *. lia. }
    assert (HP' : 2 ^ e = 2 * 2 ^ (e - 1)).
    { rewrite <- Z.pow_succ_r by lia. f_equal. lia. }
    assert (HQ : 0 < 2 ^ (e - 1)) by (apply Z.pow_pos_nonneg; lia).
    assert (Hd : Zdigits2 D = 52 + e).
    { apply Zdigits2_unique. replace (52 + e - 1) with (52 + (e - 1)) by lia.
      rewrite !Z.pow_add_r by lia. split; [lia | nia]. }
    unfold binary_round_aux, shr_fexp. rewrite Hd, fexp64, Z.max_l by lia.
    replace (52 + e + 0 - 53 - 0) with (e - 1) by lia.
    destruct (e - 1) as [| n |] eqn:Hn; try lia. unfold shr. cbn [shr_record_of_loc].
    fold (rec0 D).
    pose proof (shifted_iter n D 0 (rec0 D) ltac:(lia)
                  (shifted_rec0 D ltac:(lia))) as Hshift.
    rewrite Z.add_0_l in Hshift.
    destruct (SpecFloat.iter_pos shr_1 n (rec0 D)) as [m1 r1 s1].
    destruct Hshift as (Hm1 & Hrem & Hr1 & Hs1). cbn [shr_m shr_r shr_s] in *.
    set (Q := 2 ^ Zpos n) in *.
    assert (m1 = 2 ^ 53 - 1) as -> by nia.
    assert (r1 = true) as -> by (rewrite Hr1; apply Z.leb_le; lia).
    assert (s1 = true) as ->.
    { rewrite Hs1. destruct (Z.eqb_spec (D - (2 ^ 53 - 1) * Q) 0); [lia |].
      destruct (Z.eqb_spec (2 * (D - (2 ^ 53 - 1) * Q)) Q); [lia | done]. }
    cbn [loc_of_shr_record round_nearest_even].
    change (2 ^ 53 - 1 + 1) with (2 ^ 53). change (Zdigits2 (2 ^ 53)) with 54.
    rewrite fexp64, Z.max_l by lia.
    replace (54 + (0 + Zpos n) - 53 - (0 + Zpos n)) with 1 by lia.
    cbn [shr shr_m shr_record_of_loc SpecFloat.iter_pos].
    change (shr_1 {| shr_m := 2 ^ 53; shr_r := false; shr_s := false |})
      with (rec0 (2 ^ 52)).
    cbn [rec0 shr_m]. change (2 ^ 52) with (Zpos (2 ^ 52)).
    change (emax - prec) with 971.
    destruct (Z.leb_spec (0 + Zpos n + 1) 971); [| lia].
    f_equal. lia.
Qed.

(** The sign of a rounded number is the sign it is given; the rest does not
    depend on it. *)
Lemma binary_round_aux_sign_indep (s s' : bool) (D e : Z) (l : location)
    (m : positive) (e' : Z) :
  binary_round_aux prec emax s D e l = S754_finite s m e' ->
  binary_round_aux prec emax s' D e l = S754_finite s' m e'.
Proof.
  unfold binary_round_aux. destruct (shr_fexp prec emax D e l) as [mrs1 e1].
  destruct (shr_fexp prec emax _ e1 loc_Exact) as [mrs2 e2].
  destruct (shr_m mrs2) as [| p | p]; [done | | done].
  destruct (e2 <=? emax - prec); [| done]. by intros [= -> ->].
Qed.

Lemma of_decimal_large (s : bool) (V : Z) :
  2 ^ 53 <= V ->
  of_decimal s V 0 = binary_round_aux prec emax s V 0 loc_Exact.
Proof.
  intros HV. destruct V as [| p | p]; try lia.
  rewrite of_decimal_integer, round_ratio_unfold.
  pose proof (digits2_bounds p) as Hb.
  set (d := Zpos (digits2_pos p)) in *.
  assert (Hd : 54 <= d).
  { destruct (Z.le_gt_cases 54 d) as [| Hlt]; [done |].
    assert (2 ^ d <= 2 ^ 53) by (apply Z.pow_le_mono_r; lia). lia. }
  rewrite Z.min_r by lia. change (- 0) with 0. by rewrite Z.pow_0_r, Z.mul_1_r.
Qed.

(** The number of an integer of [2 ^ 53] or more, when it is finite. *)
Lemma num_of_Z_large_form (z : Z) :
  2 ^ 53 <= Z.abs z -> is_finite (num_of_Z z) = true ->
  exists m e,
    (forall s, of_decimal s (Z.abs z) 0 = S754_finite s m e)
    /\ 2 ^ 52 <= Zpos m < 2 ^ 53 /\ 1 <= e <= 971.
Proof.
  intros Hz Hfin. unfold num_of_Z in Hfin.
  rewrite of_decimal_large in Hfin by done.
  destruct (Z.abs z) as [| p | p] eqn:Habs; try lia.
  pose proof (digits2_bounds p) as Hb.
  assert (Hd : 54 <= Zpos (digits2_pos p)).
  { destruct (Z.le_gt_cases 54 (Zpos (digits2_pos p))) as [| Hlt]; [done |].
    assert (2 ^ Zpos (digits2_pos p) <= 2 ^ 53) by (apply Z.pow_le_mono_r; lia).
    lia. }
  destruct (binary_round_aux_large (z <? 0) p Hd Hfin) as (m & e & Hx & Hm & He).
  exists m, e. split; [| done]. intros s. rewrite of_decimal_large by lia.
  by apply (binary_round_aux_sign_indep (z <? 0)).
Qed.

(** *** The position of the decimal point of a large integer *)

(** The guess of the position, made from the binary logarithm, is within
    three places below and four above, for every binary64 exponent. *)
Lemma pow10_guess :
  forallb (fun L => (10 ^ (L * 30103 / 100000 - 3) <=? 2 ^ L)
                    && (2 ^ (L + 1) <=? 10 ^ (L * 30103 / 100000 + 4)))
    (map Z.of_nat (seq 0 1100)) = true.
Proof. by vm_compute. Qed.

Lemma ge_pow10_integer (X k : Z) :
  0 < X -> ge_pow10 X 1 k = true <-> 10 ^ k <= X.
Proof.
  intros HX. unfold ge_pow10. destruct (Z.leb_spec 0 k) as [Hk | Hk].
  - rewrite Z.mul_1_l. apply Z.leb_le.
  - rewrite (Z.pow_neg_r 10 k) by lia.
    assert (0 < 10 ^ (- k)) by (apply Z.pow_pos_nonneg; lia).
    rewrite Z.leb_le. split; [lia | nia].
Qed.

Lemma adjust_down_spec (fuel : nat) (num den n : Z) :
  (exists i, 0 <= i < Z.of_nat fuel /\ ge_pow10 num den (n - 1 - i) = true) ->
  ge_pow10 num den (adjust_down fuel num den n - 1) = true
  /\ (adjust_down fuel num den n = n
      \/ (adjust_down fuel num den n < n
          /\ ge_pow10 num den (adjust_down fuel num den n) = false)).
Proof.
  revert n. induction fuel as [| fuel IH]; intros n (i & Hi & Hge); [lia |].
  cbn [adjust_down]. destruct (ge_pow10 num den (n - 1)) eqn:Hn; [by split; [| left] |].
  destruct (Z.eq_dec i 0) as [-> | Hi0].
  { rewrite Z.sub_0_r in Hge. congruence. }
  destruct (IH (n - 1)) as [Hres Hcases].
  { exists (i - 1). split; [lia |]. by replace (n - 1 - 1 - (i - 1)) with (n - 1 - i) by lia. }
  split; [done |]. right. destruct Hcases as [-> | [Hlt Hfalse]]; [by split; [lia |] |].
  split; [lia | done].
Qed.

Lemma adjust_up_spec (fuel : nat) (num den n : Z) :
  ge_pow10 num den (n - 1) = true ->
  (exists i, 0 <= i < Z.of_nat fuel /\ ge_pow10 num den (n + i) = false) ->
  ge_pow10 num den (adjust_up fuel num den n - 1) = true
  /\ ge_pow10 num den (adjust_up fuel num den n) = false.
Proof.
  revert n. induction fuel as [| fuel IH]; intros n Hlow (i & Hi & Hge); [lia |].
  cbn [adjust_up]. destruct (ge_pow10 num den n) eqn:Hn; [| by split].
  destruct (Z.eq_dec i 0) as [-> | Hi0].
  { rewrite Z.add_0_r in Hge. congruence. }
  apply IH.
  - by replace (n + 1 - 1) with n by lia.
  - exists (i - 1). split; [lia |]. by replace (n + 1 + (i - 1)) with (n + i) by lia.
Qed.

Lemma decimal_position_large (X : Z) :
  2 ^ 53 <= X < 2 ^ 1024 ->
  10 ^ (decimal_position X 1 - 1) <= X < 10 ^ decimal_position X 1
  /\ 16 <= decimal_position X 1.
Proof.
  intros HX. unfold decimal_position. change (Z.log2 1) with 0. rewrite Z.sub_0_r.
  set (L := Z.log2 X).
  pose proof (Z.log2_spec X ltac:(lia)) as HL. fold L in HL.
  assert (HLr : 53 <= L < 1024).
  { split.
    - apply Z.log2_le_pow2; lia.
    - apply Z.log2_lt_pow2; lia. }
  set (g := L * 30103 / 100000).
  assert (Hguess : 10 ^ (g - 3) <= 2 ^ L /\ 2 ^ (L + 1) <= 10 ^ (g + 4)).
  { pose proof pow10_guess as Hall. rewrite forallb_forall in Hall.
    specialize (Hall L). rewrite andb_true_iff, !Z.leb_le in Hall. apply Hall.
    apply in_map_iff. exists (Z.to_nat L). split; [lia |]. apply in_seq. lia. }
  replace (Z.succ L) with (L + 1) in HL by lia.
  assert (Hpos : 0 < X) by lia.
  destruct (adjust_down_spec 4 X 1 (g + 1)) as [Hlow Hcases].
  { exists 3. split; [lia |]. replace (g + 1 - 1 - 3) with (g - 3) by lia.
    apply ge_pow10_integer; lia. }
  set (n1 := adjust_down 4 X 1 (g + 1)) in *.
  destruct (adjust_up_spec 4 X 1 n1 Hlow) as [Hlow' Hhigh].
  { destruct Hcases as [Heq | [_ Hfalse]].
    - exists 3. split; [lia |]. rewrite Heq. replace (g + 1 + 3) with (g + 4) by lia.
      destruct (ge_pow10 X 1 (g + 4)) eqn:Hge; [| done].
      apply ge_pow10_integer in Hge; lia.
    - exists 0. split; [lia |]. by rewrite Z.add_0_r. }
  set (n := adjust_up 4 X 1 n1) in *.
  apply ge_pow10_integer in Hlow'; [| done].
  assert (Hlt : X < 10 ^ n).
  { destruct (Z.lt_ge_cases X (10 ^ n)) as [| Hge]; [done |].
    apply ge_pow10_integer in Hge; [| done]. congruence. }
  split; [done |].
  destruct (Z.le_gt_cases 16 n) as [| Hsmall]; [done |].
  assert (10 ^ n <= 10 ^ 15) by (apply Z.pow_le_mono_r; lia).
  assert (10 ^ 15 < 2 ^ 53) by done. lia.
Qed.

(** *** The digits of a large integer *)

Lemma round_half_even_near (num den : Z) :
  0 <= num -> 0 < den ->
  num / den <= round_half_even num den
  /\ 2 * Z.abs (round_half_even num den * den - num) <= den.
Proof.
  intros Hnum Hden. unfold round_half_even. cbv zeta.
  pose proof (Z.div_mod num den ltac:(lia)) as Hdiv.
  pose proof (Z.mod_pos_bound num den Hden) as Hmod.
  destruct (Z.compare_spec (2 * (num mod den)) den);
    [destruct (Z.even (num / den)) | |]; split; nia.
Qed.

Lemma nearest_digits_near (X n k : Z) :
  1 <= k <= n -> 10 ^ (n - 1) <= X < 10 ^ n ->
  0 < (nearest_digits X 1 n k).1
  /\ n <= (nearest_digits X 1 n k).2
  /\ 2 * Z.abs ((nearest_digits X 1 n k).1
                * 10 ^ ((nearest_digits X 1 n k).2 - k) - X)
     <= 10 ^ (n - k).
Proof.
  intros Hk HX. unfold nearest_digits. cbv zeta.
  destruct (Z.leb_spec 0 (n - k)); [| lia]. rewrite Z.mul_1_l.
  assert (HT : 0 < 10 ^ (n - k)) by (apply Z.pow_pos_nonneg; lia).
  assert (HK : 0 < 10 ^ (k - 1)) by (apply Z.pow_pos_nonneg; lia).
  assert (Hsplit : 10 ^ (n - 1) = 10 ^ (k - 1) * 10 ^ (n - k)).
  { rewrite <- Z.pow_add_r by lia. f_equal. lia. }
  destruct (round_half_even_near X (10 ^ (n - k))) as [Hq Hnear]; [lia | done |].
  assert (Hlow : 10 ^ (k - 1) <= X / 10 ^ (n - k))
    by (apply Z.div_le_lower_bound; lia).
  set (s0 := round_half_even X (10 ^ (n - k))) in *.
  destruct (Z.eqb_spec s0 (10 ^ k)) as [Heq | Hne]; cbn [fst snd].
  - split; [done |]. split; [lia |].
    replace (10 ^ (k - 1) * 10 ^ (n + 1 - k)) with (s0 * 10 ^ (n - k)); [done |].
    rewrite Heq, <- !Z.pow_add_r by lia. f_equal. lia.
  - split; [lia |]. split; [lia | done].
Qed.

(** The loop stops at the first count of digits that reads back, and at the
    last count at the latest. *)
Lemma shortest_digits_spec (fuel : nat) (x : number) (num den n k : Z) :
  exists k',
    k <= k' <= k + Z.of_nat fuel
    /\ shortest_digits fuel x num den n k
       = ((nearest_digits num den n k').1, (nearest_digits num den n k').2, k')
    /\ (k' < k + Z.of_nat fuel ->
        SFeqb (of_decimal false (nearest_digits num den n k').1
                 ((nearest_digits num den n k').2 - k')) (SFabs x) = true).
Proof.
  revert k. induction fuel as [| fuel IH]; intros k; cbn [shortest_digits].
  - exists k. split; [lia |]. split; [by destruct (nearest_digits num den n k) | lia].
  - destruct (nearest_digits num den n k) as [s n'] eqn:Hnear.
    destruct (SFeqb (of_decimal false s (n' - k)) (SFabs x)) eqn:Hthis.
    + exists k. rewrite Hnear. split; [lia |]. by split.
    + destruct (IH (k + 1)) as (k' & Hk' & Hloop & Htest).
      exists k'. split; [lia |]. split; [done |]. intros Hlt. apply Htest. lia.
Qed.

Lemma nearest_digits_count (X n k : Z) :
  1 <= k <= n -> 10 ^ (n - 1) <= X < 10 ^ n ->
  10 ^ (k - 1) <= (nearest_digits X 1 n k).1 < 10 ^ k.
Proof.
  intros Hk HX. unfold nearest_digits. cbv zeta.
  destruct (Z.leb_spec 0 (n - k)); [| lia]. rewrite Z.mul_1_l.
  assert (HT : 0 < 10 ^ (n - k)) by (apply Z.pow_pos_nonneg; lia).
  assert (HK : 0 < 10 ^ (k - 1)) by (apply Z.pow_pos_nonneg; lia).
  assert (HK' : 10 ^ k = 10 * 10 ^ (k - 1)).
  { rewrite <- Z.pow_succ_r by lia. f_equal. lia. }
  assert (Hlo : 10 ^ (n - 1) = 10 ^ (k - 1) * 10 ^ (n - k)).
  { rewrite <- Z.pow_add_r by lia. f_equal. lia. }
  assert (Hhi : 10 ^ n = 10 ^ k * 10 ^ (n - k)).
  { rewrite <- Z.pow_add_r by lia. f_equal. lia. }
  destruct (round_half_even_near X (10 ^ (n - k))) as [Hq Hnear]; [lia | done |].
  assert (Hlow : 10 ^ (k - 1) <= X / 10 ^ (n - k))
    by (apply Z.div_le_lower_bound; lia).
  assert (Hup : round_half_even X (10 ^ (n - k)) <= 10 ^ k) by nia.
  set (s0 := round_half_even X (10 ^ (n - k))) in *.
  destruct (Z.eqb_spec s0 (10 ^ k)) as [Heq | Hne]; cbn [fst]; lia.
Qed.

Lemma shortest_digits_stops (fuel : nat) (x : number) (num den n k k0 : Z) :
  k <= k0 -> k0 - k < Z.of_nat fuel ->
  SFeqb (of_decimal false (nearest_digits num den n k0).1
           ((nearest_digits num den n k0).2 - k0)) (SFabs x) = true ->
  (shortest_digits fuel x num den n k).2 <= k0.
Proof.
  intros Hk Hfuel Hcheck. revert k Hk Hfuel.
  induction fuel as [| fuel IH]; intros k Hk Hfuel; [lia |].
  cbn [shortest_digits].
  destruct (nearest_digits num den n k) as [s n'] eqn:Hnear.
  destruct (SFeqb (of_decimal false s (n' - k)) (SFabs x)) eqn:Hthis; [done |].
  assert (k <> k0).
  { intros ->. rewrite Hnear in Hcheck. cbn [fst snd] in Hcheck. congruence. }
  apply IH; lia.
Qed.

(** The digits of the number of an integer of [2 ^ 53] or more: at most 17
    digits [s], followed by zeros up to the decimal point, that read back
    as the number. *)
Lemma shortest_digits_large (sg : bool) (m : positive) (e : Z) :
  2 ^ 52 <= Zpos m < 2 ^ 53 -> 1 <= e <= 971 ->
  abs_ratio (S754_finite sg m e) = (Zpos m * 2 ^ e, 1)
  /\ exists s n k,
      shortest_digits 16 (S754_finite sg m e) (Zpos m * 2 ^ e) 1
        (decimal_position (Zpos m * 2 ^ e) 1) 1 = (s, n, k)
      /\ 1 <= k <= 17 /\ k <= n /\ 16 <= n
      /\ 10 ^ (k - 1) <= s < 10 ^ k
      /\ forall s', of_decimal s' (s * 10 ^ (n - k)) 0 = S754_finite s' m e.
Proof.
  intros Hm He.
  assert (HP : 2 <= 2 ^ e).
  { change 2 with (2 ^ 1) at 1. apply Z.pow_le_mono_r; lia. }
  set (X := Zpos m * 2 ^ e).
  assert (HX : 2 ^ 53 <= X < 2 ^ 1024).
  { unfold X. split; [nia |].
    assert (2 ^ e <= 2 ^ 971) by (apply Z.pow_le_mono_r; lia).
    change (2 ^ 1024) with (2 ^ 53 * 2 ^ 971). nia. }
  assert (Hexact : forall s, of_decimal s X 0 = S754_finite s m e).
  { intros s. rewrite of_decimal_large by lia. unfold X.
    rewrite binary_round_aux_exact by lia. done. }
  split.
  { unfold abs_ratio. destruct (Z.leb_spec 0 e); [done | lia]. }
  destruct (decimal_position_large X HX) as [Hn Hn16].
  set (n := decimal_position X 1) in *.
  assert (Hsigns : forall V, 2 ^ 53 <= V ->
             of_decimal false V 0 = S754_finite false m e ->
             forall s, of_decimal s V 0 = S754_finite s m e).
  { intros V HV Hfalse s. rewrite of_decimal_large in * by done.
    by apply (binary_round_aux_sign_indep false). }
  assert (Hscaled : forall s j, 0 < s -> 0 <= j ->
             of_decimal false s j = S754_finite false m e ->
             forall s', of_decimal s' (s * 10 ^ j) 0 = S754_finite s' m e).
  { intros s j Hs Hj Hread.
    assert (0 < 10 ^ j) by (apply Z.pow_pos_nonneg; lia).
    rewrite of_decimal_scale in Hread by done.
    destruct (Z.le_gt_cases (2 ^ 53) (s * 10 ^ j)) as [Hbig | Hsmall];
      [by apply Hsigns |].
    exfalso.
    destruct (num_of_Z_finite_form (s * 10 ^ j)) as (m' & e' & Hform & He' & _);
      [nia |].
    unfold num_of_Z in Hform.
    destruct (Z.ltb_spec (s * 10 ^ j) 0); [nia |].
    rewrite Z.abs_eq in Hform by nia. rewrite Hform in Hread.
    injection Hread as _ ->. lia. }
  destruct (shortest_digits_spec 16 (S754_finite sg m e) X 1 n 1)
    as (k & Hk & Hloop & Htest).
  assert (Hk16 : n = 16 -> k <= 16).
  { intros Hn16'.
    destruct (nearest_digits_exact X 1 X n) as (Hs1 & Hj1 & Hvalue);
      [lia | lia | lia | lia |].
    pose proof (shortest_digits_stops 16 (S754_finite sg m e) X 1 n 1 n) as Hstop.
    rewrite Hloop in Hstop. cbn [snd] in Hstop. rewrite <- Hn16'. apply Hstop; [lia | lia |].
    cbn [SFabs]. rewrite of_decimal_scale, Hvalue, Hexact by lia.
    apply SFeqb_finite_refl. }
  assert (Hkn : k <= n) by lia.
  destruct (nearest_digits_near X n k) as (Hs & Hn' & Hnear); [lia | done |].
  pose proof (nearest_digits_count X n k ltac:(lia) Hn) as Hcount.
  set (s := (nearest_digits X 1 n k).1) in *.
  set (n' := (nearest_digits X 1 n k).2) in *.
  exists s, n', k. split; [done |]. split; [lia |]. split; [lia |].
  split; [lia |]. split; [done |].
  destruct (Z.eq_dec k 17) as [Hk17 | Hk17].
  - assert (HT : 0 < 10 ^ (n - 17)) by (apply Z.pow_pos_nonneg; lia).
    assert (Hsplit : 10 ^ (n - 1) = 10 ^ 16 * 10 ^ (n - 17)).
    { rewrite <- Z.pow_add_r by lia. f_equal. lia. }
    assert (Hc : 2 ^ 53 < 10 ^ 16) by done.
    rewrite Hk17 in *.
    assert (H10 : 0 < 10 ^ (n' - 17)) by (apply Z.pow_pos_nonneg; lia).
    set (V := s * 10 ^ (n' - 17)) in *.
    assert (Hround : forall s', binary_round_aux prec emax s' V 0 loc_Exact
                                = S754_finite s' m e).
    { intros s'. apply (round_near s' V (Zpos m) e); [done | done | |].
      - fold X. nia.
      - fold X. intros Hedge Hlt. rewrite Hedge in *. nia. }
    assert (HV : 2 ^ 53 <= V) by (unfold X in *; nia).
    intros s'. rewrite of_decimal_large by done. apply Hround.
  - assert (Hcheck : SFeqb (of_decimal false s (n' - k))
                       (SFabs (S754_finite sg m e)) = true)
      by (apply Htest; lia).
    cbn [SFabs] in Hcheck. apply SFeqb_finite_eq in Hcheck.
    apply Hscaled; [done | lia | done].
Qed.

Lemma thousandths_large (sg : bool) (m : positive) (e : Z) :
  2 ^ 52 <= Zpos m < 2 ^ 53 -> 1 <= e <= 971 ->
  exists V,
    0 < V
    /\ thousandths (S754_finite sg m e) = V * 1000
    /\ forall s, of_decimal s V 0 = S754_finite s m e.
Proof.
  intros Hm He.
  destruct (shortest_digits_large sg m e Hm He)
    as (Hratio & s & n & k & Hloop & Hk & Hkn & Hn & Hs & Hall).
  assert (0 < 10 ^ (k - 1)) by (apply Z.pow_pos_nonneg; lia).
  assert (0 < 10 ^ (n - k)) by (apply Z.pow_pos_nonneg; lia).
  exists (s * 10 ^ (n - k)). split; [nia |]. split; [| done].
  unfold thousandths, shortest_decimal. rewrite Hratio, Hloop.
  destruct (Z.leb_spec 0 (n - k + 3)); [| lia].
  rewrite Z.pow_add_r by lia. change (10 ^ 3) with 1000. lia.
Qed.

(** *** Reading the text of a large number back *)

Lemma of_decimal_scale_signed (sg : bool) (s j : Z) :
  0 < s -> 0 <= j -> of_decimal sg s j = of_decimal sg (s * 10 ^ j) 0.
Proof.
  intros Hs Hj.
  assert (Hpow : 0 < 10 ^ j) by (apply Z.pow_pos_nonneg; lia).
  destruct s as [| p | p]; try lia.
  unfold of_decimal at 1. destruct (Z.leb_spec 0 j); [| lia].
  assert (Zpos p * 10 ^ j = Zpos (p * Z.to_pos (10 ^ j))) as ->
    by (rewrite Pos2Z.inj_mul, Z2Pos.id by lia; done).
  by rewrite of_decimal_integer.
Qed.

Lemma to_digits_length (k : nat) (fuel : nat) (n : Z) (acc : list ascii) :
  (k <= fuel)%nat -> (0 < k)%nat ->
  10 ^ (Z.of_nat k - 1) <= n < 10 ^ Z.of_nat k ->
  length (to_digits fuel n acc) = (k + length acc)%nat.
Proof.
  revert fuel n acc. induction k as [| k IH]; intros fuel n acc Hfuel Hk Hn; [lia |].
  destruct fuel as [| fuel]; [lia |]. cbn [to_digits].
  destruct (Z.ltb_spec n 10) as [Hlt | Hge].
  - destruct k as [| k]; [done |]. exfalso.
    assert (10 ^ 1 <= 10 ^ (Z.of_nat (S (S k)) - 1)) by (apply Z.pow_le_mono_r; lia).
    change (10 ^ 1) with 10 in *. lia.
  - destruct k as [| k].
    { change (10 ^ Z.of_nat 1) with 10 in Hn. lia. }
    rewrite IH; [simpl; lia | lia | lia |].
    assert (E1 : 10 ^ (Z.of_nat (S (S k)) - 1) = 10 * 10 ^ (Z.of_nat (S k) - 1)).
    { rewrite <- Z.pow_succ_r by lia. f_equal. lia. }
    assert (E2 : 10 ^ Z.of_nat (S (S k)) = 10 * 10 ^ Z.of_nat (S k)).
    { rewrite <- Z.pow_succ_r by lia. f_equal. lia. }
    rewrite E1, E2 in Hn. split.
    + apply Z.div_le_lower_bound; lia.
    + apply Z.div_lt_upper_bound; lia.
Qed.

Lemma decimal_digits_length (s k : Z) :
  1 <= k -> 10 ^ (k - 1) <= s < 10 ^ k ->
  length (decimal_digits s) = Z.to_nat k.
Proof.
  intros Hk Hs. unfold decimal_digits.
  assert (0 < 10 ^ (k - 1)) by (apply Z.pow_pos_nonneg; lia).
  rewrite (to_digits_length (Z.to_nat k)); [simpl; lia | | lia |].
  - assert (k - 1 <= Z.log2 s); [| lia].
    apply Z.log2_le_pow2; [lia |].
    assert (2 ^ (k - 1) <= 10 ^ (k - 1)); [| lia].
    apply Z.pow_le_mono_l. lia.
  - by rewrite Z2Nat.id by lia.
Qed.

Lemma span_digits_app (ds : list ascii) (c : ascii) (r : list ascii) :
  forallb is_digit ds = true -> is_digit c = false ->
  span_digits (ds ++ c :: r) = (ds, c :: r).
Proof.
  intros Hds Hc. induction ds as [| d ds IH]; simpl.
  - by rewrite Hc.
  - simpl in Hds. apply andb_true_iff in Hds as [Hd Hds].
    by rewrite Hd, (IH Hds).
Qed.

Lemma parse_literal_signed (neg : bool) (c : ascii) (l : list ascii) :
  is_digit c = true ->
  parse_literal (trim_start (signChars neg ++ c :: l)) = parse_unsigned neg (c :: l)
  /\ starts_with (chars "Infinity") (c :: l) = false.
Proof.
  intros Hc. apply is_digit_cases in Hc. vm_compute in Hc.
  destruct neg; unfold signChars; simpl app;
    repeat (destruct Hc as [<- | Hc]; [by split |]); done.
Qed.

Lemma parse_exponent_plus (E : Z) :
  0 <= E ->
  parse_exponent ("e"%char :: "+"%char :: decimal_digits E) = E.
Proof.
  intros HE. cbn [parse_exponent]. change (Ascii.eqb "e" "e") with true. cbn [orb].
  rewrite (span_digits_all _ (decimal_digits_all_digits E HE)). cbn [fst].
  pose proof (decimal_digits_nonempty E).
  destruct (decimal_digits E) eqn:Hds; [done |]. rewrite <- Hds.
  by apply decimal_digits_value.
Qed.

(** The exponent form [d.ddde+E] reads as its digits scaled. *)
Lemma parseFloat_exponent_form (neg : bool) (ds : list ascii) (E : Z) :
  ds <> [] -> forallb is_digit ds = true -> 0 <= E ->
  let exponent := "e"%char :: "+"%char :: decimal_digits E in
  parseFloat_string
    (of_chars (signChars neg
               ++ match ds with
                  | d :: ((_ :: _) as rest) => d :: "."%char :: rest ++ exponent
                  | _ => ds ++ exponent
                  end))
  = of_decimal neg (digits_value ds) (E - (Z.of_nat (length ds) - 1)).
Proof.
  intros Hne Hall HE. cbv zeta. unfold parseFloat_string. rewrite chars_of_chars.
  destruct ds as [| d rest]; [done |].
  simpl in Hall. apply andb_true_iff in Hall as [Hd Hrest].
  destruct rest as [| r0 rest].
  - change ([d] ++ ?l) with (d :: l).
    destruct (parse_literal_signed neg d ("e"%char :: "+"%char :: decimal_digits E) Hd)
      as [-> Hinf].
    unfold parse_unsigned. rewrite Hinf.
    change (d :: "e"%char :: "+"%char :: decimal_digits E)
      with ([d] ++ "e"%char :: "+"%char :: decimal_digits E).
    rewrite span_digits_app by (simpl; by rewrite ?Hd).
    rewrite parse_exponent_plus by done. cbn [literal_value length].
    f_equal. lia.
  - destruct (parse_literal_signed neg d
                ("."%char :: (r0 :: rest) ++ "e"%char :: "+"%char :: decimal_digits E) Hd)
      as [-> Hinf].
    unfold parse_unsigned. rewrite Hinf.
    change (d :: "."%char :: (r0 :: rest) ++ "e"%char :: "+"%char :: decimal_digits E)
      with ([d] ++ "."%char :: (r0 :: rest) ++ "e"%char :: "+"%char :: decimal_digits E).
    rewrite span_digits_app by (simpl; by rewrite ?Hd).
    rewrite span_digits_app by done.
    rewrite parse_exponent_plus by done. cbn [literal_value].
    change ([d] ++ r0 :: rest) with (d :: r0 :: rest).
    f_equal. cbn [length]. lia.
Qed.

(** The number of an integer of [2 ^ 53] or more is printed by
    [Number::toString] as a text that reads back as the number. *)
Lemma Number_toString_reads_back_large (sg : bool) (m : positive) (e : Z) :
  2 ^ 52 <= Zpos m < 2 ^ 53 -> 1 <= e <= 971 ->
  parseFloat_string (Number_toString (S754_finite sg m e)) = S754_finite sg m e.
Proof.
  intros Hm He.
  destruct (shortest_digits_large sg m e Hm He)
    as (Hratio & s & n & k & Hloop & Hk & Hkn & Hn & Hs & Hall).
  assert (Hs0 : 0 < 10 ^ (k - 1)) by (apply Z.pow_pos_nonneg; lia).
  unfold Number_toString. rewrite Hratio, Hloop.
  assert (Hsign : forall body,
             (if sg then "-"%char :: body else body) = signChars sg ++ body)
    by (by destruct sg).
  rewrite Hsign.
  pose proof (decimal_digits_nonempty s) as Hne.
  pose proof (decimal_digits_all_digits s ltac:(lia)) as Hdigits.
  destruct (Z.leb_spec k n); [| lia]. destruct (Z.leb_spec n 21) as [Hn21 | Hn21].
  - cbn [andb]. rewrite parseFloat_digit_chars.
    + rewrite digits_value_zeros, decimal_digits_value by lia.
      rewrite Z2Nat.id by lia. apply Hall.
    + by destruct (decimal_digits s).
    + rewrite forallb_app, Hdigits. apply forallb_is_digit_zeros.
  - cbn [andb]. destruct (Z.ltb_spec 0 n); [| lia]. cbn [andb].
    destruct (Z.ltb_spec (-6) n); [| lia]. destruct (Z.leb_spec n 0); [lia |].
    cbn [andb]. cbv zeta. destruct (Z.ltb_spec (n - 1) 0); [lia |].
    rewrite Z.abs_eq by lia.
    rewrite (parseFloat_exponent_form sg (decimal_digits s) (n - 1)) by (done || lia).
    rewrite decimal_digits_value, (decimal_digits_length s k) by lia.
    rewrite Z2Nat.id by lia.
    replace (n - 1 - (k - 1)) with (n - k) by lia.
    rewrite of_decimal_scale_signed by lia. apply Hall.
Qed.

(** ** Integers in the en-US convention *)

Lemma thousandths_integer (z : Z) :
  0 < Z.abs z < 2 ^ 53 -> thousandths (num_of_Z z) = Z.abs z * 1000.
Proof.
  intros Hz.
  destruct (num_of_Z_form z Hz) as (m & e & Hx & Habs & He & Hm & Hrange).
  destruct (shortest_digits_integer (Z.abs z) (z <? 0) m e Hz Habs He Hm Hrange)
    as (Hratio & s & pos & k & Hloop & Hk & Hpos & Hs & Hvalue).
  rewrite Hx. unfold thousandths, shortest_decimal. rewrite Hratio, Hloop.
  destruct (Z.leb_spec 0 (pos - k + 3)); [| lia].
  rewrite Z.pow_add_r, Z.mul_assoc, Hvalue by lia. done.
Qed.

(** The text shown for an integer below [2 ^ 53] in absolute value. *)
Lemma toLocaleString_num_of_Z (z : Z) :
  Z.abs z < 2 ^ 53 ->
  toLocaleString (num_of_Z z)
  = of_chars (signChars (z <? 0) ++ group_thousands (decimal_digits (Z.abs z))).
Proof.
  intros Hz. destruct (Z.eq_dec z 0) as [-> | Hne]; [by vm_compute |].
  assert (Hz' : 0 < Z.abs z < 2 ^ 53) by lia.
  destruct (num_of_Z_form z Hz') as (m & e & Hx & _).
  rewrite (toLocaleString_integer _ (Z.abs z)).
  - by rewrite Hx.
  - by rewrite Hx.
  - lia.
  - by apply thousandths_integer.
Qed.

(** The text shown for the number of any integer: the digits, in groups of
    three, of an integer that reads back as the number; below [2 ^ 53] it is
    the integer itself. *)
Lemma toLocaleString_reads_back (z : Z) :
  is_finite (num_of_Z z) = true ->
  exists V,
    0 <= V
    /\ toLocaleString (num_of_Z z)
       = of_chars (signChars (z <? 0) ++ group_thousands (decimal_digits V))
    /\ of_decimal (z <? 0) V 0 = num_of_Z z.
Proof.
  intros Hfin. destruct (Z.lt_ge_cases (Z.abs z) (2 ^ 53)) as [Hsmall | Hlarge].
  - exists (Z.abs z). split; [lia |]. split; [by apply toLocaleString_num_of_Z | done].
  - destruct (num_of_Z_large_form z Hlarge Hfin) as (m & e & Hall & Hm & He).
    destruct (thousandths_large (z <? 0) m e Hm He) as (V & HV & Hthousand & Hread).
    exists V. split; [lia |]. unfold num_of_Z. rewrite (Hall (z <? 0)).
    split; [| apply Hread].
    rewrite (toLocaleString_integer _ V); [done | done | lia | done].
Qed.

(** A non-zero integer whose number is finite, as a number, is printed by
    [Number::toString] as a text that reads back as the number. *)
Lemma Number_toString_reads_back_finite (z : Z) :
  z <> 0 -> is_finite (num_of_Z z) = true ->
  parseFloat_string (Number_toString (num_of_Z z)) = num_of_Z z.
Proof.
  intros Hz Hfin. destruct (Z.lt_ge_cases (Z.abs z) (2 ^ 53)) as [Hsmall | Hlarge].
  - apply Number_toString_reads_back. lia.
  - destruct (num_of_Z_large_form z Hlarge Hfin) as (m & e & Hall & Hm & He).
    unfold num_of_Z. rewrite (Hall (z <? 0)).
    by apply Number_toString_reads_back_large.
Qed.

Lemma unformat_locale_integer (z : Z) :
  is_finite (num_of_Z z) = true ->
  parseFloat_string (strip_currency ("$" +:+ toLocaleString (num_of_Z z))) = num_of_Z z
  /\ parseFloat_string (strip_commas (toLocaleString (num_of_Z z))) = num_of_Z z.
Proof.
  intros Hz. destruct (toLocaleString_reads_back z Hz) as (V & HV & -> & Hread).
  unfold strip_currency, strip_commas.
  change (chars ("$" +:+ of_chars ?l)) with ("$"%char :: chars (of_chars l)).
  rewrite chars_of_chars. cbn [List.filter].
  change (negb (Ascii.eqb "$" "$" || Ascii.eqb "$" ",")) with false. cbv iota.
  rewrite !filter_locale_integer by (done || lia).
  rewrite !parseFloat_integer_chars by lia. by rewrite Hread.
Qed.

(** A value that reads as the number of the integer [z] is shown, in a
    Currency or Count column, as a text from which the export reads that
    number back. *)
Lemma round_trip_of_parsed (value : jsval) (z : Z) (fieldName header : string) :
  classify fieldName = Currency \/ classify fieldName = Count ->
  is_finite (num_of_Z z) = true ->
  truthy value = true ->
  parseFloat value = num_of_Z z ->
  getRawValue (formatValue value fieldName) header fieldName
  = Ok (VNumber (num_of_Z z)).
Proof.
  intros Hkind Hfin Ht Hparse.
  pose proof (finite_not_NaN _ Hfin) as Hnum.
  destruct (unformat_locale_integer z Hfin) as [Hcur Hcnt].
  assert (Hguard : forall str strip,
             parseFloat_string (strip str) = num_of_Z z ->
             strip "" = "" ->
             negb (truthy (VString str)) || is_empty_string (VString str) = false).
  { intros str strip Hstr Hstrip. simpl.
    destruct (String.eqb_spec str "") as [-> | _]; [| done].
    rewrite Hstrip, parseFloat_empty in Hstr. rewrite <- Hstr in Hnum. done. }
  unfold formatValue.
  rewrite (truthy_not_empty value Ht), Hparse, Hnum.
  destruct Hkind as [Hkind | Hkind].
  - apply classify_Currency in Hkind as [Hpct Hcurr]. rewrite Hpct, Hcurr.
    assert (Hfmt : (if String.eqb fieldName "Median Weekly Rent"
                    then VString ("$" +:+ toLocaleString (num_of_Z z))
                    else VString ("$" +:+ toLocaleString (num_of_Z z)))
                   = VString ("$" +:+ toLocaleString (num_of_Z z)))
      by (by destruct (String.eqb fieldName "Median Weekly Rent")).
    rewrite Hfmt. unfold getRawValue.
    rewrite (Hguard _ strip_currency Hcur eq_refl).
    rewrite Hpct, Hcurr. cbn [call_toString ToString bind].
    rewrite Hcur. unfold or_zero. rewrite Hnum.
    by destruct (String.eqb fieldName "Median Weekly Rent").
  - destruct (String.eqb_spec fieldName "Median Weekly Rent") as [-> | Hne];
      [discriminate Hkind |].
    apply classify_Count in Hkind as (Hpct & Hcurr & Hcount).
    rewrite Hpct, Hcurr, Hcount. unfold getRawValue.
    rewrite (Hguard _ strip_commas Hcnt eq_refl).
    apply String.eqb_neq in Hne. rewrite Hne, Hpct, Hcurr, Hcount.
    cbn [call_toString ToString bind].
    rewrite Hcnt. unfold or_zero. by rewrite Hnum.
Qed.

(** C2, as the code has it. Let [z] be an integer whose number is finite,
    and take a Currency or Count column. Given as text, as every cell read
    from a file is, [z] is read as the number nearest to it, and shown as a
    display string from which the export reads that number back. Given as
    that number, as the cells of the derived column are, it is read back as
    well unless it is 0. Below [2 ^ 53] in absolute value the number of [z]
    is [z] exactly. *)
Theorem integer_round_trip (z : Z) (fieldName header : string) :
  classify fieldName = Currency \/ classify fieldName = Count ->
  is_finite (num_of_Z z) = true ->
  getRawValue (formatValue (VString (integerText z)) fieldName) header fieldName
  = Ok (VNumber (num_of_Z z))
  /\ (z <> 0 ->
      getRawValue (formatValue (VNumber (num_of_Z z)) fieldName) header fieldName
      = Ok (VNumber (num_of_Z z)))
  /\ (Z.abs z < 2 ^ 53 -> exact_Z (num_of_Z z) = Some z).
Proof.
  intros Hkind Hfin.
  pose proof (finite_not_NaN _ Hfin) as Hnum.
  split; [| split].
  - apply round_trip_of_parsed; [done | done | | apply parseFloat_integerText].
    pose proof (parseFloat_integerText z) as Hparse.
    cbn [truthy]. destruct (String.eqb_spec (integerText z) "") as [Hempty | _];
      [| done].
    rewrite Hempty, parseFloat_empty in Hparse. rewrite <- Hparse in Hnum. done.
  - intros Hne. apply round_trip_of_parsed; [done | done | |].
    + destruct (Z.lt_ge_cases (Z.abs z) (2 ^ 53)) as [Hsmall | Hlarge].
      * destruct (num_of_Z_form z) as (m & e & -> & _); [lia | done].
      * destruct (num_of_Z_large_form z Hlarge Hfin) as (m & e & Hall & _).
        unfold num_of_Z. by rewrite (Hall (z <? 0)).
    + unfold parseFloat. cbn [ToString].
      by apply Number_toString_reads_back_finite.
  - intros Hsafe. by apply exact_Z_num_of_Z.
Qed.

Lemma integer_round_trip_witness :
  classify "Suburb $ Median" = Currency
  /\ is_finite (num_of_Z 675000) = true
  /\ Z.abs 675000 < 2 ^ 53
  /\ integerText 675000 = "675000"
  /\ formatValue (VString "675000") "Suburb $ Median" = VString "$675,000"
  /\ getRawValue (VString "$675,000") "Median" "Suburb $ Median"
     = Ok (VNumber (num_of_Z 675000))
  /\ exact_Z (num_of_Z 675000) = Some 675000
  /\ getRawValue (formatValue (VNumber (num_of_Z 675000)) "Suburb $ Median")
       "Median" "Suburb $ Median" = Ok (VNumber (num_of_Z 675000)).
Proof.
  assert (Hz : Z.abs 675000 < 2 ^ 53) by (by vm_compute).
  assert (Hfin : is_finite (num_of_Z 675000) = true) by (by vm_compute).
  destruct (integer_round_trip 675000 "Suburb $ Median" "Median"
              (or_introl eq_refl) Hfin) as (Hback & Hnumber & Hexact).
  split; [reflexivity |]. split; [exact Hfin |]. split; [exact Hz |].
  split; [by vm_compute |].
  split; [by vm_compute |]. split; [| split; [exact (Hexact Hz) |]].
  - etransitivity; [| exact Hback]. by vm_compute.
  - apply Hnumber. discriminate.
Defined.

(** C2 as stated fails for the number 0, the value of the derived Currency
    column "Median Weekly Rent" when no rent can be computed: it is shown as
    an empty cell, and the export reads the empty string from it, not 0. *)
Lemma number_zero_is_not_recovered :
  classify "Median Weekly Rent" = Currency
  /\ calculateMedianWeeklyRent zero_rent_row = num_of_Z 0
  /\ formatValue (VNumber (num_of_Z 0)) "Median Weekly Rent" = VString ""
  /\ getRawValue (formatValue (VNumber (num_of_Z 0)) "Median Weekly Rent")
       "Median Weekly Rent" "Median Weekly Rent" = Ok (VString "")
  /\ getRawValue (formatValue (VNumber (num_of_Z 0)) "Median Weekly Rent")
       "Median Weekly Rent" "Median Weekly Rent" <> Ok (VNumber (num_of_Z 0)).
Proof.
  split; [reflexivity |]. split; [by vm_compute |]. split; [reflexivity |].
  split; [reflexivity |]. intros Heq. vm_compute in Heq. discriminate.
Qed.

(** Beyond [2 ^ 53] the text of an integer need not be a number: it is read
    as the nearest one, and that one is shown and read back. A large number
    is shown by its shortest digits followed by zeros. Fractions are rounded
    from their shortest decimal, half away from zero. *)
Lemma unsafe_integer_text_is_rounded :
  formatValue (VString "9007199254740993") "Suburb $ Median"
  = VString "$9,007,199,254,740,992"
  /\ getRawValue (formatValue (VString "9007199254740993") "Suburb $ Median")
       "Suburb $ Median" "Suburb $ Median"
     = Ok (VNumber (num_of_Z 9007199254740992))
  /\ exact_Z (num_of_Z 9007199254740992) = Some 9007199254740992
  /\ formatValue (VString "123456.7895") "Suburb $ Median" = VString "$123,456.79"
  /\ formatValue (VString "1180591620717411303424") "Population"
     = VString "1,180,591,620,717,411,300,000".
Proof. repeat split; by vm_compute. Qed.

(** * Further properties *)

(** ** More on the header order *)

Global Instance string_le_antisym : AntiSymm (=) string_le.
Proof. intros s1 s2. apply String.leb_antisym. Qed.

Lemma includes_Permutation (l1 l2 : list string) (x : string) :
  l1 ≡ₚ l2 -> includes l1 x = includes l2 x.
Proof.
  intros Hperm. apply eq_true_iff_eq. rewrite !includes_true_iff. by rewrite Hperm.
Qed.

Lemma List_filter_Permutation {A} (f : A -> bool) (l1 l2 : list A) :
  l1 ≡ₚ l2 -> List.filter f l1 ≡ₚ List.filter f l2.
Proof.
  induction 1 as [| x l1 l2 _ IH | x y l | l1 l2 l3 _ IH1 _ IH2]; simpl.
  - done.
  - destruct (f x); by rewrite IH.
  - destruct (f x), (f y); try done. apply perm_swap.
  - by rewrite IH1.
Qed.

Lemma List_filter_all {A} (f : A -> bool) (l : list A) :
  (forall x, x ∈ l -> f x = true) -> List.filter f l = l.
Proof.
  induction l as [| a l IH]; intros Hall; simpl; [done |].
  rewrite (Hall a) by constructor. f_equal. apply IH.
  intros x Hx. apply Hall. by constructor.
Qed.

Lemma List_filter_none {A} (f : A -> bool) (l : list A) :
  (forall x, x ∈ l -> f x = false) -> List.filter f l = [].
Proof.
  induction l as [| a l IH]; intros Hnone; simpl; [done |].
  rewrite (Hnone a) by constructor. apply IH.
  intros x Hx. apply Hnone. by constructor.
Qed.

(** Sorting depends on the elements only, and leaves a sorted array alone. *)
Lemma Array_sort_Permutation (l1 l2 : list string) :
  l1 ≡ₚ l2 -> Array_sort l1 = Array_sort l2.
Proof.
  intros Hperm. unfold Array_sort.
  apply (StronglySorted_unique string_le).
  - apply StronglySorted_merge_sort; apply _.
  - apply StronglySorted_merge_sort; apply _.
  - by rewrite !merge_sort_Permutation.
Qed.

Lemma Array_sort_sorted (l : list string) :
  StronglySorted string_le l -> Array_sort l = l.
Proof.
  intros Hsorted. unfold Array_sort.
  apply (StronglySorted_unique string_le); [| done | apply merge_sort_Permutation].
  apply StronglySorted_merge_sort; apply _.
Qed.

Lemma sortHeaders_unfold (headers : list string) :
  sortHeaders headers
  = List.filter (fun col => includes headers col) priorityColumns
    ++ Array_sort (List.filter (fun h => negb (includes priorityColumns h)) headers).
Proof. unfold sortHeaders. by rewrite sortedPriority_eq. Qed.

Lemma elem_of_sortHeaders (headers : list string) (x : string) :
  x ∈ sortHeaders headers <-> x ∈ headers.
Proof.
  rewrite sortHeaders_unfold, elem_of_app, elem_of_List_filter.
  unfold Array_sort. rewrite (merge_sort_Permutation string_le), elem_of_List_filter.
  rewrite !includes_true_iff, negb_true_iff, includes_false_iff.
  destruct (decide (x ∈ priorityColumns)); tauto.
Qed.

Lemma sortHeaders_NoDup_general (headers : list string) :
  NoDup headers -> NoDup (sortHeaders headers).
Proof.
  intros Hnd. rewrite sortHeaders_unfold. apply NoDup_app. split; [| split].
  - apply NoDup_List_filter, priorityColumns_NoDup.
  - intros x Hx. apply elem_of_List_filter in Hx as [Hx _].
    unfold Array_sort. rewrite (merge_sort_Permutation string_le).
    intros Hx'. apply elem_of_List_filter in Hx' as [_ Hx'].
    apply includes_true_iff in Hx. by rewrite Hx in Hx'.
  - unfold Array_sort. rewrite (merge_sort_Permutation string_le).
    by apply NoDup_List_filter.
Qed.

(** X1. Ordering the headers loses no header and invents none: a name is in
    [sortHeaders H] exactly when it is in [H], and where [H] has no name
    twice the result is a rearrangement of [H]. *)
Theorem sortHeaders_same_headers (H : list string) :
  (forall x, x ∈ sortHeaders H <-> x ∈ H)
  /\ (NoDup H -> sortHeaders H ≡ₚ H).
Proof.
  split; [intros x; apply elem_of_sortHeaders |].
  intros Hnd. apply NoDup_Permutation; [by apply sortHeaders_NoDup_general | done |].
  intros x. apply elem_of_sortHeaders.
Qed.

(** X2. The header order does not depend on the order of the columns in the
    file: two header lists with the same names, each as often, are put in the
    same order. *)
Theorem sortHeaders_order_independent (H1 H2 : list string) :
  H1 ≡ₚ H2 -> sortHeaders H1 = sortHeaders H2.
Proof.
  intros Hperm. rewrite !sortHeaders_unfold. f_equal.
  - apply List.filter_ext. intros col. by apply includes_Permutation.
  - by apply Array_sort_Permutation, List_filter_Permutation.
Qed.

(** X3. Ordering an ordered header list changes nothing. *)
Theorem sortHeaders_idempotent (H : list string) :
  sortHeaders (sortHeaders H) = sortHeaders H.
Proof.
  assert (Hpriority :
            List.filter (fun col => includes (sortHeaders H) col) priorityColumns
            = List.filter (fun col => includes H col) priorityColumns).
  { apply List.filter_ext. intros col. apply eq_true_iff_eq.
    rewrite !includes_true_iff. apply elem_of_sortHeaders. }
  assert (Hothers :
            Array_sort (List.filter (fun h => negb (includes priorityColumns h))
                          (sortHeaders H))
            = Array_sort (List.filter (fun h => negb (includes priorityColumns h)) H)).
  { rewrite (sortHeaders_unfold H), List.filter_app.
    rewrite List_filter_none.
    2:{ intros x Hx. apply elem_of_List_filter in Hx as [Hx _].
        apply includes_true_iff in Hx. by rewrite Hx. }
    rewrite List_filter_all.
    2:{ intros x Hx. unfold Array_sort in Hx.
        rewrite (merge_sort_Permutation string_le) in Hx.
        by apply elem_of_List_filter in Hx as [_ Hx]. }
    simpl. apply Array_sort_sorted.
    apply StronglySorted_merge_sort; apply _. }
  rewrite (sortHeaders_unfold (sortHeaders H)), Hpriority, Hothers.
  by rewrite <- sortHeaders_unfold.
Qed.

(** ** What an upload leaves *)

Lemma includes_cons (names : list string) (a x : string) :
  includes (a :: names) x = String.eqb x a || includes names x.
Proof. reflexivity. Qed.

Lemma fold_obj_set_get {A} (val : string -> option A) (ks : list string)
    (acc : obj A) (k : string) :
  (forall k', k' ∈ ks -> is_Some (val k')) ->
  obj_get (fold_left (fun acc k' => match val k' with
                                    | Some v => obj_set acc k' v
                                    | None => acc
                                    end) ks acc) k
  = if includes ks k then val k else obj_get acc k.
Proof.
  revert acc. induction ks as [| k0 ks IH]; intros acc Hval; [done |].
  cbn [fold_left].
  destruct (Hval k0) as [v0 Hv0]; [constructor |].
  rewrite IH by (intros k' Hk'; apply Hval; by constructor).
  rewrite includes_cons, Hv0.
  destruct (includes ks k); [by rewrite orb_true_r |].
  rewrite orb_false_r, obj_get_set, String.eqb_sym.
  destruct (String.eqb_spec k k0) as [-> | _]; done.
Qed.

(** A spread copy has the same properties as the object. *)
Lemma obj_get_spread {A} (o : obj A) (k : string) :
  obj_get (obj_spread o) k = obj_get o k.
Proof.
  unfold obj_spread. rewrite fold_obj_set_get.
  - destruct (includes (Object_keys o) k) eqn:Hk; [done |].
    symmetry. apply obj_get_None. apply includes_false_iff in Hk.
    by rewrite Object_keys_Permutation in Hk.
  - intros k' Hk'. rewrite Object_keys_Permutation in Hk'.
    destruct (obj_get o k') eqn:Hget; [by eexists |].
    by apply obj_get_None in Hget.
Qed.

Lemma prop_withCalculatedFields (row : obj jsval) (k : string) :
  prop (withCalculatedFields row) k
  = if String.eqb k "Median Weekly Rent"
    then VNumber (calculateMedianWeeklyRent row)
    else prop row k.
Proof.
  unfold prop, withCalculatedFields. rewrite obj_get_set, obj_get_spread.
  rewrite String.eqb_sym.
  destruct (String.eqb_spec k "Median Weekly Rent") as [-> | _]; done.
Qed.

(** The rename map an upload builds: an own entry for every header but
    [__proto__], for which the assignment reaches the prototype setter. *)
Lemma initialRenames_fold (hs : list string) (acc : obj string) :
  obj_get acc "__proto__" = None ->
  let renames := fold_left (fun acc header => obj_assign acc header header) hs acc in
  obj_get renames "__proto__" = None
  /\ renames
     = fold_left (fun acc header => obj_set acc header header)
         (List.filter (fun h => negb (String.eqb h "__proto__")) hs) acc.
Proof.
  revert acc. induction hs as [| h hs IH]; intros acc Hacc; [done |].
  cbn [fold_left List.filter]. rewrite obj_assign_spec by done.
  destruct (String.eqb_spec h "__proto__") as [-> | Hne]; cbn [negb];
    [by apply IH |].
  apply IH. rewrite obj_get_set. apply String.eqb_neq in Hne. by rewrite Hne.
Qed.

Lemma initialRenames_get (hs : list string) (k : string) :
  obj_get (fold_left (fun acc header => obj_assign acc header header) hs []) k
  = if includes hs k && negb (String.eqb k "__proto__") then Some k else None.
Proof.
  destruct (initialRenames_fold hs []) as [_ ->]; [done |].
  pose proof (fold_obj_set_get (fun h => Some h)
                (List.filter (fun h => negb (String.eqb h "__proto__")) hs) [] k)
    as Hfold.
  simpl in Hfold. rewrite Hfold by (intros k' _; by eexists).
  by rewrite includes_filter.
Qed.

Lemma originalColumn_of_identity (renames : obj string) (header : string) :
  identityRenames renames -> originalColumn_of renames header = header.
Proof.
  intros Hid. unfold originalColumn_of.
  destruct (List.find _ (Object_keys renames)) as [key |] eqn:Hfind; [| done].
  apply find_some in Hfind as [_ Hkey].
  destruct (obj_get renames key) as [name |] eqn:Hget; [| done].
  apply String.eqb_eq in Hkey. subst name. apply Hid in Hget. subst key.
  by destruct (String.eqb header "").
Qed.

Lemma renamed_identity (renames : obj string) (col : string) :
  identityRenames renames ->
  obj_get renames col <> None \/ Object_prototype col = None ->
  renamed renames col = col.
Proof.
  intros Hid Hcol. unfold renamed.
  destruct (obj_get renames col) as [name |] eqn:Hget.
  - apply Hid in Hget. subst name. by destruct (String.eqb col "").
  - destruct Hcol as [Hcol | ->]; done.
Qed.

Lemma initialRenames_identity (hs : list string) :
  identityRenames (fold_left (fun acc header => obj_assign acc header header) hs []).
Proof.
  intros k name. rewrite initialRenames_get.
  destruct (includes hs k && negb (String.eqb k "__proto__")); congruence.
Qed.

Lemma elem_of_uploadedHeaders (data : list (obj jsval)) (x : string) :
  x ∈ uploadedHeaders data <-> x ∈ csvHeaders_of data \/ x = "Median Weekly Rent".
Proof.
  unfold uploadedHeaders. rewrite elem_of_sortHeaders, elem_of_app, list_elem_of_singleton.
  done.
Qed.

Lemma upload_complete_state (Papa_parse : File -> PapaResult) (w : World)
    (file : File) (data : list (obj jsval)) (errors : list string) :
  Papa_parse file = PapaComplete data errors ->
  let selected :=
    List.filter (fun col => includes (uploadedHeaders data) col) priorityColumns in
  let renames :=
    fold_left (fun acc header => obj_assign acc header header)
      (uploadedHeaders data) [] in
  uploaded Papa_parse w file
  = {| csvData := Some (map withCalculatedFields data);
       headers := uploadedHeaders data;
       selectedColumns := selected;
       columnRenames := renames;
       tableData := generateTableData (map withCalculatedFields data) selected renames;
       fileName := file_name file |}.
Proof. intros Hparse. unfold uploaded, handleFileUpload. by rewrite Hparse. Qed.

Section Upload.

Variable Papa_parse : File -> PapaResult.
Variable w : World.
Variable file : File.
Variable data : list (obj jsval).
Variable errors : list string.
Hypothesis Hparse : Papa_parse file = PapaComplete data errors.

(** X4. After a file is parsed the selection is the priority columns the
    file has, with the derived column, in the order of the priority list:
    no column is selected twice, every selected column is a header, and the
    derived column is always selected. *)
Theorem upload_default_selection :
  let st := uploaded Papa_parse w file in
  selectedColumns st
  = List.filter
      (fun col => includes (csvHeaders_of data) col
                  || String.eqb col "Median Weekly Rent")
      priorityColumns
  /\ "Median Weekly Rent" ∈ selectedColumns st
  /\ NoDup (selectedColumns st)
  /\ (forall col, col ∈ selectedColumns st -> col ∈ headers st).
Proof.
  cbv zeta.
  rewrite (upload_complete_state _ _ _ _ _ Hparse). cbn [selectedColumns headers].
  assert (Hsel : forall col,
             includes (uploadedHeaders data) col
             = includes (csvHeaders_of data) col || String.eqb col "Median Weekly Rent").
  { intros col. apply eq_true_iff_eq.
    rewrite orb_true_iff, !includes_true_iff, String.eqb_eq.
    apply elem_of_uploadedHeaders. }
  split; [by apply List.filter_ext |]. split; [| split].
  - apply elem_of_List_filter. split; [by apply includes_true_iff |].
    apply includes_true_iff, elem_of_uploadedHeaders. by right.
  - apply NoDup_List_filter, priorityColumns_NoDup.
  - intros col Hcol. apply elem_of_List_filter in Hcol as [_ Hcol].
    by apply includes_true_iff.
Qed.

(** X5. After a file is parsed the rename map has an own entry for every
    header, the header itself, and no other entry; a header [__proto__],
    which no parsed row can give, would get none, the assignment going to
    the prototype setter. So each header is shown under its own name, as is
    every name that is not a member of [Object.prototype], and the export
    finds each display name's column to be that name. *)
Theorem upload_identity_renames (h : string) :
  let st := uploaded Papa_parse w file in
  obj_get (columnRenames st) h
  = (if includes (headers st) h && negb (String.eqb h "__proto__")
     then Some h else None)
  /\ ((h ∈ headers st /\ h <> "__proto__") \/ Object_prototype h = None ->
      renamed (columnRenames st) h = h)
  /\ originalColumn_of (columnRenames st) h = h.
Proof.
  cbv zeta.
  rewrite (upload_complete_state _ _ _ _ _ Hparse). cbn [columnRenames headers].
  split; [apply initialRenames_get |].
  split; [| apply originalColumn_of_identity, initialRenames_identity].
  intros Hh. apply renamed_identity; [apply initialRenames_identity |].
  destruct Hh as [[Hin Hne] | Hplain]; [left | by right].
  rewrite initialRenames_get.
  apply includes_true_iff in Hin. apply String.eqb_neq in Hne.
  by rewrite Hin, Hne.
Qed.

(** X6. After a file is parsed there is one stored row and one display row
    per parsed row; a stored row holds the computed weekly rent under
    "Median Weekly Rent", also when the file has a column of that name, and
    every other cell as parsed. *)
Theorem upload_rows :
  let st := uploaded Papa_parse w file in
  exists rows,
    csvData st = Some rows
    /\ length rows = length data
    /\ length (tableData st) = length data
    /\ forall (i : nat) (row : obj jsval),
        data !! i = Some row ->
        exists row',
          rows !! i = Some row'
          /\ prop row' "Median Weekly Rent"
             = VNumber (calculateMedianWeeklyRent row)
          /\ forall k, k <> "Median Weekly Rent" -> prop row' k = prop row k.
Proof.
  cbv zeta.
  rewrite (upload_complete_state _ _ _ _ _ Hparse). cbn [csvData tableData].
  exists (map withCalculatedFields data).
  split; [done |]. split; [apply length_map |].
  split; [unfold generateTableData; by rewrite !length_map |].
  intros i row Hrow. exists (withCalculatedFields row). split; [| split].
  - change (map ?f ?l) with (f <$> l). by rewrite list_lookup_fmap, Hrow.
  - by rewrite prop_withCalculatedFields.
  - intros k Hk. rewrite prop_withCalculatedFields.
    apply String.eqb_neq in Hk. by rewrite Hk.
Qed.

End Upload.


(** ** The sign and the integrality of the derived rent *)

Lemma shr_record_of_loc_m (m : Z) (l : location) : shr_m (shr_record_of_loc m l) = m.
Proof. by destruct l as [| []]. Qed.

Lemma shr_nonneg (r : shr_record) (e n : Z) :
  0 <= shr_m r -> 0 <= shr_m (shr r e n).1.
Proof.
  intros Hr. destruct n as [| p | p]; simpl; try done.
  by apply iter_shr_1_m.
Qed.

Lemma binary_round_aux_sign (s : bool) (m e : Z) (l : location) :
  0 <= m ->
  isNaN (binary_round_aux prec emax s m e l) = false
  /\ sign_of (binary_round_aux prec emax s m e l) = s.
Proof.
  intros Hm. unfold binary_round_aux, shr_fexp.
  pose proof (shr_nonneg (shr_record_of_loc m l) e
                (fexp prec emax (Zdigits2 m + e) - e)) as H1.
  rewrite shr_record_of_loc_m in H1. specialize (H1 Hm).
  destruct (shr (shr_record_of_loc m l) e _) as [mrs' e'].
  simpl in H1.
  pose proof (round_nearest_even_bounds (shr_m mrs') (loc_of_shr_record mrs')) as H2.
  set (m2 := round_nearest_even (shr_m mrs') (loc_of_shr_record mrs')) in *.
  pose proof (shr_nonneg (shr_record_of_loc m2 loc_Exact) e'
                (fexp prec emax (Zdigits2 m2 + e') - e')) as H3.
  rewrite shr_record_of_loc_m in H3. specialize (H3 ltac:(lia)).
  destruct (shr (shr_record_of_loc m2 loc_Exact) e' _) as [mrs'' e''].
  simpl in H3.
  destruct (shr_m mrs'') as [| q | q]; [done | | lia].
  by destruct (e'' <=? emax - prec).
Qed.

Lemma num_gtb_zero (x : number) :
  num_gtb x (num_of_Z 0) = true ->
  (exists m e, x = S754_finite false m e) \/ x = S754_infinity false.
Proof.
  destruct x as [s | [] | | [] m e]; try done; intros _; [by right | left; eauto].
Qed.

Lemma num_mul_nonnegative (x y : number) :
  num_gtb x (num_of_Z 0) = true -> num_gtb y (num_of_Z 0) = true ->
  nonnegative (num_mul x y).
Proof.
  intros [(mx & ex & ->) | ->]%num_gtb_zero [(my & ey & ->) | ->]%num_gtb_zero;
    try done.
  apply binary_round_aux_sign. lia.
Qed.

Lemma div_eucl_nonneg (a b : Z) : 0 <= a -> 0 < b -> 0 <= (Z.div_eucl a b).1.
Proof. intros Ha Hb. change (Z.div_eucl a b).1 with (a / b). apply Z.div_pos; lia. Qed.

Lemma num_div_nonnegative (x : number) (m : positive) (e : Z) :
  nonnegative x -> nonnegative (num_div x (S754_finite false m e)).
Proof.
  intros [Hnan Hsign]. destruct x as [s | s | | s mx ex]; simpl in *; subst; try done.
  unfold num_div, SFdiv, SFdiv_core_binary.
  set (m' := match _ - _ - _ with Z0 => _ | Zpos _ => _ | Zneg _ => _ end).
  assert (Hm' : 0 <= m').
  { unfold m'. destruct (_ - _ - _); [lia | | lia].
    rewrite Z.shiftl_mul_pow2 by lia.
    apply Z.mul_nonneg_nonneg; [lia | apply Z.pow_nonneg; lia]. }
  pose proof (div_eucl_nonneg m' (Zpos m) Hm' ltac:(lia)) as Hq.
  destruct (Z.div_eucl m' (Zpos m)) as [q r]. simpl in Hq.
  by apply binary_round_aux_sign.
Qed.

Lemma iter_xO_pow2 (p q : positive) :
  Zpos (Pos.iter xO p q) = Zpos p * 2 ^ Zpos q.
Proof.
  induction q as [| q IH] using Pos.peano_ind.
  - simpl. lia.
  - rewrite Pos.iter_succ, Pos2Z.inj_xO, IH, Pos2Z.inj_succ, Z.pow_succ_r by lia. lia.
Qed.

(** Rounding an integer gives an integer, when it is finite. *)
Lemma binary_normalize_integer (n : Z) :
  0 <= n ->
  nonnegative (binary_normalize prec emax n 0 false)
  /\ (is_finite (binary_normalize prec emax n 0 false) = true ->
      is_Some (exact_Z (binary_normalize prec emax n 0 false))).
Proof.
  intros Hn. destruct n as [| p | p]; [by split; [| eexists] | | lia].
  unfold binary_normalize, binary_round, shl_align.
  rewrite fexp64. pose proof (digits2_bounds p) as Hp.
  set (d := Zpos (digits2_pos p)) in *.
  assert (Hd1 : 1 <= d) by lia.
  rewrite Z.add_0_r, Z.max_l, Z.sub_0_r by lia.
  assert (Hsmall : d <= 53 ->
            exists m e, 2 ^ 52 <= m < 2 ^ 53 /\ -1074 <= e <= 0
              /\ m = Zpos p * 2 ^ (- e)
              /\ (match d - 53 with
                  | Zneg q => (Pos.iter xO p q, d - 53)
                  | _ => (p, 0)
                  end) = (Z.to_pos m, e)).
  { intros Hd. exists (Zpos p * 2 ^ (53 - d)), (d - 53).
    assert (0 < 2 ^ (53 - d)) by (apply Z.pow_pos_nonneg; lia).
    assert (E1 : 2 ^ 52 = 2 ^ (d - 1) * 2 ^ (53 - d))
      by (rewrite <- Z.pow_add_r by lia; f_equal; lia).
    assert (E2 : 2 ^ 53 = 2 ^ d * 2 ^ (53 - d))
      by (rewrite <- Z.pow_add_r by lia; f_equal; lia).
    split; [rewrite E1, E2; nia |]. split; [lia |].
    split; [do 2 f_equal; lia |].
    destruct (d - 53) as [| q | q] eqn:Hq; [| lia |].
    - replace (53 - d) with 0 by lia. f_equal; simpl; lia.
    - f_equal. apply Pos2Z.inj. rewrite Z2Pos.id by lia.
      rewrite iter_xO_pow2. do 2 f_equal. lia. }
  destruct (Z.le_gt_cases d 53) as [Hd | Hd].
  - destruct (Hsmall Hd) as (m & e & Hm & He & Hmp & ->).
    rewrite Z2Pos.id by lia.
    replace m with (m * 2 ^ 0) at 1 2 3 by lia.
    rewrite binary_round_aux_exact by lia.
    split; [done |]. intros _.
    unfold exact_Z. cbn [is_finite abs_ratio]. rewrite Z.add_0_r.
    assert (Hpow : 0 < 2 ^ (- e)) by (apply Z.pow_pos_nonneg; lia).
    rewrite Z2Pos.id by lia.
    destruct (Z.leb_spec 0 e).
    + rewrite Z.mod_1_r. by eexists.
    + rewrite Hmp, Z.mod_mul by lia. by eexists.
  - destruct (d - 53) as [| q | q] eqn:Hq; try lia.
    split; [apply binary_round_aux_sign; lia |]. intros Hfin.
    destruct (binary_round_aux_large false p) as (m & e & -> & Hm & He);
      [fold d; lia | done |].
    unfold exact_Z. cbn [is_finite abs_ratio].
    destruct (Z.leb_spec 0 e); [| lia]. rewrite Z.mod_1_r. by eexists.
Qed.

Lemma Math_round_nonnegative (x : number) :
  nonnegative x ->
  nonnegative (Math_round x)
  /\ (is_finite (Math_round x) = true -> is_Some (exact_Z (Math_round x))).
Proof.
  intros [Hnan Hsign]. destruct x as [s | s | | s m e]; simpl in *; subst.
  - split; [by split |]. intros _. by eexists.
  - split; [by split | done].
  - done.
  - destruct (Z.leb_spec 0 e) as [He | He].
    + split; [by split |]. intros _. unfold exact_Z. cbn [is_finite abs_ratio].
      destruct (Z.leb_spec 0 e); [| lia]. rewrite Z.mod_1_r. by eexists.
    + apply binary_normalize_integer. apply Z.shiftr_nonneg.
      assert (0 < 2 ^ (- e)) by (apply Z.pow_pos_nonneg; lia).
      unfold cond_Zopp. lia.
Qed.

(** X7. The derived weekly rent is never [NaN] and never negative, and
    when it is finite it is a whole number. *)
Theorem calculateMedianWeeklyRent_whole (row : obj jsval) :
  isNaN (calculateMedianWeeklyRent row) = false
  /\ sign_of (calculateMedianWeeklyRent row) = false
  /\ (is_finite (calculateMedianWeeklyRent row) = true ->
      is_Some (exact_Z (calculateMedianWeeklyRent row))).
Proof.
  unfold calculateMedianWeeklyRent.
  set (price := num_or (parseFloat (prop row "Suburb $ Median")) (num_of_Z 0)).
  set (yield := num_or (parseFloat (prop row "Rental Yield")) (num_of_Z 0)).
  destruct (num_gtb price (num_of_Z 0)) eqn:Hp;
    [| repeat split; try done; intros _; by eexists].
  destruct (num_gtb yield (num_of_Z 0)) eqn:Hy;
    [| repeat split; try done; intros _; by eexists].
  cbn [andb].
  pose proof (num_mul_nonnegative price yield Hp Hy) as Hmul.
  assert (H52 : exists m e, num_of_Z 52 = S754_finite false m e)
    by (by vm_compute; eauto).
  destruct H52 as (m & e & ->).
  pose proof (num_div_nonnegative _ m e Hmul) as Hdiv.
  destruct (Math_round_nonnegative _ Hdiv) as [[? ?] ?]. done.
Qed.


(** ** The column controls *)

Lemma List_filter_app_singleton_out (sel : list string) (column : string) :
  column ∉ sel ->
  List.filter (fun col => negb (String.eqb col column)) (sel ++ [column]) = sel.
Proof.
  intros Hnot. rewrite List.filter_app. simpl. rewrite String.eqb_refl. simpl.
  rewrite app_nil_r. apply List_filter_all. intros x Hx.
  apply negb_true_iff, String.eqb_neq. intros ->. done.
Qed.

Lemma includes_app_singleton (sel : list string) (column : string) :
  includes (sel ++ [column]) column = true.
Proof. apply includes_true_iff, elem_of_app. right. constructor. Qed.

Lemma handleColumnToggle_loaded (st : AppState) (data : list (obj jsval))
    (column : string) :
  csvData st = Some data ->
  handleColumnToggle st column
  = ({| csvData := Some data; headers := headers st;
        selectedColumns := toggled (selectedColumns st) column;
        columnRenames := columnRenames st;
        tableData := generateTableData data (toggled (selectedColumns st) column)
                       (columnRenames st);
        fileName := fileName st |}, None).
Proof.
  intros Hdata. unfold handleColumnToggle, regenerate, toggled.
  cbn [csvData with_selectedColumns]. rewrite Hdata.
  unfold with_tableData. cbn. by rewrite Hdata.
Qed.

(** X8. Ticking an unselected column appends it to the selection, and
    unticking it again restores the selection; in a state whose table is the
    projection of its data, the whole state is restored. Neither step throws
    once a file is loaded, its rows keeping their prototype under the
    enlarged selection. *)
Theorem toggle_on_off (st : AppState) (data : list (obj jsval)) (column : string) :
  csvData st = Some data ->
  column ∉ selectedColumns st ->
  prototypes_kept data (selectedColumns st ++ [column]) (columnRenames st) ->
  let r1 := handleColumnToggle st column in
  let r2 := handleColumnToggle r1.1 column in
  selectedColumns r1.1 = selectedColumns st ++ [column]
  /\ selectedColumns r2.1 = selectedColumns st
  /\ r1.2 = None /\ r2.2 = None
  /\ (tableData st = generateTableData data (selectedColumns st) (columnRenames st) ->
      r2.1 = st).
Proof.
  intros Hdata Hnot _. cbv zeta.
  rewrite (handleColumnToggle_loaded st data) by done. cbn [fst snd].
  rewrite (handleColumnToggle_loaded _ data) by done.
  cbn [fst snd selectedColumns columnRenames headers fileName].
  apply includes_false_iff in Hnot as Hinc.
  assert (Hon : toggled (selectedColumns st) column = selectedColumns st ++ [column])
    by (unfold toggled; by rewrite Hinc).
  rewrite Hon.
  assert (Hoff : toggled (selectedColumns st ++ [column]) column = selectedColumns st).
  { unfold toggled. rewrite includes_app_singleton.
    by apply List_filter_app_singleton_out. }
  rewrite Hoff. repeat split; try done.
  intros Htable. destruct st. cbn in *. by subst.
Qed.

(** X9. Unticking a selected column removes it and keeps the others in
    their order; ticking it again puts it last, not back in its place. The
    rows are taken to keep their prototype under the selection. *)
Theorem toggle_off_on (st : AppState) (data : list (obj jsval)) (column : string) :
  csvData st = Some data ->
  column ∈ selectedColumns st ->
  prototypes_kept data (selectedColumns st) (columnRenames st) ->
  let others := List.filter (fun col => negb (String.eqb col column)) (selectedColumns st) in
  let r1 := handleColumnToggle st column in
  let r2 := handleColumnToggle r1.1 column in
  selectedColumns r1.1 = others
  /\ (column ∉ others)
  /\ (forall col, col <> column -> (col ∈ others <-> col ∈ selectedColumns st))
  /\ selectedColumns r2.1 = others ++ [column]
  /\ tableData r2.1 = generateTableData data (others ++ [column]) (columnRenames st).
Proof.
  intros Hdata Hin _ others. cbv zeta.
  rewrite (handleColumnToggle_loaded st data) by done. cbn [fst snd].
  rewrite (handleColumnToggle_loaded _ data) by done.
  cbn [fst snd selectedColumns columnRenames headers fileName tableData].
  apply includes_true_iff in Hin as Hinc.
  assert (Hoff : toggled (selectedColumns st) column = others)
    by (unfold toggled; by rewrite Hinc).
  rewrite Hoff.
  assert (Hout : column ∉ others).
  { unfold others. rewrite elem_of_List_filter, String.eqb_refl. by intros [_ ?]. }
  assert (Hon : toggled others column = others ++ [column]).
  { unfold toggled. apply includes_false_iff in Hout. by rewrite Hout. }
  rewrite Hon. repeat split; try done.
  - unfold others. rewrite elem_of_List_filter. tauto.
  - unfold others. rewrite elem_of_List_filter. intros Hcol. split; [done |].
    by apply negb_true_iff, String.eqb_neq.
Qed.

(** X10. Renaming a column changes the display name of that column only:
    it becomes the new name, or the column's own name when the new name is
    empty; the selection and the number of rows stay. The rows are taken to
    keep their prototype under the new rename map. *)
Theorem rename_changes_one_name (st : AppState) (data : list (obj jsval))
    (originalName newName : string) :
  csvData st = Some data ->
  let r := handleColumnRename st originalName newName in
  prototypes_kept data (selectedColumns st) (columnRenames r.1) ->
  r.2 = None
  /\ renamed (columnRenames r.1) originalName
     = (if String.eqb newName "" then originalName else newName)
  /\ (forall col, col <> originalName ->
      renamed (columnRenames r.1) col = renamed (columnRenames st) col)
  /\ selectedColumns r.1 = selectedColumns st
  /\ tableData r.1
     = generateTableData data (selectedColumns st) (columnRenames r.1)
  /\ length (tableData r.1) = length data.
Proof.
  intros Hdata. unfold handleColumnRename, regenerate.
  cbn [csvData with_columnRenames]. rewrite Hdata.
  cbn [fst snd columnRenames selectedColumns tableData with_tableData with_columnRenames].
  intros _. split; [done |]. split; [| split; [| split; [| split]]]; try done.
  - unfold renamed. by rewrite obj_get_set, String.eqb_refl.
  - intros col Hcol. unfold renamed. rewrite obj_get_set, obj_get_spread.
    apply not_eq_sym, String.eqb_neq in Hcol. by rewrite Hcol.
  - unfold generateTableData. by rewrite length_map.
Qed.

(** Moving one element of an array with two [splice] calls. *)
Lemma splice_remove_lookup {A} (items : list A) (i : nat) (x : A) :
  items !! i = Some x ->
  splice_remove items i = (delete i items, [x]).
Proof.
  intros Hx. unfold splice_remove. rewrite delete_take_drop. f_equal.
  rewrite <- (take_drop_middle items i x Hx) at 1.
  rewrite drop_app_length'; [done |].
  rewrite length_take. apply lookup_lt_Some in Hx. lia.
Qed.

Lemma splice_insert_lookup {A} (items : list A) (i : nat) (x : A) :
  (i <= length items)%nat ->
  splice_insert items i x !! i = Some x
  /\ delete i (splice_insert items i x) = items
  /\ splice_insert items i x ≡ₚ x :: items.
Proof.
  intros Hi. unfold splice_insert.
  assert (Hlen : length (take i items) = i) by (rewrite length_take; lia).
  split; [| split].
  - apply list_lookup_middle. done.
  - pose proof (delete_middle (take i items) (drop i items) x) as Hdel.
    rewrite Hlen in Hdel. by rewrite Hdel, take_drop.
  - by rewrite <- Permutation_middle, take_drop.
Qed.

Lemma handleDragEnd_loaded (st : AppState) (data : list (obj jsval))
    (source index : nat) (item : string) :
  csvData st = Some data ->
  selectedColumns st !! source = Some item ->
  handleDragEnd st source (Some index)
  = let items := splice_insert (delete source (selectedColumns st)) index item in
    Some ({| csvData := Some data; headers := headers st;
             selectedColumns := items;
             columnRenames := columnRenames st;
             tableData := generateTableData data items (columnRenames st);
             fileName := fileName st |}, None).
Proof.
  intros Hdata Hitem. unfold handleDragEnd.
  rewrite (splice_remove_lookup _ _ _ Hitem). unfold regenerate.
  cbn [csvData with_selectedColumns]. rewrite Hdata.
  unfold with_tableData. cbn. by rewrite Hdata.
Qed.

(** X11. Dragging the column at [source] to [index], both inside the
    selection, puts that column at [index] and keeps the other columns in
    their order: the selection is rearranged, nothing is lost or added, and
    the table is projected anew. Dragging it back from [index] to [source]
    restores the selection. A drag without destination changes nothing.
    The rows are taken to keep their prototype under the selection. *)
Theorem drag_moves_one_column (st : AppState) (data : list (obj jsval))
    (source index : nat) :
  csvData st = Some data ->
  (source < length (selectedColumns st))%nat ->
  (index < length (selectedColumns st))%nat ->
  prototypes_kept data (selectedColumns st) (columnRenames st) ->
  exists st' item,
    handleDragEnd st source (Some index) = Some (st', None)
    /\ selectedColumns st !! source = Some item
    /\ selectedColumns st' !! index = Some item
    /\ delete index (selectedColumns st') = delete source (selectedColumns st)
    /\ selectedColumns st' ≡ₚ selectedColumns st
    /\ tableData st'
       = generateTableData data (selectedColumns st') (columnRenames st')
    /\ (exists st'', handleDragEnd st' index (Some source) = Some (st'', None)
                     /\ selectedColumns st'' = selectedColumns st)
    /\ handleDragEnd st source None = Some (st, None).
Proof.
  intros Hdata Hsource Hindex _.
  destruct (lookup_lt_is_Some_2 _ _ Hsource) as [item Hitem].
  set (rest := delete source (selectedColumns st)).
  assert (Hrest : length rest = (length (selectedColumns st) - 1)%nat).
  { unfold rest. rewrite length_delete by eauto. lia. }
  destruct (splice_insert_lookup rest index item) as (Hat & Hdel & Hperm); [lia |].
  eexists _, item. split; [by apply handleDragEnd_loaded |].
  cbn [selectedColumns tableData columnRenames]. fold rest.
  split; [done |]. split; [done |]. split; [done |]. split; [| split; [done |]].
  - rewrite Hperm. unfold rest. symmetry. by apply delete_Permutation.
  - split; [| done]. eexists. split.
    + rewrite (handleDragEnd_loaded _ data index source item) by done.
      cbn [selectedColumns]. reflexivity.
    + cbn [selectedColumns]. rewrite Hdel. unfold rest, splice_insert.
      rewrite delete_take_drop.
      rewrite take_app_length' by (rewrite length_take; lia).
      rewrite drop_app_length' by (rewrite length_take; lia).
      by apply take_drop_middle.
Qed.


(** ** The session *)

Lemma handleColumnRename_loaded (st : AppState) (data : list (obj jsval))
    (originalName newName : string) :
  csvData st = Some data ->
  handleColumnRename st originalName newName
  = let newRenames := obj_set (obj_spread (columnRenames st)) originalName newName in
    ({| csvData := Some data; headers := headers st;
        selectedColumns := selectedColumns st;
        columnRenames := newRenames;
        tableData := generateTableData data (selectedColumns st) newRenames;
        fileName := fileName st |}, None).
Proof.
  intros Hdata. unfold handleColumnRename, regenerate.
  cbn [csvData with_columnRenames]. rewrite Hdata.
  unfold with_tableData. cbn. by rewrite Hdata.
Qed.

Lemma toggled_NoDup (selected : list string) (column : string) :
  NoDup selected -> NoDup (toggled selected column).
Proof.
  intros Hnd. unfold toggled. destruct (includes selected column) eqn:Hinc.
  - by apply NoDup_List_filter.
  - apply NoDup_app. split; [done |]. split; [| apply NoDup_singleton].
    intros x Hx ->%list_elem_of_singleton.
    apply includes_false_iff in Hinc. done.
Qed.

Lemma elem_of_toggled (selected : list string) (column x : string) :
  x ∈ toggled selected column -> x ∈ selected \/ x = column.
Proof.
  unfold toggled. destruct (includes selected column).
  - rewrite elem_of_List_filter. tauto.
  - rewrite elem_of_app, list_elem_of_singleton. tauto.
Qed.

Lemma upload_consistent (Papa_parse : File -> PapaResult) (w : World)
    (file : option File) :
  consistent (app w) ->
  consistent (app (handleFileUpload Papa_parse w file)).
Proof.
  intros Hcons. destruct file as [file |].
  - destruct (Papa_parse file) as [data | error] eqn:Hparse.
    + change (app (handleFileUpload Papa_parse w (Some file)))
        with (uploaded Papa_parse w file).
      rewrite (upload_complete_state _ _ _ _ _ Hparse). unfold consistent.
      cbn [selectedColumns headers csvData tableData columnRenames].
      split; [apply NoDup_List_filter, priorityColumns_NoDup |].
      split; [| split; [done |]].
      * intros col Hcol. apply elem_of_List_filter in Hcol as [_ Hcol].
        by apply includes_true_iff.
      * apply elem_of_uploadedHeaders. by right.
    + unfold handleFileUpload. rewrite Hparse. exact Hcons.
  - unfold consistent. simpl. split; [constructor |]. split; [| done].
    intros col Hcol. by apply elem_of_nil in Hcol.
Qed.

(** One offered event from a consistent state runs without exception and
    leaves a consistent state. *)
Lemma handle_consistent (Papa_parse : File -> PapaResult) (w : World) (ev : Event) :
  consistent (app w) -> offered (app w) ev ->
  exists w', handle Papa_parse w ev = Some (w', None) /\ consistent (app w').
Proof.
  intros Hcons Hoff. destruct ev as [file | column | originalName newName | source destination].
  - eexists. split; [reflexivity |]. by apply upload_consistent.
  - destruct Hoff as [Hdata Hheader].
    destruct (csvData (app w)) as [data |] eqn:Hcsv; [| done].
    destruct Hcons as (Hnd & Hsub & Hinv). rewrite Hcsv in Hinv.
    destruct Hinv as [_ Hrent].
    eexists. split.
    + unfold handle. rewrite (handleColumnToggle_loaded _ data) by done. reflexivity.
    + unfold consistent. cbn. split; [by apply toggled_NoDup |]. split; [| done].
      intros col [Hcol | ->]%elem_of_toggled; [by apply Hsub | done].
  - destruct Hoff as [Hdata _].
    destruct (csvData (app w)) as [data |] eqn:Hcsv; [| done].
    destruct Hcons as (Hnd & Hsub & Hinv). rewrite Hcsv in Hinv.
    destruct Hinv as [_ Hrent].
    eexists. split.
    + unfold handle. rewrite (handleColumnRename_loaded _ data) by done. reflexivity.
    + unfold consistent. cbn. done.
  - destruct Hoff as (Hdata & Hsource & Hdest).
    destruct (csvData (app w)) as [data |] eqn:Hcsv; [| done].
    destruct Hcons as (Hnd & Hsub & Hinv).
    destruct destination as [index |].
    + destruct (lookup_lt_is_Some_2 _ _ Hsource) as [item Hitem].
      eexists. split.
      * unfold handle. rewrite (handleDragEnd_loaded _ data source index item) by done.
        reflexivity.
      * rewrite Hcsv in Hinv. destruct Hinv as [_ Hrent].
        assert (Hperm : splice_insert (delete source (selectedColumns (app w))) index item
                        ≡ₚ selectedColumns (app w)).
        { destruct (splice_insert_lookup (delete source (selectedColumns (app w)))
                      index item) as (_ & _ & ->).
          - rewrite length_delete by eauto. lia.
          - symmetry. by apply delete_Permutation. }
        unfold consistent. cbn. split; [by rewrite Hperm |]. split; [| done].
        intros col Hcol. rewrite Hperm in Hcol. by apply Hsub.
    + exists w. split; [by destruct w |]. done.
Qed.

Lemma formatValue_no_function (value : jsval) (fieldName : string) :
  replaces_prototype value = false ->
  replaces_prototype (formatValue value fieldName) = false.
Proof.
  intros Hvalue. unfold formatValue.
  repeat match goal with
         | |- context [if ?b then _ else _] => destruct b
         end; done.
Qed.

(** Text under headers that are no members of [Object.prototype] keeps the
    prototype of every row, whatever is selected among the headers and
    whatever the columns are renamed to. *)
Lemma text_data_kept (st : AppState) (data : list (obj jsval))
    (columns : list string) (renames : obj string) :
  text_data st ->
  csvData st = Some data ->
  (forall col, col ∈ columns -> col ∈ headers st) ->
  prototypes_kept data columns renames.
Proof.
  intros [Hplain Hcells] Hdata Hsub. apply Forall_forall. intros row Hrow.
  unfold keeps_prototype. apply forallb_forall. intros col Hcol%list_elem_of_In.
  apply negb_true_iff, andb_false_iff. right. apply formatValue_no_function.
  rewrite prop_not_inherited
    by (rewrite Forall_forall in Hplain; by apply Hplain, Hsub).
  destruct (obj_get row col) as [v |] eqn:Hget; [| done].
  by apply (Hcells data row col v).
Qed.

Lemma upload_text_data (Papa_parse : File -> PapaResult) (w : World)
    (file : option File) :
  parses_text Papa_parse ->
  text_data (app w) ->
  text_data (app (handleFileUpload Papa_parse w file)).
Proof.
  intros Hparser Htext. destruct file as [file |].
  - destruct (Papa_parse file) as [data errors | error] eqn:Hparse.
    + change (app (handleFileUpload Papa_parse w (Some file)))
        with (uploaded Papa_parse w file).
      rewrite (upload_complete_state _ _ _ _ _ Hparse).
      destruct (Hparser file data errors Hparse) as [Hheaders Hrows].
      split; cbn [headers csvData].
      * apply Forall_forall. intros h [Hh | ->]%elem_of_uploadedHeaders; [| done].
        rewrite Forall_forall in Hheaders. by apply Hheaders.
      * intros data' row' k v [= <-] Hrow' Hget.
        apply elem_of_map in Hrow' as (row & <- & Hrow).
        unfold withCalculatedFields in Hget.
        rewrite obj_get_set, obj_get_spread in Hget.
        destruct (String.eqb "Median Weekly Rent" k); [by injection Hget as <- |].
        apply obj_get_Some in Hget.
        rewrite Forall_forall in Hrows. specialize (Hrows row Hrow).
        rewrite Forall_forall in Hrows. destruct (Hrows _ Hget) as [text Htext'].
        cbn [snd] in Htext'. by subst v.
    + unfold handleFileUpload. rewrite Hparse. exact Htext.
  - split; [constructor | done].
Qed.

Lemma handle_text_data (Papa_parse : File -> PapaResult) (w w' : World)
    (ev : Event) (exn : option string) :
  parses_text Papa_parse ->
  text_data (app w) ->
  handle Papa_parse w ev = Some (w', exn) ->
  text_data (app w').
Proof.
  intros Hparser Htext Hstep.
  assert (Hregenerate : forall st columns renames,
             csvData (regenerate st columns renames).1 = csvData st
             /\ headers (regenerate st columns renames).1 = headers st).
  { intros st columns renames. unfold regenerate.
    destruct (csvData st) eqn:Hcsv; cbn; by rewrite ?Hcsv. }
  assert (Hsame : csvData (app w') = csvData (app w)
                  /\ headers (app w') = headers (app w) -> text_data (app w')).
  { intros [Hcsv Hheaders]. unfold text_data. by rewrite Hcsv, Hheaders. }
  destruct ev as [file | column | originalName newName | source destination];
    cbn [handle] in Hstep.
  - injection Hstep as <- _. by apply upload_text_data.
  - injection Hstep as <- _. apply Hsame. unfold handleColumnToggle.
    cbn [in_world app fst]. split; (etrans; [apply Hregenerate | done]).
  - injection Hstep as <- _. apply Hsame. unfold handleColumnRename.
    cbn [in_world app fst]. split; (etrans; [apply Hregenerate | done]).
  - destruct (handleDragEnd (app w) source destination) as [r |] eqn:Hdrag; [| done].
    injection Hstep as <- _. apply Hsame. cbn [in_world app].
    unfold handleDragEnd in Hdrag. destruct destination as [index |].
    + destruct (splice_remove (selectedColumns (app w)) source) as [items removed].
      destruct removed as [| reorderedItem removed]; [done |].
      injection Hdrag as <-. split; (etrans; [apply Hregenerate | done]).
    + by injection Hdrag as <-.
Qed.

(** X12. The events are the upload of a file, taken together with the
    callback of its parser, the reset, the tick of a check box, the edit of
    a rename field and the end of a drag; the two export buttons, which
    write a file and change no state, are not among them. The parser is
    taken to deliver text under headers none of which is called like a
    member of [Object.prototype]. In every state a session can then reach,
    the display table is the projection of the stored rows on the current
    selection and rename map, no column is selected twice, every selected
    column is a header and the derived column is a header; every row keeps
    its prototype under any selection among the headers and any rename map;
    and every such event the page offers there runs without an exception
    and leaves a state of this kind. *)
Theorem session_consistent (Papa_parse : File -> PapaResult) (w : World) :
  parses_text Papa_parse ->
  reachable Papa_parse w ->
  consistent (app w)
  /\ (forall data columns renames,
        csvData (app w) = Some data ->
        (forall col, col ∈ columns -> col ∈ headers (app w)) ->
        prototypes_kept data columns renames)
  /\ forall ev, offered (app w) ev ->
       exists w', handle Papa_parse w ev = Some (w', None) /\ consistent (app w').
Proof.
  intros Hparser Hreach.
  assert (Hinv : consistent (app w) /\ text_data (app w)).
  { unfold reachable in Hreach. remember initialWorld as w0 eqn:Hw0.
    induction Hreach as [w | w1 w2 w3 ev exn _ IH Hoff Hstep].
    - subst w. split; [| split; [constructor | done]].
      unfold consistent. simpl. split; [constructor |]. split; [| done].
      intros col Hcol. by apply elem_of_nil in Hcol.
    - destruct (IH Hw0) as [Hcons Htext]. split.
      + destruct (handle_consistent Papa_parse w2 ev Hcons Hoff) as (w' & Hw' & Hcons').
        rewrite Hstep in Hw'. by injection Hw' as -> ->.
      + by apply (handle_text_data Papa_parse w2 w3 ev exn). }
  destruct Hinv as [Hcons Htext]. split; [done |]. split.
  - intros data columns renames Hdata Hsub. by apply (text_data_kept (app w)).
  - intros ev Hoff. by apply handle_consistent.
Qed.

Lemma generateTableData_nil (columns : list string) (renames : obj string) :
  generateTableData [] columns renames = [].
Proof. reflexivity. Qed.

(** X13. A file without rows leaves the session in a dead end: the stored
    rows are an empty array, which hides the upload card, and the display
    table is empty, which hides the reset button; no control the page still
    offers changes either, so no other file can be loaded. *)
Theorem zero_row_upload_dead_end
    (Papa_parse : File -> PapaResult) (w w' : World) (file : File)
    (errors : list string) :
  Papa_parse file = PapaComplete [] errors ->
  run Papa_parse (handleFileUpload Papa_parse w (Some file)) w' ->
  csvData (app w') = Some []
  /\ tableData (app w') = []
  /\ forall f, ~ offered (app w') (EvUpload f).
Proof.
  intros Hparse Hrun.
  assert (Hstuck : csvData (app w') = Some [] /\ tableData (app w') = []).
  { remember (handleFileUpload Papa_parse w (Some file)) as w0 eqn:Hw0.
    induction Hrun as [w1 | w1 w2 w3 ev exn _ IH Hoff Hstep].
    - subst w1. change (app (handleFileUpload Papa_parse w (Some file)))
        with (uploaded Papa_parse w file).
      by rewrite (upload_complete_state _ _ _ _ _ Hparse).
    - destruct (IH Hw0) as [Hcsv Htable].
      destruct ev as [f | column | originalName newName | source destination].
      + destruct f as [f |]; simpl in Hoff; [congruence |].
        destruct Hoff as [Hnone | Hrows]; congruence.
      + unfold handle in Hstep.
        rewrite (handleColumnToggle_loaded _ []) in Hstep by done.
        by injection Hstep as <- _.
      + unfold handle in Hstep.
        rewrite (handleColumnRename_loaded _ []) in Hstep by done.
        by injection Hstep as <- _.
      + destruct Hoff as (_ & Hsource & _).
        destruct (lookup_lt_is_Some_2 _ _ Hsource) as [item Hitem].
        destruct destination as [index |]; unfold handle in Hstep.
        * rewrite (handleDragEnd_loaded _ [] source index item) in Hstep by done.
          by injection Hstep as <- _.
        * cbn [handleDragEnd] in Hstep. by injection Hstep as <- _. }
  destruct Hstuck as [Hcsv Htable]. split; [done |]. split; [done |].
  intros [f |]; simpl; [congruence |]. intros [? | ?]; congruence.
Qed.


(** ** The spreadsheet export *)

Lemma mapM_Ok {A B} (f : A -> result B) (P : A -> B -> Prop) (l : list A) :
  (forall a, a ∈ l -> exists b, f a = Ok b /\ P a b) ->
  exists bs, mapM f l = Ok bs /\ Forall2 P l bs.
Proof.
  induction l as [| a l IH]; intros Hall; simpl.
  - exists []. by split; [| constructor].
  - destruct (Hall a) as (b & Hb & HP); [constructor |].
    destruct IH as (bs & Hbs & Hall2); [intros a' Ha'; apply Hall; by constructor |].
    exists (b :: bs). rewrite Hb, Hbs. by split; [| constructor].
Qed.

Lemma getRawValue_returns (value : jsval) (header originalColumn : string) :
  exists r, getRawValue value header originalColumn = Ok r.
Proof.
  unfold getRawValue.
  assert (Hcases : truthy value = false \/ truthy value = true)
    by (destruct (truthy value); auto).
  destruct Hcases as [Ht | Ht].
  { rewrite (falsy_guard value Ht). by eexists. }
  rewrite (truthy_not_empty value Ht), (call_toString_truthy value Ht). cbn [bind].
  destruct (String.eqb originalColumn "Median Weekly Rent"); [by eexists |].
  destruct (includes percentageFields originalColumn); [by eexists |].
  destruct (includes currencyFields originalColumn); [by eexists |].
  destruct (includes numberFields originalColumn); by eexists.
Qed.

Lemma excelRows_cells (table : list (obj jsval)) (renames : obj string) :
  exists cells,
    excelRows table renames = Ok cells
    /\ Forall2
         (fun row cs =>
            Forall2 (fun header v =>
                       getRawValue (prop row header) header
                         (originalColumn_of renames header) = Ok v)
              (tableHeaders table) cs)
         table cells.
Proof.
  unfold excelRows, tableHeaders. destruct table as [| first table].
  - exists []. by split; [| constructor].
  - apply mapM_Ok. intros row _. apply mapM_Ok.
    intros header _.
    destruct (getRawValue_returns (prop row header) header
                (originalColumn_of renames header)) as [v Hv].
    by exists v.
Qed.

(** X14. The spreadsheet export never throws, whatever the display table
    of plain objects and the rename map, and its data is rectangular: one row of cells per
    display row, each with one cell per key of the first display row, also
    when later rows lack some of these keys. *)
Theorem excelRows_rectangular (table : list (obj jsval)) (renames : obj string) :
  exists cells,
    excelRows table renames = Ok cells
    /\ length cells = length table
    /\ Forall (fun cs => length cs = length (tableHeaders table)) cells.
Proof.
  destruct (excelRows_cells table renames) as (cells & Hcells & Hall).
  exists cells. split; [done |].
  split; [symmetry; exact (Forall2_length _ _ _ Hall) |].
  clear Hcells. remember (tableHeaders table) as hs eqn:Hhs. clear Hhs.
  induction Hall as [| row cs table' cells' Hrow _ IH]; constructor.
  - symmetry. exact (Forall2_length _ _ _ Hrow).
  - done.
Qed.

Lemma find_first_match {A} (f : A -> bool) (l : list A) (x : A) :
  x ∈ l -> f x = true -> exists y, List.find f l = Some y /\ f y = true.
Proof.
  intros Hin Hx. destruct (List.find f l) as [y |] eqn:Hfind.
  - exists y. split; [done |]. by apply find_some in Hfind as [_ ?].
  - apply list_elem_of_In in Hin.
    pose proof (find_none f l Hfind x Hin). congruence.
Qed.

(** X15. The export finds the column of a display name whenever that name
    is the rename-map entry of one column only: looking up the name a column
    was renamed to gives the column back. *)
Theorem originalColumn_of_unique (renames : obj string) (col name : string) :
  col <> "" ->
  obj_get renames col = Some name ->
  (forall key, obj_get renames key = Some name -> key = col) ->
  originalColumn_of renames name = col.
Proof.
  intros Hcol Hget Hunique. unfold originalColumn_of.
  set (matches := fun key => match obj_get renames key with
                             | Some n => String.eqb n name
                             | None => false
                             end).
  destruct (find_first_match matches (Object_keys renames) col) as (key & -> & Hkey).
  - rewrite Object_keys_Permutation. apply elem_of_map.
    apply obj_get_Some in Hget. by exists (col, name).
  - unfold matches. by rewrite Hget, String.eqb_refl.
  - unfold matches in Hkey. destruct (obj_get renames key) as [n |] eqn:Hn; [| done].
    apply String.eqb_eq in Hkey. subst n. apply Hunique in Hn. subst key.
    apply String.eqb_neq in Hcol. by rewrite Hcol.
Qed.


(** ** From upload to export *)

Lemma plain_not_proto (k : string) :
  Object_prototype k = None -> String.eqb k "__proto__" = false.
Proof. unfold Object_prototype. by destruct (String.eqb k "__proto__"). Qed.

Lemma priorityColumns_plain :
  Forall (fun col => Object_prototype col = None) priorityColumns.
Proof. repeat constructor. Qed.

Lemma writers_identity (renames : obj string) (row : obj jsval) (h : string)
    (columns : list string) :
  identityRenames renames ->
  Forall (fun col => Object_prototype col = None) columns ->
  NoDup columns -> h ∈ columns ->
  writers renames row h columns
  = if is_defined (prop row h) then [h] else [].
Proof.
  intros Hid Hplain Hnd Hin. unfold writers.
  induction columns as [| col columns IH]; [by apply elem_of_nil in Hin |].
  apply NoDup_cons in Hnd as [Hcol Hnd].
  apply Forall_cons in Hplain as [Hc Hplain]. simpl.
  rewrite (renamed_identity _ col Hid) by (by right).
  destruct (String.eqb_spec col h) as [-> | Hne].
  - rewrite andb_true_r.
    rewrite List_filter_none.
    + by destruct (is_defined (prop row h)).
    + intros x Hx. rewrite Forall_forall in Hplain.
      rewrite (renamed_identity _ x Hid) by (right; by apply Hplain).
      destruct (String.eqb_spec x h) as [-> | _]; [done | apply andb_false_r].
  - rewrite andb_false_r. apply IH; [done | done |].
    apply elem_of_cons in Hin as [-> | Hin]; done.
Qed.

Lemma getRawValue_undefined (header originalColumn : string) :
  getRawValue VUndefined header originalColumn = Ok (VString "").
Proof. reflexivity. Qed.

Lemma getRawValue_empty (header originalColumn : string) :
  getRawValue (VString "") header originalColumn = Ok (VString "").
Proof. reflexivity. Qed.

(** With every column under its own name, the export cell of a selected
    column is computed from the formatted raw cell. *)
Lemma export_cell_identity (renames : obj string) (columns : list string)
    (row : obj jsval) (h : string) :
  identityRenames renames ->
  Forall (fun col => Object_prototype col = None) columns ->
  NoDup columns -> h ∈ columns ->
  getRawValue (prop (filterRow columns renames row) h) h (originalColumn_of renames h)
  = getRawValue (formatValue (prop row h) h) h h.
Proof.
  intros Hid Hplain Hnd Hin. rewrite (originalColumn_of_identity _ _ Hid).
  assert (Hh : Object_prototype h = None)
    by (rewrite Forall_forall in Hplain; by apply Hplain).
  rewrite (prop_not_inherited (filterRow columns renames row) h Hh).
  rewrite filterRow_last_writer, (plain_not_proto h Hh), writers_identity by done.
  destruct (is_defined (prop row h)) eqn:Hdef; [done |].
  simpl. destruct (prop row h); [| done | done | done].
  by rewrite getRawValue_undefined.
Qed.

Lemma priorityColumns_no_index :
  Forall (fun col => is_array_index col = false) priorityColumns.
Proof. apply (bool_decide_unpack _). by vm_compute. Qed.

Lemma Forall2_impl_elem {A B} (P Q : A -> B -> Prop) (l : list A) (k : list B) :
  Forall2 P l k -> (forall a b, a ∈ l -> P a b -> Q a b) -> Forall2 Q l k.
Proof.
  induction 1 as [| a b l k Hab _ IH]; intros Himpl; constructor.
  - apply Himpl; [constructor | done].
  - apply IH. intros a' b' Ha'. apply Himpl. by constructor.
Qed.

Section FreshUpload.

Variable Papa_parse : File -> PapaResult.
Variable w : World.
Variable file : File.
Variable data : list (obj jsval).
Variable errors : list string.
Hypothesis Hparse : Papa_parse file = PapaComplete data errors.

(** X16. Exporting right after an upload: the export never throws, its
    columns are the default selection that the first row has a value for,
    and the cell of row [i] and column [h] is what [getRawValue] makes of the
    formatted raw cell of that row and column, with the kind of [h] itself;
    a cell the row lacks is exported empty. *)
Theorem fresh_upload_export :
  let st := uploaded Papa_parse w file in
  exists cells,
    excelRows (tableData st) (columnRenames st) = Ok cells
    /\ tableHeaders (tableData st) = exportColumns data (selectedColumns st)
    /\ Forall2
         (fun row cs =>
            Forall2 (fun h v =>
                       getRawValue
                         (formatValue (prop (withCalculatedFields row) h) h) h h
                       = Ok v)
              (exportColumns data (selectedColumns st)) cs)
         data cells.
Proof.
  cbv zeta. set (st := uploaded Papa_parse w file).
  destruct (excelRows_cells (tableData st) (columnRenames st)) as (cells & Hcells & Hall).
  exists cells. split; [done |]. clear Hcells.
  unfold exportColumns. revert Hall. unfold st.
  rewrite (upload_complete_state _ _ _ _ _ Hparse).
  cbn [tableData columnRenames selectedColumns].
  set (selected := List.filter _ priorityColumns).
  set (renames := fold_left (fun acc header => obj_assign acc header header)
                    (uploadedHeaders data) []).
  assert (Hid : identityRenames renames) by apply initialRenames_identity.
  assert (Hnd : NoDup selected) by apply NoDup_List_filter, priorityColumns_NoDup.
  assert (Hplain : Forall (fun col => Object_prototype col = None) selected).
  { apply Forall_forall. intros col [Hcol _]%elem_of_List_filter.
    pose proof priorityColumns_plain as Hp. rewrite Forall_forall in Hp.
    by apply Hp. }
  assert (Hren : forall col, col ∈ selected -> renamed renames col = col).
  { intros col Hcol. apply renamed_identity; [done | right].
    rewrite Forall_forall in Hplain. by apply Hplain. }
  assert (Hheaders : tableHeaders
                       (generateTableData (map withCalculatedFields data) selected renames)
                     = match data with
                       | first :: _ => presentColumns (withCalculatedFields first) selected
                       | [] => []
                       end).
  { destruct data as [| first rest]; [done |]. simpl.
    set (first' := withCalculatedFields first).
    assert (Hnames : map (renamed renames) (presentColumns first' selected)
                     = presentColumns first' selected).
    { rewrite <- (map_id (presentColumns first' selected)) at 2.
      apply map_ext_in. intros col Hcol%list_elem_of_In. apply Hren.
      by apply elem_of_List_filter in Hcol as [Hcol _]. }
    rewrite filterRow_distinct.
    2: { rewrite Hnames. by apply NoDup_List_filter. }
    2: { apply Forall_forall. intros col [Hcol _]%elem_of_List_filter.
         rewrite (Hren col Hcol). rewrite Forall_forall in Hplain.
         apply String.eqb_neq, plain_not_proto. by apply Hplain. }
    assert (Hkeys : map fst (map (displayEntry renames first')
                                (presentColumns first' selected))
                    = presentColumns first' selected)
      by (rewrite map_map; exact Hnames).
    rewrite Object_keys_no_index; rewrite Hkeys; [done |].
    apply Forall_forall. intros col Hcol.
    apply elem_of_List_filter in Hcol as [Hcol _].
    apply elem_of_List_filter in Hcol as [Hcol _].
    pose proof priorityColumns_no_index as Hno.
    rewrite Forall_forall in Hno. by apply Hno. }
  rewrite Hheaders. intros Hall. split; [done |].
  unfold generateTableData in Hall.
  change (map (filterRow selected renames) (map withCalculatedFields data))
    with (filterRow selected renames <$> (withCalculatedFields <$> data)) in Hall.
  rewrite !Forall2_fmap_l in Hall.
  eapply Forall2_impl; [exact Hall |].
  intros row cs Hrow. simpl in Hrow.
  eapply Forall2_impl_elem; [exact Hrow |].
  intros h v Hh Hv. rewrite <- Hv. symmetry.
  apply export_cell_identity; [done | done | done |].
  destruct data as [| first rest]; [by apply elem_of_nil in Hh |].
  by apply elem_of_List_filter in Hh as [Hh _].
Qed.

End FreshUpload.


(** ** Empty cells and the keys of a display row *)

Lemma append_nonempty_r (s : string) (c : ascii) : s +:+ String c "" <> "".
Proof. by destruct s. Qed.

Lemma group_rev_cons (a : ascii) (r : list ascii) :
  exists r', group_rev (a :: r) = a :: r'.
Proof. destruct r as [| b [| c [| d r]]]; by eexists. Qed.

Lemma group_thousands_nonempty (ds : list ascii) :
  ds <> [] -> group_thousands ds <> [].
Proof.
  intros Hds. unfold group_thousands.
  destruct (rev ds) as [| a r] eqn:Hrev.
  - apply (f_equal (@rev ascii)) in Hrev. rewrite rev_involutive in Hrev. done.
  - destruct (group_rev_cons a r) as [r' ->]. simpl. by destruct (rev r').
Qed.

Lemma of_chars_nonempty (l : list ascii) : l <> [] -> of_chars l <> "".
Proof. by destruct l. Qed.

Lemma toLocaleString_nonempty (x : number) : toLocaleString x <> "".
Proof.
  assert (Hbody : forall n (sign : bool),
             of_chars
               (let int_part := group_thousands (decimal_digits (n / 1000)) in
                let frac := drop_trailing_zeros (pad_left 3 (decimal_digits (n mod 1000))) in
                let body := match frac with
                            | [] => int_part
                            | _ => int_part ++ "."%char :: frac
                            end in
                if sign then "-"%char :: body else body) <> "").
  { intros n sign. apply of_chars_nonempty. cbv zeta.
    pose proof (group_thousands_nonempty _ (decimal_digits_nonempty (n / 1000))) as Hint.
    destruct sign; [done |].
    destruct (drop_trailing_zeros _); [done |].
    by destruct (group_thousands _). }
  destruct x as [s | [] | | s m e]; try done; apply Hbody.
Qed.

(** X17. A display cell is empty exactly when the raw value is falsy: a
    non-empty raw cell, whatever its text and column, is never shown as an
    empty cell. *)
Theorem formatValue_empty_iff_falsy (value : jsval) (fieldName : string) :
  formatValue value fieldName = VString "" <-> truthy value = false.
Proof.
  split.
  - intros Hfmt. destruct (truthy value) eqn:Ht; [exfalso | done].
    revert Hfmt. unfold formatValue. rewrite (truthy_not_empty value Ht).
    assert (Hvalue : value <> VString "") by (intros ->; done).
    destruct (isNaN (parseFloat value)); [done |].
    destruct (includes percentageFields fieldName).
    { intros [= Hs]. by apply append_nonempty_r in Hs. }
    destruct (includes currencyFields fieldName).
    { by destruct (String.eqb fieldName "Median Weekly Rent"). }
    destruct (includes numberFields fieldName); [| done].
    intros [= Hs]. by apply toLocaleString_nonempty in Hs.
  - intros Ht. unfold formatValue. by rewrite (falsy_guard value Ht).
Qed.

(** X18. Whatever the rename map, a display row has an entry under a key
    only when some selected column with a value in the row has that display
    name, and the entry is then the formatted cell of such a column: the
    projection shows no key and no value that does not come from a selected
    column of the row. Every selected column with a value in the row has an
    entry under its display name, unless that name is [__proto__], under
    which a display row never has an entry. A column has a value in a row
    when [row[col]] is not [undefined], be the property the row's own or
    inherited. The rows meant are those whose prototype the loop leaves
    alone. *)
Theorem filterRow_entries (columns : list string) (renames : obj string)
    (row : obj jsval) (name : string) :
  keeps_prototype columns renames row = true ->
  (forall v, obj_get (filterRow columns renames row) name = Some v ->
     name <> "__proto__"
     /\ exists col, col ∈ columns /\ renamed renames col = name
                    /\ is_defined (prop row col) = true
                    /\ v = formatValue (prop row col) col)
  /\ (forall col, col ∈ columns -> renamed renames col = name ->
        is_defined (prop row col) = true ->
        name <> "__proto__" ->
        is_Some (obj_get (filterRow columns renames row) name))
  /\ obj_get (filterRow columns renames row) "__proto__" = None.
Proof.
  intros _. split; [| split; [| apply filterRow_no_proto]].
  - rewrite filterRow_last_writer. intros v Hv.
    destruct (String.eqb_spec name "__proto__") as [| Hname]; [done |].
    split; [done |].
    destruct (last (writers renames row name columns)) as [col |] eqn:Hlast;
      [| done].
    injection Hv as <-. exists col.
    apply last_Some_elem_of in Hlast. unfold writers in Hlast.
    apply elem_of_List_filter in Hlast as [Hcol Hw].
    apply andb_true_iff in Hw as [Hdef Hn%String.eqb_eq]. done.
  - intros col Hcol Hname Hdef Hproto. rewrite filterRow_last_writer.
    apply String.eqb_neq in Hproto. rewrite Hproto.
    assert (Hw : col ∈ writers renames row name columns).
    { unfold writers. apply elem_of_List_filter. split; [done |].
      by rewrite Hdef, Hname, String.eqb_refl. }
    destruct (last (writers renames row name columns)) as [c |] eqn:Hlast;
      [by eexists |].
    apply last_None in Hlast. rewrite Hlast in Hw. by apply elem_of_nil in Hw.
Qed.

(** ** Numeric cells: the derived column *)

(** *** The numbers the arithmetic produces are normalised *)

Lemma shr_m_value (r : shr_record) (e n : Z) :
  0 <= shr_m r -> 0 <= n ->
  shr_m (shr r e n).1 = shr_m r / 2 ^ n /\ (shr r e n).2 = e + n.
Proof.
  intros Hr Hn. destruct n as [| p | p]; [| | lia].
  - simpl. rewrite Z.div_1_r. split; [done | lia].
  - cbn [shr fst snd]. split; [| done]. by apply iter_shr_1_m.
Qed.

Lemma shr_m_nothing (r : shr_record) (e n : Z) : n <= 0 -> shr r e n = (r, e).
Proof. intros Hn. destruct n as [| p | p]; [done | lia | done]. Qed.

Lemma Zdigits2_bounds (m : Z) :
  0 < m -> 2 ^ (Zdigits2 m - 1) <= m < 2 ^ Zdigits2 m.
Proof. intros Hm. destruct m as [| p | p]; try lia. apply digits2_bounds. Qed.

(** A finite result of rounding with a non-negative exponent has a full
    53-bit mantissa, when the rounded mantissa had 53 bits or more or its
    exponent was at most the least one. *)
Lemma binary_round_aux_canonical (s : bool) (q e : Z) (l : location)
    (s' : bool) (m' : positive) (e' : Z) :
  0 <= q -> 2 ^ 52 <= q \/ e <= -1074 ->
  binary_round_aux prec emax s q e l = S754_finite s' m' e' ->
  0 <= e' ->
  2 ^ 52 <= Zpos m' < 2 ^ 53.
Proof.
  intros Hq Hbig. unfold binary_round_aux, shr_fexp.
  set (dq := Zdigits2 q). rewrite fexp64.
  set (f0 := Z.max (dq + e - 53) (-1074)).
  assert (Hdq : 0 < q -> 2 ^ (dq - 1) <= q < 2 ^ dq) by apply Zdigits2_bounds.
  assert (Hshift0 : 0 <= f0 - e).
  { destruct Hbig as [Hbig | Hbig]; [| lia].
    destruct (Z.le_gt_cases 53 dq) as [| Hlt]; [lia |].
    assert (2 ^ dq <= 2 ^ 52) by (apply Z.pow_le_mono_r; lia). lia. }
  destruct (shr_m_value (shr_record_of_loc q l) e (f0 - e)) as [Hm1 He1];
    [by rewrite shr_record_of_loc_m | done |].
  rewrite shr_record_of_loc_m in Hm1.
  destruct (shr (shr_record_of_loc q l) e (f0 - e)) as [r1 e1].
  cbn [fst snd] in Hm1, He1.
  assert (He1' : e1 = f0) by lia. clear He1.
  assert (Hpow0 : 0 < 2 ^ (f0 - e)) by (apply Z.pow_pos_nonneg; lia).
  assert (Hm1nn : 0 <= shr_m r1) by (rewrite Hm1; apply Z.div_pos; lia).
  assert (Hm1b : shr_m r1 < 2 ^ 53).
  { rewrite Hm1. destruct (Z.eq_dec q 0) as [-> | Hq0]; [done |].
    specialize (Hdq ltac:(lia)).
    apply Z.div_lt_upper_bound; [done |].
    destruct (Z.le_gt_cases dq 53) as [Hle | Hgt].
    - assert (2 ^ dq <= 2 ^ 53) by (apply Z.pow_le_mono_r; lia). nia.
    - assert (E : 2 ^ dq = 2 ^ (dq - 53) * 2 ^ 53)
        by (rewrite <- Z.pow_add_r by lia; f_equal; lia).
      assert (2 ^ (dq - 53) <= 2 ^ (f0 - e)) by (apply Z.pow_le_mono_r; lia).
      nia. }
  pose proof (round_nearest_even_bounds (shr_m r1) (loc_of_shr_record r1)) as Hm2.
  set (m2 := round_nearest_even (shr_m r1) (loc_of_shr_record r1)) in *.
  rewrite fexp64.
  destruct (Z.eq_dec m2 (2 ^ 53)) as [Hm2e | Hm2ne].
  - rewrite Hm2e. change (Zdigits2 (2 ^ 53)) with 54.
    rewrite Z.max_l by lia.
    replace (54 + e1 - 53 - e1) with 1 by lia.
    cbn [shr shr_record_of_loc SpecFloat.iter_pos].
    change (shr_1 {| shr_m := 2 ^ 53; shr_r := false; shr_s := false |})
      with (rec0 (2 ^ 52)).
    cbn [rec0 shr_m]. change (2 ^ 52) with (Zpos (2 ^ 52)). cbv iota.
    destruct (e1 + 1 <=? emax - prec); [| done].
    intros [= _ <- _] _. done.
  - assert (Hd2 : Zdigits2 m2 <= 53).
    { destruct (Z.eq_dec m2 0) as [-> | ]; [done |].
      pose proof (Zdigits2_bounds m2 ltac:(lia)) as Hb.
      destruct (Z.le_gt_cases (Zdigits2 m2) 53) as [| Hgt]; [done |].
      assert (2 ^ 53 <= 2 ^ (Zdigits2 m2 - 1)) by (apply Z.pow_le_mono_r; lia).
      lia. }
    rewrite shr_m_nothing by lia.
    rewrite shr_record_of_loc_m.
    destruct m2 as [| p2 | p2] eqn:Hp2; [done | | done].
    destruct (e1 <=? emax - prec); [| done].
    intros [= _ <- <-] He'. split; [| lia].
    assert (Hf0 : f0 = dq + e - 53) by lia.
    assert (Hq0 : 0 < q).
    { destruct (Z.eq_dec q 0) as [Hz | ]; [| lia].
      unfold dq in Hf0. rewrite Hz in Hf0. simpl in Hf0. lia. }
    specialize (Hdq Hq0).
    assert (2 ^ 52 <= shr_m r1); [| lia].
    rewrite Hm1. apply Z.div_le_lower_bound; [done |].
    replace (f0 - e) with (dq - 53) by lia.
    rewrite <- Z.pow_add_r by lia.
    replace (dq - 53 + 52) with (dq - 1) by lia. lia.
Qed.

Lemma SFdiv_core_binary_digits (m1 m2 : positive) (e1 e2 : Z) :
  let '(q, e', _) := SFdiv_core_binary prec emax (Zpos m1) e1 (Zpos m2) e2 in
  0 <= q /\ (2 ^ 52 <= q \/ e' <= -1074).
Proof.
  unfold SFdiv_core_binary. rewrite fexp64.
  change (Zdigits2 (Zpos m1)) with (Zpos (digits2_pos m1)).
  change (Zdigits2 (Zpos m2)) with (Zpos (digits2_pos m2)).
  pose proof (digits2_bounds m1) as H1. pose proof (digits2_bounds m2) as H2.
  set (d1 := Zpos (digits2_pos m1)) in *. set (d2 := Zpos (digits2_pos m2)) in *.
  set (e' := Z.min (Z.max (d1 + e1 - (d2 + e2) - 53) (-1074)) (e1 - e2)).
  set (s := e1 - e2 - e').
  assert (Hs : 0 <= s) by (unfold s, e'; lia).
  set (m' := match s with Z0 => Zpos m1 | Zpos _ => Z.shiftl (Zpos m1) s | Zneg _ => 0 end).
  assert (Hm' : m' = Zpos m1 * 2 ^ s).
  { unfold m'. destruct s as [| p | p] eqn:Hp; [simpl; lia | | lia].
    by rewrite Z.shiftl_mul_pow2. }
  assert (Hpow : 0 < 2 ^ s) by (apply Z.pow_pos_nonneg; lia).
  pose proof (div_eucl_nonneg m' (Zpos m2) ltac:(nia) ltac:(lia)) as Hq.
  assert (Hquot : (Z.div_eucl m' (Zpos m2)).1 = m' / Zpos m2) by done.
  destruct (Z.div_eucl m' (Zpos m2)) as [q r]. cbn [fst] in Hq, Hquot.
  split; [done |].
  destruct (Z.le_gt_cases e' (-1074)) as [| He']; [by right | left].
  assert (Hs53 : 53 - d1 + d2 <= s) by (unfold s, e' in *; lia).
  rewrite Hquot, Hm'. apply Z.div_le_lower_bound; [lia |].
  assert (0 < 2 ^ (d1 - 1)) by (apply Z.pow_pos_nonneg; lia).
  assert (0 < 2 ^ d2) by (apply Z.pow_pos_nonneg; lia).
  destruct (Z.le_gt_cases 0 (53 - d1 + d2)) as [Hpos | Hneg].
  - assert (E1 : 2 ^ (53 - d1 + d2) <= 2 ^ s) by (apply Z.pow_le_mono_r; lia).
    assert (E2 : 2 ^ (d1 - 1) * 2 ^ (53 - d1 + d2) = 2 ^ 52 * 2 ^ d2).
    { rewrite <- !Z.pow_add_r by lia. f_equal. lia. }
    nia.
  - assert (E1 : 2 ^ (52 + d2) <= 2 ^ (d1 - 1)) by (apply Z.pow_le_mono_r; lia).
    rewrite Z.pow_add_r in E1 by lia. nia.
Qed.

(** A finite quotient with a non-negative exponent has a full mantissa. *)
Lemma num_div_canonical (x y : number) (s : bool) (m : positive) (e : Z) :
  num_div x y = S754_finite s m e -> 0 <= e -> 2 ^ 52 <= Zpos m < 2 ^ 53.
Proof.
  unfold num_div, SFdiv.
  destruct x as [sx | sx | | sx mx ex], y as [sy | sy | | sy my ey]; try done.
  pose proof (SFdiv_core_binary_digits mx my ex ey) as Hcore.
  destruct (SFdiv_core_binary prec emax (Zpos mx) ex (Zpos my) ey) as [[q e'] l].
  destruct Hcore as [Hq Hbig]. intros Hx He.
  exact (binary_round_aux_canonical _ q e' l s m e Hq Hbig Hx He).
Qed.

Lemma binary_normalize_num_of_Z (n : Z) :
  0 < n -> binary_normalize prec emax n 0 false = num_of_Z n.
Proof.
  intros Hn. destruct n as [| p | p]; try lia.
  unfold num_of_Z. change (Zpos p <? 0) with false. change (Z.abs (Zpos p)) with (Zpos p).
  rewrite of_decimal_integer, round_ratio_unfold.
  unfold binary_normalize, binary_round, shl_align.
  rewrite fexp64. pose proof (digits2_bounds p) as Hp.
  set (d := Zpos (digits2_pos p)) in *.
  assert (Hd1 : 1 <= d) by lia.
  rewrite Z.add_0_r, Z.max_l, Z.sub_0_r by lia.
  destruct (Z.le_gt_cases d 53) as [Hd | Hd].
  - assert (Hpow : 0 < 2 ^ (53 - d)) by (apply Z.pow_pos_nonneg; lia).
    assert (E1 : 2 ^ 52 = 2 ^ (d - 1) * 2 ^ (53 - d))
      by (rewrite <- Z.pow_add_r by lia; f_equal; lia).
    assert (E2 : 2 ^ 53 = 2 ^ d * 2 ^ (53 - d))
      by (rewrite <- Z.pow_add_r by lia; f_equal; lia).
    set (M := Zpos p * 2 ^ (53 - d)).
    assert (HM : 2 ^ 52 <= M < 2 ^ 53) by (unfold M; rewrite E1, E2; nia).
    assert (Hpair : (match d - 53 with
                     | Zneg q => (Pos.iter xO p q, d - 53)
                     | _ => (p, 0)
                     end) = (Z.to_pos M, d - 53)).
    { destruct (d - 53) as [| q | q] eqn:Hq; [| lia |].
      - unfold M. replace (53 - d) with 0 by lia. f_equal. simpl. lia.
      - f_equal. apply Pos2Z.inj. rewrite Z2Pos.id by lia.
        rewrite iter_xO_pow2. unfold M. do 2 f_equal. lia. }
    rewrite Hpair, Z2Pos.id by lia.
    rewrite Z.min_l by lia.
    replace (Zpos p * 2 ^ (- (d - 54))) with (M * 2 ^ 1)
      by (unfold M; rewrite <- Z.mul_assoc, <- Z.pow_add_r by lia; do 2 f_equal; lia).
    replace M with (M * 2 ^ 0) at 1 by lia.
    rewrite !binary_round_aux_exact by lia. f_equal. lia.
  - destruct (d - 53) as [| q | q] eqn:Hq; try lia.
    rewrite Z.min_r by lia. change (- 0) with 0.
    by rewrite Z.pow_0_r, Z.mul_1_r.
Qed.

Lemma Math_round_num_of_Z (x : number) (n : Z) :
  nonnegative x ->
  (forall s m e, x = S754_finite s m e -> 0 <= e -> 2 ^ 52 <= Zpos m < 2 ^ 53) ->
  exact_Z (Math_round x) = Some n -> 0 < n < 2 ^ 53 ->
  Math_round x = num_of_Z n.
Proof.
  intros [Hnan Hsign] Hcanon Hexact Hn.
  destruct x as [s | s | | s m e]; try done.
  - cbn [sign_of] in Hsign. subst s. vm_compute in Hexact.
    injection Hexact as <-. lia.
  - cbn [sign_of] in Hsign. subst s. cbn [Math_round] in *.
    destruct (Z.leb_spec 0 e) as [He | He].
    + destruct (Hcanon false m e eq_refl He) as [Hlo Hhi].
      unfold exact_Z in Hexact. cbn [is_finite abs_ratio sign_of] in Hexact.
      destruct (Z.leb_spec 0 e); [| lia].
      rewrite Z.mod_1_r, Z.div_1_r in Hexact. simpl in Hexact.
      injection Hexact as <-.
      assert (e = 0) as ->.
      { destruct (Z.eq_dec e 0) as [| Hne]; [done |].
        assert (2 ^ 1 <= 2 ^ e) by (apply Z.pow_le_mono_r; lia).
        change (2 ^ 53) with (2 ^ 52 * 2 ^ 1) in Hn. nia. }
      rewrite Z.pow_0_r, Z.mul_1_r in *.
      destruct (num_of_Z_finite_form (Zpos m) Hn) as (m' & e' & -> & He' & Hm' & Hr').
      assert (e' = 0) as ->.
      { destruct (Z.eq_dec e' 0) as [| Hne]; [done |].
        assert (2 ^ 1 <= 2 ^ (- e')) by (apply Z.pow_le_mono_r; lia).
        change (2 ^ 53) with (2 ^ 52 * 2 ^ 1) in Hr'. nia. }
      simpl in Hm'. f_equal. lia.
    + set (N := Z.shiftr (2 * cond_Zopp false (Zpos m) + 2 ^ (- e)) (- e + 1)) in *.
      assert (HN : 0 <= N).
      { apply Z.shiftr_nonneg.
        assert (0 < 2 ^ (- e)) by (apply Z.pow_pos_nonneg; lia).
        unfold cond_Zopp. lia. }
      destruct (Z.eq_dec N 0) as [HN0 | HN0].
      { rewrite HN0 in Hexact. vm_compute in Hexact. injection Hexact as <-. lia. }
      rewrite binary_normalize_num_of_Z in * by lia.
      destruct (Z.lt_ge_cases N (2 ^ 53)) as [Hsmall | Hlarge].
      * destruct (exact_Z_num_of_Z N) as [_ HexN]; [lia |]. congruence.
      * destruct N as [| p | p]; try lia.
        pose proof (exact_Z_large p n Hlarge Hexact). lia.
Qed.

(** The derived weekly rent, when it is a positive integer below [2 ^ 53],
    is the number that integer literal denotes. *)
Lemma calculateMedianWeeklyRent_num_of_Z (row : obj jsval) (n : Z) :
  exact_Z (calculateMedianWeeklyRent row) = Some n -> 0 < n < 2 ^ 53 ->
  calculateMedianWeeklyRent row = num_of_Z n.
Proof.
  unfold calculateMedianWeeklyRent.
  set (price := num_or (parseFloat (prop row "Suburb $ Median")) (num_of_Z 0)).
  set (yield := num_or (parseFloat (prop row "Rental Yield")) (num_of_Z 0)).
  destruct (num_gtb price (num_of_Z 0)) eqn:Hp;
    [| intros Hz ?; vm_compute in Hz; injection Hz as <-; lia].
  destruct (num_gtb yield (num_of_Z 0)) eqn:Hy;
    [| intros Hz ?; vm_compute in Hz; injection Hz as <-; lia].
  cbn [andb]. cbv zeta.
  pose proof (num_mul_nonnegative price yield Hp Hy) as Hmul.
  assert (H52 : exists m e, num_of_Z 52 = S754_finite false m e)
    by (by vm_compute; eauto).
  destruct H52 as (m & e & H52).
  pose proof (num_div_nonnegative _ m e Hmul) as Hdiv. rewrite <- H52 in Hdiv.
  apply Math_round_num_of_Z; [done |].
  intros s' m' e' Hx. exact (num_div_canonical _ _ s' m' e' Hx).
Qed.

Lemma exact_Z_zero (x : number) : exact_Z x = Some 0 -> num_truthy x = false.
Proof.
  destruct x as [s | s | | s m e]; try done.
  unfold exact_Z. cbn [is_finite abs_ratio sign_of].
  destruct (Z.leb_spec 0 e) as [He | He].
  - rewrite Z.mod_1_r, Z.div_1_r. simpl.
    assert (0 < 2 ^ e) by (apply Z.pow_pos_nonneg; lia).
    intros [= Hz]. destruct s; simpl in Hz; nia.
  - assert (Hpow : 0 < 2 ^ (- e)) by (apply Z.pow_pos_nonneg; lia).
    destruct (Z.eqb_spec (Zpos m mod 2 ^ (- e)) 0) as [Hmod | _]; [| done].
    intros [= Hz].
    assert (Hq : Zpos m / 2 ^ (- e) = 0) by (destruct s; simpl in Hz; lia).
    pose proof (Z.div_mod (Zpos m) (2 ^ (- e)) ltac:(lia)) as Hdm.
    rewrite Hq, Hmod in Hdm. lia.
Qed.

(** X19. The derived column survives display and export: a weekly rent
    that is a positive integer below [2 ^ 53] is shown as a dollar sign and
    its digits in groups of three, and the export reads the number back from
    that text; a weekly rent of zero is shown as an empty cell and exported
    as an empty string, not as the number 0. *)
Theorem derived_column_round_trip (row : obj jsval) (n : Z) (header : string) :
  exact_Z (calculateMedianWeeklyRent row) = Some n -> 0 <= n < 2 ^ 53 ->
  let rent := VNumber (calculateMedianWeeklyRent row) in
  let shown := formatValue rent "Median Weekly Rent" in
  (n = 0 ->
   shown = VString ""
   /\ getRawValue shown header "Median Weekly Rent" = Ok (VString ""))
  /\ (0 < n ->
      shown = VString ("$" +:+ of_chars (group_thousands (decimal_digits n)))
      /\ getRawValue shown header "Median Weekly Rent" = Ok rent).
Proof.
  intros Hexact Hn. cbv zeta. split.
  - intros ->. apply exact_Z_zero in Hexact.
    assert (Hshown : formatValue (VNumber (calculateMedianWeeklyRent row))
                       "Median Weekly Rent" = VString "").
    { unfold formatValue. cbn [truthy]. by rewrite Hexact. }
    by rewrite Hshown.
  - intros Hpos.
    rewrite (calculateMedianWeeklyRent_num_of_Z row n Hexact) by lia.
    destruct (exact_Z_num_of_Z n) as [Hfin _]; [lia |].
    assert (Hsafe : Z.abs n < 2 ^ 53) by lia.
    pose proof (toLocaleString_num_of_Z n Hsafe) as Htext.
    rewrite Z.abs_eq in Htext by lia.
    destruct (Z.ltb_spec n 0); [lia |]. cbn [signChars app] in Htext.
    destruct (unformat_locale_integer n Hfin) as [Hread _].
    destruct (num_of_Z_finite_form n) as (m & e & Hx & _); [lia |].
    assert (Hshown : formatValue (VNumber (num_of_Z n)) "Median Weekly Rent"
                     = VString ("$" +:+ toLocaleString (num_of_Z n))).
    { unfold formatValue. cbn [truthy is_empty_string]. unfold parseFloat.
      cbn [ToString]. rewrite Number_toString_reads_back by lia.
      rewrite (finite_not_NaN _ Hfin). rewrite Hx at 1. by cbn [num_truthy negb orb]. }
    rewrite Hshown. split; [by rewrite Htext |].
    unfold getRawValue. cbn [truthy is_empty_string].
    change (String.eqb ("$" +:+ ?s) "") with false.
    cbn [negb orb]. rewrite String.eqb_refl.
    cbn [call_toString ToString bind]. rewrite Hread.
    unfold or_zero. by rewrite (finite_not_NaN _ Hfin).
Qed.

(** ** Instances of the properties above *)

Lemma sortHeaders_same_headers_witness :
  NoDup ["Zeta"; "Suburb"; "Alpha"]
  /\ sortHeaders ["Zeta"; "Suburb"; "Alpha"] ≡ₚ ["Zeta"; "Suburb"; "Alpha"].
Proof.
  assert (Hnd : NoDup ["Zeta"; "Suburb"; "Alpha"])
    by (apply (bool_decide_unpack _); by vm_compute).
  split; [exact Hnd |].
  exact (proj2 (sortHeaders_same_headers ["Zeta"; "Suburb"; "Alpha"]) Hnd).
Defined.

Lemma sortHeaders_order_independent_witness :
  ["Zeta"; "Suburb"] ≡ₚ ["Suburb"; "Zeta"]
  /\ sortHeaders ["Zeta"; "Suburb"] = sortHeaders ["Suburb"; "Zeta"].
Proof.
  split; [apply perm_swap |].
  apply sortHeaders_order_independent, perm_swap.
Defined.

Lemma upload_default_selection_witness :
  rentParser rentFile = PapaComplete rentCsv []
  /\ selectedColumns (uploaded rentParser initialWorld rentFile)
     = ["Suburb"; "Median Weekly Rent"]
  /\ "Median Weekly Rent" ∈ selectedColumns (uploaded rentParser initialWorld rentFile).
Proof.
  pose proof (upload_default_selection rentParser initialWorld rentFile rentCsv [] eq_refl) as H.
  cbv zeta in H. destruct H as (Hsel & Hrent & _).
  split; [reflexivity |]. split; [| exact Hrent].
  rewrite Hsel. by vm_compute.
Defined.

Lemma upload_identity_renames_witness :
  rentParser rentFile = PapaComplete rentCsv []
  /\ "Agent" ∈ headers (uploaded rentParser initialWorld rentFile)
  /\ "Agent" <> "__proto__"
  /\ renamed (columnRenames (uploaded rentParser initialWorld rentFile)) "Agent" = "Agent"
  /\ originalColumn_of (columnRenames (uploaded rentParser initialWorld rentFile)) "Agent"
     = "Agent".
Proof.
  assert (Hin : "Agent" ∈ headers (uploaded rentParser initialWorld rentFile))
    by (by apply includes_true_iff).
  assert (Hne : "Agent" <> "__proto__") by discriminate.
  pose proof (upload_identity_renames rentParser initialWorld rentFile rentCsv []
                eq_refl "Agent") as H.
  cbv zeta in H. destruct H as (_ & Hname & Hcol).
  split; [reflexivity |]. split; [exact Hin |]. split; [exact Hne |].
  split; [| exact Hcol]. apply Hname. left. by split.
Defined.

Lemma upload_rows_witness :
  rentParser rentFile = PapaComplete rentCsv []
  /\ exists rows,
      csvData (uploaded rentParser initialWorld rentFile) = Some rows
      /\ length rows = 1%nat.
Proof.
  pose proof (upload_rows rentParser initialWorld rentFile rentCsv [] eq_refl) as H.
  cbv zeta in H. destruct H as (rows & Hrows & Hlen & _).
  split; [reflexivity |]. exists rows. by split.
Defined.

Lemma calculateMedianWeeklyRent_whole_witness :
  is_finite (calculateMedianWeeklyRent (rent_row "650000" "0.04")) = true
  /\ is_Some (exact_Z (calculateMedianWeeklyRent (rent_row "650000" "0.04"))).
Proof.
  split; [by vm_compute |].
  apply (calculateMedianWeeklyRent_whole (rent_row "650000" "0.04")).
  by vm_compute.
Defined.

Lemma toggle_on_off_witness :
  csvData (app rentWorld) = Some rentRows
  /\ ("Agent" ∉ selectedColumns (app rentWorld))
  /\ prototypes_kept rentRows (selectedColumns (app rentWorld) ++ ["Agent"])
       (columnRenames (app rentWorld))
  /\ selectedColumns (handleColumnToggle (app rentWorld) "Agent").1
     = ["Suburb"; "Median Weekly Rent"; "Agent"]
  /\ (handleColumnToggle (handleColumnToggle (app rentWorld) "Agent").1 "Agent").1
     = app rentWorld.
Proof.
  assert (Hout : "Agent" ∉ selectedColumns (app rentWorld))
    by (by apply includes_false_iff).
  assert (Hkept : prototypes_kept rentRows
                    (selectedColumns (app rentWorld) ++ ["Agent"])
                    (columnRenames (app rentWorld)))
    by (apply (bool_decide_unpack _); by vm_compute).
  destruct (toggle_on_off (app rentWorld) rentRows "Agent" eq_refl Hout Hkept)
    as (Hon & _ & _ & _ & Hback).
  split; [reflexivity |]. split; [exact Hout |]. split; [exact Hkept |]. split.
  - rewrite Hon. by vm_compute.
  - apply Hback. by vm_compute.
Defined.

Lemma toggle_off_on_witness :
  csvData (app rentWorld) = Some rentRows
  /\ "Suburb" ∈ selectedColumns (app rentWorld)
  /\ prototypes_kept rentRows (selectedColumns (app rentWorld))
       (columnRenames (app rentWorld))
  /\ selectedColumns
       (handleColumnToggle (handleColumnToggle (app rentWorld) "Suburb").1 "Suburb").1
     = ["Median Weekly Rent"; "Suburb"].
Proof.
  assert (Hin : "Suburb" ∈ selectedColumns (app rentWorld))
    by (by apply includes_true_iff).
  assert (Hkept : prototypes_kept rentRows (selectedColumns (app rentWorld))
                    (columnRenames (app rentWorld)))
    by (apply (bool_decide_unpack _); by vm_compute).
  destruct (toggle_off_on (app rentWorld) rentRows "Suburb" eq_refl Hin Hkept)
    as (_ & _ & _ & Hon & _).
  split; [reflexivity |]. split; [exact Hin |]. split; [exact Hkept |].
  rewrite Hon. by vm_compute.
Defined.

Lemma rename_changes_one_name_witness :
  csvData (app rentWorld) = Some rentRows
  /\ prototypes_kept rentRows (selectedColumns (app rentWorld))
       (columnRenames (handleColumnRename (app rentWorld) "Suburb" "Place").1)
  /\ prototypes_kept rentRows (selectedColumns (app rentWorld))
       (columnRenames (handleColumnRename (app rentWorld) "Suburb" "").1)
  /\ renamed (columnRenames (handleColumnRename (app rentWorld) "Suburb" "Place").1)
       "Suburb" = "Place"
  /\ renamed (columnRenames (handleColumnRename (app rentWorld) "Suburb" "").1)
       "Suburb" = "Suburb".
Proof.
  assert (Hkept1 : prototypes_kept rentRows (selectedColumns (app rentWorld))
                     (columnRenames
                        (handleColumnRename (app rentWorld) "Suburb" "Place").1))
    by (apply (bool_decide_unpack _); by vm_compute).
  assert (Hkept2 : prototypes_kept rentRows (selectedColumns (app rentWorld))
                     (columnRenames (handleColumnRename (app rentWorld) "Suburb" "").1))
    by (apply (bool_decide_unpack _); by vm_compute).
  destruct (rename_changes_one_name (app rentWorld) rentRows "Suburb" "Place" eq_refl
              Hkept1) as (_ & Hplace & _).
  destruct (rename_changes_one_name (app rentWorld) rentRows "Suburb" "" eq_refl
              Hkept2) as (_ & Hempty & _).
  split; [reflexivity |]. split; [exact Hkept1 |]. split; [exact Hkept2 |]. by split.
Defined.

Lemma drag_moves_one_column_witness :
  csvData (app rentWorld) = Some rentRows
  /\ (0 < length (selectedColumns (app rentWorld)))%nat
  /\ (1 < length (selectedColumns (app rentWorld)))%nat
  /\ prototypes_kept rentRows (selectedColumns (app rentWorld))
       (columnRenames (app rentWorld))
  /\ exists st',
      handleDragEnd (app rentWorld) 0 (Some 1%nat) = Some (st', None)
      /\ selectedColumns st' !! 1%nat = Some "Suburb".
Proof.
  assert (H0 : (0 < length (selectedColumns (app rentWorld)))%nat) by (simpl; lia).
  assert (H1 : (1 < length (selectedColumns (app rentWorld)))%nat) by (simpl; lia).
  assert (Hkept : prototypes_kept rentRows (selectedColumns (app rentWorld))
                    (columnRenames (app rentWorld)))
    by (apply (bool_decide_unpack _); by vm_compute).
  destruct (drag_moves_one_column (app rentWorld) rentRows 0 1 eq_refl H0 H1 Hkept)
    as (st' & item & Hdrag & Hitem & Hat & _).
  split; [reflexivity |]. split; [exact H0 |]. split; [exact H1 |].
  split; [exact Hkept |].
  exists st'. split; [exact Hdrag |].
  rewrite Hat. f_equal. vm_compute in Hitem. by injection Hitem as <-.
Defined.

Lemma rentWorld_reachable : reachable rentParser rentWorld.
Proof.
  apply (run_step rentParser initialWorld initialWorld rentWorld
           (EvUpload (Some rentFile)) None); [apply run_refl | reflexivity | reflexivity].
Defined.

Lemma rentParser_text : parses_text rentParser.
Proof.
  intros file data errors [= <- _]. split.
  - apply (bool_decide_unpack _). by vm_compute.
  - repeat constructor; by eexists.
Defined.

Lemma session_consistent_witness :
  parses_text rentParser
  /\ reachable rentParser rentWorld
  /\ consistent (app rentWorld)
  /\ exists w', handle rentParser rentWorld (EvToggle "Agent") = Some (w', None).
Proof.
  destruct (session_consistent rentParser rentWorld rentParser_text
              rentWorld_reachable) as (Hcons & _ & Hstep).
  split; [exact rentParser_text |].
  split; [exact rentWorld_reachable |]. split; [exact Hcons |].
  destruct (Hstep (EvToggle "Agent")) as (w' & Hw' & _).
  - split; [discriminate |]. by apply includes_true_iff.
  - by exists w'.
Defined.

Lemma zero_row_upload_dead_end_witness :
  emptyParser rentFile = PapaComplete [] []
  /\ csvData (app (handleFileUpload emptyParser initialWorld (Some rentFile))) = Some []
  /\ ~ offered (app (handleFileUpload emptyParser initialWorld (Some rentFile)))
         (EvUpload (Some rentFile))
  /\ ~ offered (app (handleFileUpload emptyParser initialWorld (Some rentFile)))
         (EvUpload None).
Proof.
  destruct (zero_row_upload_dead_end emptyParser initialWorld
              (handleFileUpload emptyParser initialWorld (Some rentFile)) rentFile []
              eq_refl (run_refl _ _)) as (Hcsv & _ & Hnone).
  split; [reflexivity |]. split; [exact Hcsv |]. split; apply Hnone.
Defined.

Lemma originalColumn_of_unique_witness :
  "Suburb" <> ""
  /\ obj_get uniqueRenames "Suburb" = Some "Place"
  /\ originalColumn_of uniqueRenames "Place" = "Suburb".
Proof.
  split; [discriminate |]. split; [reflexivity |].
  apply (originalColumn_of_unique uniqueRenames "Suburb" "Place");
    [discriminate | reflexivity |].
  intros key. unfold uniqueRenames. cbn [obj_get].
  destruct (String.eqb_spec "Suburb" key) as [<- | _]; [done |].
  destruct (String.eqb_spec "State" key) as [_ | _]; [discriminate |].
  destruct (String.eqb_spec "Population" key) as [_ | _]; discriminate.
Defined.

Lemma fresh_upload_export_witness :
  rentParser rentFile = PapaComplete rentCsv []
  /\ exists cells,
      excelRows (tableData (uploaded rentParser initialWorld rentFile))
        (columnRenames (uploaded rentParser initialWorld rentFile)) = Ok cells
      /\ tableHeaders (tableData (uploaded rentParser initialWorld rentFile))
         = ["Suburb"; "Median Weekly Rent"].
Proof.
  pose proof (fresh_upload_export rentParser initialWorld rentFile rentCsv [] eq_refl) as H.
  cbv zeta in H. destruct H as (cells & Hcells & Hheaders & _).
  split; [reflexivity |]. exists cells. split; [exact Hcells |].
  rewrite Hheaders. by vm_compute.
Defined.

Lemma formatValue_empty_iff_falsy_witness :
  truthy (VNumber (num_of_Z 0)) = false
  /\ formatValue (VNumber (num_of_Z 0)) "Median Weekly Rent" = VString "".
Proof.
  split; [reflexivity |].
  by apply (formatValue_empty_iff_falsy (VNumber (num_of_Z 0)) "Median Weekly Rent").
Defined.

Lemma filterRow_entries_witness :
  keeps_prototype abColumns abRenames abRow = true
  /\ obj_get (filterRow abColumns abRenames abRow) "X" = Some (VString "2")
  /\ exists col, col ∈ abColumns /\ renamed abRenames col = "X"
                 /\ VString "2" = formatValue (prop abRow col) col.
Proof.
  assert (Hget : obj_get (filterRow abColumns abRenames abRow) "X" = Some (VString "2"))
    by (by vm_compute).
  split; [reflexivity |]. split; [exact Hget |].
  destruct (proj1 (filterRow_entries abColumns abRenames abRow "X" eq_refl) _ Hget)
    as (_ & col & Hcol & Hname & _ & Hvalue).
  by exists col.
Defined.

Lemma derived_column_round_trip_witness :
  exact_Z (calculateMedianWeeklyRent (rent_row "650000" "0.04")) = Some 500
  /\ 0 <= 500 < 2 ^ 53
  /\ formatValue (VNumber (calculateMedianWeeklyRent (rent_row "650000" "0.04")))
       "Median Weekly Rent" = VString "$500"
  /\ getRawValue
       (formatValue (VNumber (calculateMedianWeeklyRent (rent_row "650000" "0.04")))
          "Median Weekly Rent") "Rent" "Median Weekly Rent"
     = Ok (VNumber (calculateMedianWeeklyRent (rent_row "650000" "0.04"))).
Proof.
  assert (Hexact : exact_Z (calculateMedianWeeklyRent (rent_row "650000" "0.04"))
                   = Some 500) by (by vm_compute).
  assert (Hn : 0 <= 500 < 2 ^ 53) by lia.
  pose proof (derived_column_round_trip (rent_row "650000" "0.04") 500 "Rent" Hexact Hn)
    as H.
  cbv zeta in H. destruct H as [_ H]. destruct (H ltac:(lia)) as [Hshown Hraw].
  split; [exact Hexact |]. split; [exact Hn |]. split; [| exact Hraw].
  rewrite Hshown. by vm_compute.
Defined.
